(** * ExpenseFlow: travel linkage and reconciliation engines

    A shallow embedding of the matching core of the repository:

    - [currencyService.ts]   ([convertToINR]);
    - [components/Reconciler.tsx] (the [filteredData] memo: advisory
      validation, heuristic fallback, classification, scoring);
    - [firebaseService.ts]   ([isHomeLocation], [calculateDuration],
      [addTravelLogs]: ingestion, hotel verification, flight bridging);
    - [server.ts]            ([runReconciliationAgent]);
    - [currencyService.ts]   ([getExchangeRates]), [firebaseService.ts]
      ([addExpenses]), [App.tsx] ([handleInitiateAudit]),
      [geminiService.ts] (the travel logs of [batchExtractAllData]) and
      [components/Dashboard.tsx] ([verifiedIds]).

    Conventions of the embedding.

    - A JavaScript [number] is an IEEE 754 binary64 value ([JS.number]):
      [NaN], an infinity, or a finite value held as the rational it
      denotes.  Arithmetic returns the exact result rounded to the nearest
      binary64 value, ties to the even mantissa, with overflow to an
      infinity and gradual underflow ([JS.rnd]); a decimal literal of the
      source is the binary64 value nearest to it ([JS.dec], [JS.literal]).
      The sign of zero is not kept: no divisor of the code can be zero
      and nothing reads the sign.  An amount or a rate of the data is
      finite (the extraction stores [Number(item.a) || 0], the rate
      service answers in JSON) and is held by its value ([Q]).  Times and
      day counts are integers far below 2^53, where binary64 arithmetic
      is exact: they are [Z], and a time or day count that may be [NaN]
      is an [option], [None] standing for [NaN].  Comparisons with [NaN]
      are false, as in JavaScript.
    - Strings are [string]s of bytes; case conversion and trimming act on
      the ASCII range.
    - [new Date(s).getTime()] is modelled for the date-only ISO form
      [YYYY-MM-DD] of a date that exists (UTC midnight, in milliseconds);
      every other string is an invalid date.  Times are integers ([Z]).
    - An optional field is an [option]; JavaScript truthiness of an optional
      string is [truthy].
    - The Firestore collection is a list of documents in query order;
      [setDoc (..., {merge: true})] patches the documents carrying the id.
      The writes a pass issues are returned as a list, and the state after
      the pass is that list applied to the collection. *)

From Stdlib Require Import ZArith QArith Qround Qabs Qpower Lqa Lia.
From Stdlib Require Floats.
From Stdlib Require Import Ascii String.
From stdpp Require Import base option list gmap strings sorting.

Local Open Scope string_scope.
Local Open Scope list_scope.
Local Open Scope Z_scope.

(** ** JavaScript primitives used by the engines *)

Module JS.

(** [x && ...] / [!x] on an optional string: [undefined], [null] and the
    empty string are falsy. *)
Definition truthy (o : option string) : bool :=
  match o with
  | Some s => negb (String.eqb s "")
  | None => false
  end.

(** [o || d] on an optional string. *)
Definition or_else (o : option string) (d : string) : string :=
  if truthy o then default d o else d.

(** [a || b] on two optional strings. *)
Definition or_opt (a b : option string) : option string :=
  if truthy a then a else b.

Definition lower_ascii (c : ascii) : ascii :=
  let n := nat_of_ascii c in
  if ((65 <=? n)%nat && (n <=? 90)%nat)%bool then ascii_of_nat (n + 32) else c.

Definition upper_ascii (c : ascii) : ascii :=
  let n := nat_of_ascii c in
  if ((97 <=? n)%nat && (n <=? 122)%nat)%bool then ascii_of_nat (n - 32) else c.

Fixpoint map_string (f : ascii -> ascii) (s : string) : string :=
  match s with
  | EmptyString => EmptyString
  | String c s' => String (f c) (map_string f s')
  end.

Definition toLowerCase : string -> string := map_string lower_ascii.
Definition toUpperCase : string -> string := map_string upper_ascii.

Definition is_space (c : ascii) : bool :=
  let n := nat_of_ascii c in
  ((n =? 32)%nat || ((9 <=? n)%nat && (n <=? 13)%nat))%bool.

Fixpoint trimStart (s : string) : string :=
  match s with
  | String c s' => if is_space c then trimStart s' else s
  | EmptyString => EmptyString
  end.

Fixpoint trimEnd (s : string) : string :=
  match s with
  | EmptyString => EmptyString
  | String c s' =>
      match trimEnd s' with
      | EmptyString => if is_space c then EmptyString else String c EmptyString
      | t => String c t
      end
  end.

Definition trim (s : string) : string := trimEnd (trimStart s).

(** [s.includes(t)] *)
Fixpoint includes (s t : string) : bool :=
  String.prefix t s ||
  match s with
  | EmptyString => false
  | String _ s' => includes s' t
  end.

(** [s.substring(0, n)] *)
Definition substring0 (n : nat) (s : string) : string := String.substring 0 n s.

(** [s.split(sep)] for a one-character separator. *)
Fixpoint split (sep : ascii) (s : string) : list string :=
  match s with
  | EmptyString => [EmptyString]
  | String c s' =>
      if Ascii.eqb c sep then EmptyString :: split sep s'
      else match split sep s' with
           | p :: ps => String c p :: ps
           | [] => [String c EmptyString]
           end
  end.

Definition digit_of (c : ascii) : option Z :=
  let n := Z.of_nat (nat_of_ascii c) in
  if (48 <=? n) && (n <=? 57) then Some (n - 48) else None.

Definition hex_digit_of (c : ascii) : option Z :=
  let n := Z.of_nat (nat_of_ascii (lower_ascii c)) in
  if (48 <=? n) && (n <=? 57) then Some (n - 48)
  else if (97 <=? n) && (n <=? 102) then Some (n - 87)
  else None.

(** The longest prefix of digits of [s], folded in radix [r]; [None] when
    there is no digit at all. *)
Fixpoint digits_prefix (dig : ascii -> option Z) (r : Z) (acc : option Z) (s : string) : option Z :=
  match s with
  | EmptyString => acc
  | String c s' =>
      match dig c with
      | Some d => digits_prefix dig r (Some (default 0 acc * r + d)) s'
      | None => acc
      end
  end.

(** [parseInt(s)]: leading white space, an optional sign, an optional
    [0x] prefix, then the longest run of digits; [None] is [NaN]. *)
Definition parseInt (s : string) : option Z :=
  let s1 := trimStart s in
  let '(sign, s2) :=
    match s1 with
    | String "-" r => (-1, r)
    | String "+" r => (1, r)
    | _ => (1, s1)
    end in
  let magnitude :=
    match s2 with
    | String "0" (String x r) =>
        if Ascii.eqb (lower_ascii x) "x" then digits_prefix hex_digit_of 16 None r
        else digits_prefix digit_of 10 None s2
    | _ => digits_prefix digit_of 10 None s2
    end in
  Z.mul sign <$> magnitude.

(** All the characters of [s] are decimal digits: their value. *)
Fixpoint all_digits (acc : Z) (s : string) : option Z :=
  match s with
  | EmptyString => Some acc
  | String c s' =>
      match digit_of c with
      | Some d => all_digits (acc * 10 + d) s'
      | None => None
      end
  end.

Definition is_leap (y : Z) : bool :=
  ((y mod 4 =? 0) && negb (y mod 100 =? 0)) || (y mod 400 =? 0).

Definition days_in_month (y m : Z) : Z :=
  if m =? 2 then (if is_leap y then 29 else 28)
  else if (m =? 4) || (m =? 6) || (m =? 9) || (m =? 11) then 30
  else 31.

(** Days from 1970-01-01 to the civil date [y]-[m]-[d]. *)
Definition days_from_civil (y m d : Z) : Z :=
  let y' := if m <=? 2 then y - 1 else y in
  let era := y' / 400 in
  let yoe := y' - era * 400 in
  let mp := if 2 <? m then m - 3 else m + 9 in
  let doy := (153 * mp + 2) / 5 + d - 1 in
  let doe := yoe * 365 + yoe / 4 - yoe / 100 + doy in
  era * 146097 + doe - 719468.

Definition msPerDay : Z := 1000 * 60 * 60 * 24.

(** The day number of a [YYYY-MM-DD] string. *)
Definition parse_iso_day (s : string) : option Z :=
  if negb (String.length s =? 10)%nat then None else
  match split "-" s with
  | [ys; ms; ds] =>
      if negb ((String.length ys =? 4)%nat && (String.length ms =? 2)%nat
               && (String.length ds =? 2)%nat) then None else
      match all_digits 0 ys, all_digits 0 ms, all_digits 0 ds with
      | Some y, Some m, Some d =>
          if (1 <=? m) && (m <=? 12) && (1 <=? d) && (d <=? days_in_month y m)
          then Some (days_from_civil y m d) else None
      | _, _, _ => None
      end
  | _ => None
  end.

(** [new Date(s).getTime()] *)
Definition getTime (s : string) : option Z :=
  (fun d => d * msPerDay) <$> parse_iso_day s.

(** [Math.round(x)] on a finite number: the nearest integer, ties upwards. *)
Definition Math_round (x : Q) : Z := Qfloor (x + (1 # 2))%Q.

Definition Qlt_bool (x y : Q) : bool := negb (Qle_bool y x).

(** *** Numbers: IEEE 754 binary64 *)

Inductive number :=
| NaN
| Infinity (negative : bool)
| Num (q : Q).

Definition pow2 (e : Z) : Q := (2 ^ e)%Q.

(** The exponent of the leading bit of [a > 0]: the [k] with
    [2^k <= a < 2^(k+1)]. *)
Definition ilog2 (a : Q) : Z :=
  let k := Z.log2 (Qnum a) - Z.log2 (Zpos (Qden a)) in
  if Qle_bool (pow2 k) a then k else k - 1.

(** The integer nearest to [x], a tie going to the even one. *)
Definition roundEven (x : Q) : Z :=
  let f := Qfloor x in
  match (x - inject_Z f ?= 1 # 2)%Q with
  | Lt => f
  | Gt => f + 1
  | Eq => if Z.even f then f else f + 1
  end.

(** The exponent of the unit in the last place of the binary64 values
    around [a > 0]: 53 bits of mantissa, and no exponent below that of the
    subnormal numbers. *)
Definition ulpExp (a : Q) : Z := Z.max (ilog2 a - 52) (-1074).

(** [a > 0] rounded to a multiple of its unit in the last place. *)
Definition mag (a : Q) : Q :=
  (inject_Z (roundEven (a / pow2 (ulpExp a))) * pow2 (ulpExp a))%Q.

(** The binary64 value nearest to [a > 0]; [None] when it is beyond the
    largest finite one. *)
Definition nearest (a : Q) : option Q :=
  if Qle_bool (pow2 1024) (mag a) then None else Some (Qred (mag a)).

(** The number an exact result [q] is delivered as. *)
Definition rnd (q : Q) : number :=
  match (q ?= 0)%Q with
  | Eq => Num 0
  | Gt => match nearest q with Some v => Num v | None => Infinity false end
  | Lt => match nearest (- q) with Some v => Num (- v) | None => Infinity true end
  end.

(** A decimal literal of the source, as a number and as a finite value. *)
Definition dec (q : Q) : number := rnd q.

Definition literal (q : Q) : Q :=
  match rnd q with Num v => v | _ => 0 end.

Definition isNeg (q : Q) : bool := negb (Qle_bool 0 q).

(** [-x] *)
Definition neg (x : number) : number :=
  match x with
  | NaN => NaN
  | Infinity s => Infinity (negb s)
  | Num q => Num (- q)
  end.

(** [Math.abs(x)] *)
Definition Math_abs (x : number) : number :=
  match x with
  | NaN => NaN
  | Infinity _ => Infinity false
  | Num q => Num (Qabs q)
  end.

(** [x + y] *)
Definition fadd (x y : number) : number :=
  match x, y with
  | NaN, _ | _, NaN => NaN
  | Infinity s, Infinity t => if Bool.eqb s t then Infinity s else NaN
  | Infinity s, Num _ => Infinity s
  | Num _, Infinity t => Infinity t
  | Num a, Num b => rnd (a + b)
  end.

(** [x - y] *)
Definition fsub (x y : number) : number := fadd x (neg y).

(** [x * y] *)
Definition fmul (x y : number) : number :=
  match x, y with
  | NaN, _ | _, NaN => NaN
  | Infinity s, Infinity t => Infinity (xorb s t)
  | Infinity s, Num b => if Qeq_bool b 0 then NaN else Infinity (xorb s (isNeg b))
  | Num a, Infinity t => if Qeq_bool a 0 then NaN else Infinity (xorb (isNeg a) t)
  | Num a, Num b => rnd (a * b)
  end.

(** [x / y]; a zero divisor is taken as [+0]. *)
Definition fdiv (x y : number) : number :=
  match x, y with
  | NaN, _ | _, NaN => NaN
  | Infinity _, Infinity _ => NaN
  | Infinity s, Num b => Infinity (xorb s (isNeg b))
  | Num _, Infinity _ => Num 0
  | Num a, Num b =>
      if Qeq_bool b 0 then (if Qeq_bool a 0 then NaN else Infinity (isNeg a))
      else rnd (a / b)
  end.

(** [x < y] *)
Definition num_lt (x y : number) : bool :=
  match x, y with
  | NaN, _ | _, NaN => false
  | Infinity s, Infinity t => s && negb t
  | Infinity s, Num _ => s
  | Num _, Infinity t => negb t
  | Num a, Num b => Qlt_bool a b
  end.

(** [x <= y] *)
Definition num_le (x y : number) : bool :=
  match x, y with
  | NaN, _ | _, NaN => false
  | Infinity s, Infinity t => s || negb t
  | Infinity s, Num _ => s
  | Num _, Infinity t => negb t
  | Num a, Num b => Qle_bool a b
  end.

(** An array length as a number. *)
Definition ofNat (n : nat) : number := Num (inject_Z (Z.of_nat n)).

(** *** The binary64 floats of the kernel

    Rocq's kernel has the binary64 format and its operations as
    primitives.  [ofFloat] reads such a float as a [number], so that the
    operations above can be run side by side with the kernel's
    ([NumberFacts.agrees_with_kernel_floats]). *)
Definition ofFloat (f : PrimFloat.float) : number :=
  match FloatOps.Prim2SF f with
  | SpecFloat.S754_zero _ => Num 0
  | SpecFloat.S754_infinity s => Infinity s
  | SpecFloat.S754_nan => NaN
  | SpecFloat.S754_finite s m e =>
      Num (Qred ((if s then -1 else 1) * inject_Z (Zpos m) * pow2 e))
  end.

Definition sameNumber (x y : number) : bool :=
  match x, y with
  | NaN, NaN => true
  | Infinity s, Infinity t => Bool.eqb s t
  | Num a, Num b => Qeq_bool a b
  | _, _ => false
  end.

(** Every operation above gives, on the numbers [a] and [b] denote, what
    the kernel's operation gives on [a] and [b] (division apart when [b]
    is a zero, whose sign is not kept). *)
Definition agreeOn (a b : PrimFloat.float) : bool :=
  let x := ofFloat a in
  let y := ofFloat b in
  sameNumber (fadd x y) (ofFloat (PrimFloat.add a b))
  && sameNumber (fsub x y) (ofFloat (PrimFloat.sub a b))
  && sameNumber (fmul x y) (ofFloat (PrimFloat.mul a b))
  && (sameNumber y (Num 0) || sameNumber (fdiv x y) (ofFloat (PrimFloat.div a b)))
  && Bool.eqb (num_lt x y) (PrimFloat.ltb a b)
  && Bool.eqb (num_le x y) (PrimFloat.leb a b)
  && sameNumber (Math_abs x) (ofFloat (PrimFloat.abs a))
  && sameNumber (neg x) (ofFloat (PrimFloat.opp a)).

(** The float [m * 2^e], and the quotient of two integers. *)
Definition float_of (m : positive) (e : Z) : PrimFloat.float :=
  FloatOps.SF2Prim (SpecFloat.S754_finite false m e).

Definition ratio (n d : positive) : PrimFloat.float :=
  PrimFloat.div (float_of n 0) (float_of d 0).

Definition signed (l : list PrimFloat.float) : list PrimFloat.float :=
  l ++ map PrimFloat.opp l.

Definition specialFloats : list PrimFloat.float :=
  [PrimFloat.zero; PrimFloat.infinity; PrimFloat.neg_infinity; PrimFloat.nan].

(** The amounts, rates, counts and literals of the examples of this
    development, some quotients that do not terminate in binary, and
    integers around 2^53. *)
Definition ordinaryFloats : list PrimFloat.float :=
  specialFloats ++
  signed [ float_of 1 0; float_of 3 0; float_of 10 0; float_of 23 0; float_of 40 0;
           float_of 100 0; float_of 225 0; float_of 500 0; float_of 951 0; float_of 1000 0;
           ratio 1 10; ratio 5 100; ratio 1 100; ratio 1001 100; ratio 1001 10;
           ratio 285 100; ratio 50005 100; ratio 1 3; ratio 23 40;
           float_of 9007199254740991 0; float_of 9007199254740993 (-1) ].

(** Pairs at the limits of the format: the smallest subnormal floats
    (ties and underflow to zero), the smallest normal one, and the
    largest finite one (overflow, and the tie at the overflow
    threshold). *)
Definition limitPairs : list (PrimFloat.float * PrimFloat.float) :=
  let tiny := float_of 1 (-1074) in
  let small := float_of 1 (-1022) in
  let huge := float_of 9007199254740991 971 in
  [ (tiny, float_of 1 (-1)); (float_of 3 (-1074), float_of 1 (-1)); (small, float_of 3 0);
    (small, tiny); (tiny, PrimFloat.opp tiny); (float_of 1 0, tiny); (tiny, huge);
    (huge, huge); (huge, float_of 1 970); (huge, float_of 1 969); (huge, float_of 3 0);
    (PrimFloat.opp huge, huge) ].

End JS.

(** ** currencyService.ts *)

Module Currency.
Import JS.

Record ExchangeRates := { rates : gmap string Q; timestamp : Z }.

(** [convertToINR(amount, fromCurrency, rates)].  [!rate] holds for a
    missing rate and for a rate of zero: both fall back to 1:1. *)
Definition convertToINR (amount : Q) (fromCurrency : string) (rates : gmap string Q) : number :=
  let currency := toUpperCase fromCurrency in
  if String.eqb currency "INR" then Num amount else
  match rates !! currency with
  | Some rate => if Qeq_bool rate 0 then Num amount else fdiv (Num amount) (Num rate)
  | None => Num amount
  end.

End Currency.

(** ** components/Reconciler.tsx: the [filteredData] memo *)

Module Reconciler.
Import JS Currency.

Record Expense := {
  id : string;
  merchant : string;
  amount : Q;
  currency : string;
  date : string;
  category : string;
  source : string;
  bank : option string
}.

(** An entry of [ReconciliationResult.matched]. *)
Record Proposal := {
  receiptId : option string;
  bankId : option string;
  emailId : option string;
  proofLabel : option string;
  summary : option string
}.

Record ReconciliationResult := { matched : list Proposal }.

Record Period := { month : string; year : Z }.

(** An element of [matchedPairs]: [{ bank, receipt, label, summary }]. *)
Record Pair := {
  pair_bank : Expense;
  pair_receipt : Expense;
  pair_label : option string;
  pair_summary : option string
}.

Record Stats := {
  matchedCount : nat;
  score : Z;
  totalBankTx : nat;
  totalVault : nat
}.

Record Summary := {
  total_matched : nat;
  total_unmatched : nat;
  compliance_score : Z;
  mandatory_error_count : nat;
  warning_count : nat;
  optional_count : nat
}.

Record ReconciliationReport := {
  report_month : string;
  report_year : Z;
  matched_transactions : list Expense;
  mandatory_missing : list Expense;
  optional_missing : list Expense;
  standard_missing : list Expense;
  report_summary : Summary
}.

Record FilteredData := {
  fd_matched : list Pair;
  mandatoryMissing : list Expense;
  standardMissing : list Expense;
  optionalMissing : list Expense;
  stats : Stats;
  fullReport : ReconciliationReport
}.

Definition monthsList : list string :=
  ["January"; "February"; "March"; "April"; "May"; "June"; "July";
   "August"; "September"; "October"; "November"; "December"].

(** [Math.abs(bDate - rDate) / (1000 * 60 * 60 * 24)]; [None] is [NaN]. *)
Definition diffDays (bankDate receiptDate : string) : option Q :=
  match getTime bankDate, getTime receiptDate with
  | Some bDate, Some rDate => Some (inject_Z (Z.abs (bDate - rDate)) / inject_Z msPerDay)%Q
  | _, _ => None
  end.

Definition isTele (m : string) : bool := includes m "e&" || includes m "etisalat".

Definition isRTA (m : string) : bool :=
  includes m "rta" || includes m "road & transport" || includes m "dubai metro"
  || includes m "hala taxi".

(** The merchant synonym check, written twice in the source (advisory
    validation and fallback) with the same text. *)
Definition mercMatch (bank receipt : Expense) : bool :=
  let bMerc := toLowerCase (merchant bank) in
  let rMerc := toLowerCase (merchant receipt) in
  (isTele bMerc && isTele rMerc) || (isRTA bMerc && isRTA rMerc)
  || includes rMerc (substring0 4 bMerc) || includes bMerc (substring0 4 rMerc).

Definition isHotel (bank receipt : Expense) : bool :=
  includes (toLowerCase (category bank)) "lodging" || includes (toLowerCase (category bank)) "hotel"
  || includes (toLowerCase (category receipt)) "lodging" || includes (toLowerCase (category receipt)) "hotel".

Definition isAnchor (e : Expense) : bool :=
  let src := trim (toLowerCase (source e)) in
  String.eqb src "bank_statement" || String.eqb src "credit_card_statement".

Section FilteredData.
Variable expenses : list Expense.
Variable reconciliation : option ReconciliationResult.
Variable exchangeData : option ExchangeRates.
Variable period : Period.
Variable auditBank : string.

Definition rates : gmap string Q :=
  match exchangeData with Some d => Currency.rates d | None => ∅ end.

Definition isTargetPeriod (dateStr : string) : bool :=
  if String.eqb dateStr "" then false else
  let parts := split "-" dateStr in
  if (length parts <? 2)%nat then false else
  let y := parseInt (nth 0 parts "") in
  let mIdx := (fun m => m - 1) <$> parseInt (nth 1 parts "") in
  let yearMatch := bool_decide (y = Some (year period)) in
  let monthMatch :=
    String.eqb (month period) "All Months"
    || match mIdx with
       | Some i => if 0 <=? i then bool_decide (monthsList !! Z.to_nat i = Some (month period)) else false
       | None => false
       end in
  yearMatch && monthMatch.

Definition bankInScope (e : Expense) : bool :=
  String.eqb auditBank "All Accounts" || bool_decide (bank e = Some auditBank).

Definition allAnchorsInPeriod : list Expense :=
  filter (fun e => isAnchor e && isTargetPeriod (date e) && bankInScope e) expenses.

Definition totalVaultAnchors : list Expense :=
  filter (fun e => isAnchor e && bankInScope e) expenses.

(** [expenseMap]: a later expense with the same id replaces an earlier one. *)
Definition expenseMap : gmap string Expense :=
  foldl (fun m e => if truthy (Some (id e)) then <[id e := e]> m else m) ∅ expenses.

(** Currency-aware parity of the advisory validation ([sameAmt]). *)
Definition sameAmt (bank receipt : Expense) : bool :=
  let bINR := convertToINR (amount bank) (currency bank) rates in
  let rINR := convertToINR (amount receipt) (currency receipt) rates in
  let sameCurrency := String.eqb (currency bank) (currency receipt) in
  if sameCurrency
  then num_lt (Math_abs (fsub (Num (amount bank)) (Num (amount receipt)))) (dec (10 # 100))
  else num_lt (Math_abs (fsub bINR rINR)) (fmul bINR (dec (5 # 100))).

(** 1. Initial matcher: one advisory proposal, validated or dropped. *)
Definition validate (m : Proposal) : option Pair :=
  let bank := if truthy (bankId m) then expenseMap !! (default "" (bankId m)) else None in
  let rid := or_opt (receiptId m) (emailId m) in
  let receipt := if truthy rid then expenseMap !! (or_else rid "") else None in
  match bank, receipt with
  | Some bank, Some receipt =>
      if String.eqb (id bank) (id receipt) || isAnchor receipt then None else
      let maxDays := if isHotel bank receipt then 14 else 7 in
      let tooFar :=
        match diffDays (date bank) (date receipt) with
        | Some d => Qlt_bool (inject_Z maxDays) d
        | None => false
        end in
      if tooFar || negb (sameAmt bank receipt) || negb (mercMatch bank receipt) then None
      else Some {| pair_bank := bank; pair_receipt := receipt;
                   pair_label := proofLabel m; pair_summary := summary m |}
  | _, _ => None
  end.

Definition advisoryPairs : list Pair :=
  filter (fun pair => isTargetPeriod (date (pair_bank pair)) && bankInScope (pair_bank pair))
         (omap validate (match reconciliation with Some r => matched r | None => [] end)).

(** 2. Heuristic fallback matcher. *)
Record Fallback := {
  matchedPairs : list Pair;
  matchedBankIds : gset string;
  availableReceipts : list Expense
}.

Definition sameAmtVal (bankTx rec : Expense) : bool :=
  let bINR := convertToINR (amount bankTx) (currency bankTx) rates in
  let rINR := convertToINR (amount rec) (currency rec) rates in
  let sameCurrency := String.eqb (currency bankTx) (currency rec) in
  if sameCurrency
  then num_lt (Math_abs (fsub (Num (amount bankTx)) (Num (amount rec)))) (dec (10 # 100))
  else num_lt (Math_abs (fsub bINR rINR)) (fmul bINR (dec (5 # 100))).

Definition autoMatches (bankTx rec : Expense) : bool :=
  let maxDays := if isHotel bankTx rec then 14 else 3 in
  let withinWindow :=
    match diffDays (date bankTx) (date rec) with
    | Some d => Qle_bool d (inject_Z maxDays)
    | None => false
    end in
  let validSource := negb (isAnchor rec) in
  sameAmtVal bankTx rec && withinWindow && mercMatch bankTx rec && validSource.

Definition fallbackStep (st : Fallback) (bankTx : Expense) : Fallback :=
  match list_find (fun rec => autoMatches bankTx rec) (availableReceipts st) with
  | Some (idx, autoMatch) =>
      {| matchedPairs := matchedPairs st ++
           [{| pair_bank := bankTx; pair_receipt := autoMatch;
               pair_label := Some "AUTO-VERIFIED (Forensic Match)";
               pair_summary := Some "Verified via ±3 day clearance window heuristic match." |}];
         matchedBankIds := {[ id bankTx ]} ∪ matchedBankIds st;
         availableReceipts := delete idx (availableReceipts st) |}
  | None => st
  end.

Definition fallbackInit : Fallback :=
  {| matchedPairs := advisoryPairs;
     matchedBankIds :=
       list_to_set (filter (fun i => truthy (Some i)) (id ∘ pair_bank <$> advisoryPairs));
     availableReceipts :=
       filter (fun e => negb (isAnchor e)
                        && negb (existsb (fun p => String.eqb (id (pair_receipt p)) (id e)) advisoryPairs))
              expenses |}.

Definition unmatchedAnchors : list Expense :=
  filter (fun b => id b ∉ matchedBankIds fallbackInit) allAnchorsInPeriod.

Definition fallback : Fallback := foldl fallbackStep fallbackInit unmatchedAnchors.

Definition finalUnmatchedBankTx : list Expense :=
  filter (fun b => id b ∉ matchedBankIds fallback) allAnchorsInPeriod.

(** 3. Classification of the remainder. *)
Definition mentions (keys : list string) (exp : Expense) : bool :=
  let merc := toLowerCase (merchant exp) in
  let cat := toLowerCase (category exp) in
  existsb (fun k => includes merc k || includes cat k) keys.

Definition isMandatory (exp : Expense) : bool :=
  mentions ["travel"; "hotel"; "flight"; "airline"; "stay"; "flydubai"; "ibis"; "accommodation"] exp.

Definition isOptional (exp : Expense) : bool :=
  let amountINR := convertToINR (amount exp) (currency exp) rates in
  mentions ["bank charges"; "transfer"; "vat"; "tax"; "finance"; "charge"] exp
  || num_lt amountINR (Num 225).

(** The three arrays filled by [finalUnmatchedBankTx.forEach]:
    mandatory, standard, optional. *)
Definition classifyStep (acc : list Expense * list Expense * list Expense) (exp : Expense)
  : list Expense * list Expense * list Expense :=
  let '(mandatory, standard, optional) := acc in
  if isMandatory exp then (mandatory ++ [exp], standard, optional)
  else if isOptional exp then (mandatory, standard, optional ++ [exp])
  else (mandatory, standard ++ [exp], optional).

Definition classified : list Expense * list Expense * list Expense :=
  foldl classifyStep ([], [], []) finalUnmatchedBankTx.

(** 4. Scoring:
    [Math.round((matchedPairs.length / scoreDenominator) * 100)].  The
    product is finite, the quotient lying between 0 and 1, so the last
    branch is not taken. *)
Definition computeScore (nMatched nMandatory nStandard : nat) : Z :=
  let scoreDenominator := (nMatched + nMandatory + nStandard)%nat in
  if (0 <? scoreDenominator)%nat
  then match fmul (fdiv (ofNat nMatched) (ofNat scoreDenominator)) (Num 100) with
       | Num x => Math_round x
       | _ => 0
       end
  else 100.

Definition filteredData : FilteredData :=
  let matchedPairs := matchedPairs fallback in
  let '(mandatoryMissing, standardMissing, optionalMissing) := classified in
  let score := computeScore (length matchedPairs) (length mandatoryMissing) (length standardMissing) in
  {| fd_matched := matchedPairs;
     mandatoryMissing := mandatoryMissing;
     standardMissing := standardMissing;
     optionalMissing := optionalMissing;
     stats := {| matchedCount := length matchedPairs; score := score;
                 totalBankTx := length allAnchorsInPeriod;
                 totalVault := length totalVaultAnchors |};
     fullReport :=
       {| report_month := month period;
          report_year := year period;
          matched_transactions := pair_bank <$> matchedPairs;
          mandatory_missing := mandatoryMissing;
          optional_missing := optionalMissing;
          standard_missing := standardMissing;
          report_summary :=
            {| total_matched := length matchedPairs;
               total_unmatched := length finalUnmatchedBankTx;
               compliance_score := score;
               mandatory_error_count := length mandatoryMissing;
               warning_count := length standardMissing;
               optional_count := length optionalMissing |} |} |}.

End FilteredData.

End Reconciler.

(** ** firebaseService.ts: the travel linkage engine *)

Module Firebase.
Import JS.

Inductive TravelType := flight | accommodation.

Inductive TravelLogStatus :=
| Complete                    (* 'Complete' *)
| OpenAwaitingReturn          (* 'Open - Awaiting return' *)
| IncompleteOutboundMissing.  (* 'Incomplete - Outbound missing' *)

Inductive HotelVerification := verified | missing | mismatch | not_required.

#[global] Instance TravelType_eq_dec : EqDecision TravelType.
Proof. solve_decision. Defined.
#[global] Instance TravelLogStatus_eq_dec : EqDecision TravelLogStatus.
Proof. solve_decision. Defined.
#[global] Instance HotelVerification_eq_dec : EqDecision HotelVerification.
Proof. solve_decision. Defined.

(** The fields of [TravelLog] the engine reads or writes.  [days_spent]
    is a number that can be [NaN] ([None]). *)
Record TravelLog := {
  id : string;
  destination_country : string;
  destination_city : string;
  start_date : string;
  end_date : option string;
  return_date : option string;
  days_spent : option Z;
  status : TravelLogStatus;
  travel_type : TravelType;
  reference_number : option string;
  hotel_verification_status : option HotelVerification;
  linked_hotel_id : option string;
  linked_flight_id : option string;
  document_id : option string;
  outbound_flight_id : option string;
  return_flight_id : option string;
  uploaded_at : option string;
  updated_at : option string
}.

(** A [Partial<TravelLog>] passed to [setDoc(..., { merge: true })]:
    the fields present in the object. *)
Record Patch := {
  set_status : option TravelLogStatus;
  set_hotel_verification_status : option HotelVerification;
  set_linked_hotel_id : option string;
  set_linked_flight_id : option string;
  set_return_date : option string;
  set_return_flight_id : option string;
  set_outbound_flight_id : option string;
  set_days_spent : option (option Z);
  set_updated_at : option string
}.

(** One [setDoc(doc(db, 'travel_logs', id), patch, { merge: true })]. *)
Record Write := { target : string; patch : Patch }.

Definition merge (p : Patch) (l : TravelLog) : TravelLog :=
  {| id := id l;
     destination_country := destination_country l;
     destination_city := destination_city l;
     start_date := start_date l;
     end_date := end_date l;
     return_date := match set_return_date p with Some d => Some d | None => return_date l end;
     days_spent := default (days_spent l) (set_days_spent p);
     status := default (status l) (set_status p);
     travel_type := travel_type l;
     reference_number := reference_number l;
     hotel_verification_status :=
       match set_hotel_verification_status p with Some v => Some v | None => hotel_verification_status l end;
     linked_hotel_id := match set_linked_hotel_id p with Some i => Some i | None => linked_hotel_id l end;
     linked_flight_id := match set_linked_flight_id p with Some i => Some i | None => linked_flight_id l end;
     document_id := document_id l;
     outbound_flight_id :=
       match set_outbound_flight_id p with Some i => Some i | None => outbound_flight_id l end;
     return_flight_id := match set_return_flight_id p with Some i => Some i | None => return_flight_id l end;
     uploaded_at := uploaded_at l;
     updated_at := match set_updated_at p with Some t => Some t | None => updated_at l end |}.

(** The collection, in document-id order (the order of an unfiltered
    [getDocs]).  Every id written by [addTravelLogs] was read from the
    collection in the same call, so a write to an absent id does not
    occur and is modelled as no change. *)
Definition Collection := list TravelLog.

Definition setDoc (db : Collection) (w : Write) : Collection :=
  (fun l => if String.eqb (id l) (target w) then merge (patch w) l else l) <$> db.

Definition applyWrites (db : Collection) (ws : list Write) : Collection :=
  foldl setDoc db ws.

Fixpoint insertDoc (d : TravelLog) (db : Collection) : Collection :=
  match db with
  | [] => [d]
  | e :: db' => if String.ltb (id d) (id e) then d :: db else e :: insertDoc d db'
  end.

Definition isHomeLocation (log : TravelLog) : bool :=
  let dest := toLowerCase (destination_country log ++ " " ++ destination_city log)%string in
  includes dest "uae" || includes dest "emirates" || includes dest "dubai"
  || includes dest "united arab emirates".

(** [calculateDuration(start, end?)] *)
Definition calculateDuration (start : string) (end_ : option string) : option Z :=
  match getTime start, getTime (or_else end_ start) with
  | Some startDate, Some endDate =>
      let diffTime := Z.abs (endDate - startDate) in
      Some (Qceiling (inject_Z diffTime / inject_Z msPerDay) + 1)
  | _, _ => None
  end.

(** [(a, b) => new Date(a.start_date).getTime() - new Date(b.start_date).getTime()]
    is positive; a [NaN] result orders nothing. *)
Definition laterStart (a b : TravelLog) : bool :=
  match getTime (start_date a), getTime (start_date b) with
  | Some ta, Some tb => tb <? ta
  | _, _ => false
  end.

(** [Array.prototype.sort(cmp)] as a stable insertion sort; [gt a b]
    stands for [cmp(a, b) > 0].  Where [cmp] orders the elements
    consistently (here: where the start dates are valid) the sort of the
    engine, which is stable, gives this list.  Where [cmp] answers [NaN]
    for some pair the order the engine leaves is implementation-defined,
    and this is one order it can leave; the statements about the order
    itself are made for valid dates. *)
Section Sort.
Context {A : Type} (gt : A -> A -> bool).

Fixpoint insertSorted (x : A) (l : list A) : list A :=
  match l with
  | [] => [x]
  | y :: l' => if gt x y then y :: insertSorted x l' else x :: l
  end.

Fixpoint sortBy (l : list A) : list A :=
  match l with
  | [] => []
  | x :: l' => insertSorted x (sortBy l')
  end.
End Sort.

(** *** 1. Ingestion *)

Definition isDuplicate (existingLogs : list TravelLog) (log : TravelLog) : bool :=
  existsb (fun existing =>
    if truthy (reference_number log) && truthy (reference_number existing)
       && String.eqb (toUpperCase (default "" (reference_number log)))
                     (toUpperCase (default "" (reference_number existing)))
    then true
    else
      let sameDate := String.eqb (start_date log) (start_date existing) in
      let sameDest := String.eqb (toLowerCase (destination_city log))
                                 (toLowerCase (destination_city existing)) in
      sameDate && sameDest && bool_decide (travel_type log = travel_type existing))
    existingLogs.

Definition isAccommodation (log : TravelLog) : bool :=
  bool_decide (travel_type log = accommodation).

Definition isRoundTrip (log : TravelLog) : bool :=
  negb (isAccommodation log) && negb (isHomeLocation log) && truthy (return_date log).

Definition consolidated (log : TravelLog) : bool :=
  isHomeLocation log || isRoundTrip log || isAccommodation log.

Section AddTravelLogs.
(** [new Date().toISOString()], read once per call. *)
Variable now : string.
(** The id Firestore gives the next document added to a collection. *)
Variable freshId : Collection -> string.

Definition newLog (log : TravelLog) : TravelLog :=
  let documentDuration := calculateDuration (start_date log) (end_date log) in
  {| id := id log;
     destination_country := destination_country log;
     destination_city := destination_city log;
     start_date := start_date log;
     end_date := end_date log;
     return_date := return_date log;
     days_spent := if consolidated log then documentDuration else Some 1;
     status := if consolidated log then Complete else OpenAwaitingReturn;
     travel_type := travel_type log;
     reference_number := reference_number log;
     hotel_verification_status :=
       Some (if negb (isAccommodation log) && negb (isHomeLocation log) then missing else not_required);
     linked_hotel_id := linked_hotel_id log;
     linked_flight_id := linked_flight_id log;
     document_id := document_id log;
     outbound_flight_id := outbound_flight_id log;
     return_flight_id := return_flight_id log;
     uploaded_at := Some now;
     updated_at := updated_at log |}.

Definition withId (i : string) (l : TravelLog) : TravelLog :=
  {| id := i;
     destination_country := destination_country l;
     destination_city := destination_city l;
     start_date := start_date l;
     end_date := end_date l;
     return_date := return_date l;
     days_spent := days_spent l;
     status := status l;
     travel_type := travel_type l;
     reference_number := reference_number l;
     hotel_verification_status := hotel_verification_status l;
     linked_hotel_id := linked_hotel_id l;
     linked_flight_id := linked_flight_id l;
     document_id := document_id l;
     outbound_flight_id := outbound_flight_id l;
     return_flight_id := return_flight_id l;
     uploaded_at := uploaded_at l;
     updated_at := updated_at l |}.

(** One turn of [for (const log of sortedLogs)]; the state is the
    collection and [initialResults]. *)
Definition ingestStep (existingLogs : list TravelLog)
    (st : Collection * list TravelLog) (log : TravelLog) : Collection * list TravelLog :=
  let '(db, initialResults) := st in
  if isDuplicate existingLogs log then st
  else
    let doc := withId (freshId db) (newLog log) in
    (insertDoc doc db, initialResults ++ [doc]).

Definition ingest (db : Collection) (logs : list TravelLog) : Collection * list TravelLog :=
  let sortedLogs := sortBy laterStart logs in
  let existingLogs := db in
  foldl (ingestStep existingLogs) (db, []) sortedLogs.

(** *** 2. Verify hotels *)

Definition hotelMatches (flight_ hotel : TravelLog) : bool :=
  let flightCity := toLowerCase (destination_city flight_) in
  let hotelCity := toLowerCase (destination_city hotel) in
  let cityMatch := includes flightCity hotelCity || includes hotelCity flightCity in
  let dateMatch :=
    match getTime (start_date flight_), getTime (start_date hotel) with
    | Some fDate, Some hDate =>
        let diffDays := (inject_Z (hDate - fDate) / inject_Z msPerDay)%Q in
        Qle_bool (-1) diffDays && Qle_bool diffDays 2
    | _, _ => false
    end in
  cityMatch && dateMatch
  && (negb (truthy (linked_flight_id hotel))
      || bool_decide (linked_flight_id hotel = Some (id flight_))).

Definition verifyFlight (hotels : list TravelLog) (flight_ : TravelLog) : list Write :=
  if bool_decide (hotel_verification_status flight_ = Some verified) || isHomeLocation flight_
  then []
  else
    match find (hotelMatches flight_) hotels with
    | Some match_ =>
        [ {| target := id flight_;
             patch := {| set_status := None;
                         set_hotel_verification_status := Some verified;
                         set_linked_hotel_id := Some (or_else (document_id match_) (id match_));
                         set_linked_flight_id := None;
                         set_return_date := None;
                         set_return_flight_id := None;
                         set_outbound_flight_id := None;
                         set_days_spent := None;
                         set_updated_at := Some now |} |};
          {| target := id match_;
             patch := {| set_status := Some Complete;
                         set_hotel_verification_status := Some verified;
                         set_linked_hotel_id := None;
                         set_linked_flight_id := Some (id flight_);
                         set_return_date := None;
                         set_return_flight_id := None;
                         set_outbound_flight_id := None;
                         set_days_spent := None;
                         set_updated_at := Some now |} |} ]
    | None => []
    end.

(** The writes of the [for (const flight of flights)] loop over the
    snapshot [allLogs]. *)
Definition verifyHotels (allLogs : list TravelLog) : list Write :=
  let flights := filter (fun l => travel_type l = flight) allLogs in
  let hotels := filter (fun l => travel_type l = accommodation) allLogs in
  flights ≫= verifyFlight hotels.

(** *** 3. Bridge flights *)

(** The working set: the objects of [allLogs], addressed by position.
    [arrivals] and [openOutbounds] hold positions, so that the
    assignments to [outbound.return_flight_id] and
    [arrival.outbound_flight_id] are seen through both arrays. *)
Definition holdsAt (P : TravelLog -> bool) (allLogs : list TravelLog) (i : nat) : bool :=
  match allLogs !! i with Some l => P l | None => false end.

Definition positions (P : TravelLog -> bool) (allLogs : list TravelLog) : list nat :=
  filter (fun i => holdsAt P allLogs i) (seq 0 (length allLogs)).

Definition laterStartAt (allLogs : list TravelLog) (i j : nat) : bool :=
  match allLogs !! i, allLogs !! j with
  | Some a, Some b => laterStart a b
  | _, _ => false
  end.

Definition arrivals (allLogs : list TravelLog) : list nat :=
  sortBy (laterStartAt allLogs)
         (positions (fun l => bool_decide (travel_type l = flight) && isHomeLocation l) allLogs).

Definition openOutbounds (allLogs : list TravelLog) : list nat :=
  sortBy (laterStartAt allLogs)
         (positions (fun l => bool_decide (status l = OpenAwaitingReturn) && negb (isHomeLocation l)) allLogs).

(** [new Date(o.start_date) <= new Date(arrival.start_date) && !o.return_flight_id] *)
Definition bridgeable (arrival o : TravelLog) : bool :=
  match getTime (start_date o), getTime (start_date arrival) with
  | Some s, Some e => s <=? e
  | _, _ => false
  end && negb (truthy (return_flight_id o)).

Definition findOutbound (ws : list TravelLog) (outbounds : list nat) (arrival : TravelLog) : option nat :=
  find (fun o => match ws !! o with Some ob => bridgeable arrival ob | None => false end)
       (reverse outbounds).

(** [Math.max(1, Math.floor((end - start) / msPerDay) + 1)] *)
Definition bridgedDays (outbound arrival : TravelLog) : option Z :=
  match getTime (start_date outbound), getTime (start_date arrival) with
  | Some start, Some end_ =>
      Some (Z.max 1 (Qfloor (inject_Z (end_ - start) / inject_Z msPerDay) + 1))
  | _, _ => None
  end.

Definition setReturnFlightId (i : string) (l : TravelLog) : TravelLog :=
  merge {| set_status := None; set_hotel_verification_status := None;
           set_linked_hotel_id := None; set_linked_flight_id := None;
           set_return_date := None; set_return_flight_id := Some i;
           set_outbound_flight_id := None; set_days_spent := None;
           set_updated_at := None |} l.

Definition setOutboundFlightId (i : string) (l : TravelLog) : TravelLog :=
  merge {| set_status := None; set_hotel_verification_status := None;
           set_linked_hotel_id := None; set_linked_flight_id := None;
           set_return_date := None; set_return_flight_id := None;
           set_outbound_flight_id := Some i; set_days_spent := None;
           set_updated_at := None |} l.

(** The two [setDoc] calls of a match: on the outbound, then on the
    arrival. *)
Definition bridgeWrites (outbound arrival : TravelLog) : list Write :=
  let days := bridgedDays outbound arrival in
  [ {| target := id outbound;
       patch := {| set_status := Some Complete;
                   set_hotel_verification_status := None;
                   set_linked_hotel_id := None;
                   set_linked_flight_id := None;
                   set_return_date := Some (start_date arrival);
                   set_return_flight_id := Some (id arrival);
                   set_outbound_flight_id := None;
                   set_days_spent := Some days;
                   set_updated_at := Some now |} |};
    {| target := id arrival;
       patch := {| set_status := None;
                   set_hotel_verification_status := None;
                   set_linked_hotel_id := None;
                   set_linked_flight_id := None;
                   set_return_date := None;
                   set_return_flight_id := None;
                   set_outbound_flight_id := Some (id outbound);
                   set_days_spent := None;
                   set_updated_at := Some now |} |} ].

(** One turn of [for (const arrival of arrivals)]: the working set
    after the turn and the writes issued. *)
Definition bridgeStep (outbounds : list nat) (ws : list TravelLog) (a : nat)
  : list TravelLog * list Write :=
  match ws !! a with
  | None => (ws, [])
  | Some arrival =>
      if truthy (outbound_flight_id arrival) then (ws, [])
      else
        match findOutbound ws outbounds arrival with
        | Some o =>
            match ws !! o with
            | Some outbound =>
                (alter (setOutboundFlightId (id outbound)) a
                   (alter (setReturnFlightId (id arrival)) o ws),
                 bridgeWrites outbound arrival)
            | None => (ws, [])
            end
        | None => (ws, [])
        end
  end.

Fixpoint bridgeLoop (outbounds : list nat) (ws : list TravelLog) (todo : list nat)
  : list TravelLog * list Write :=
  match todo with
  | [] => (ws, [])
  | a :: todo' =>
      let '(ws1, w1) := bridgeStep outbounds ws a in
      let '(ws2, w2) := bridgeLoop outbounds ws1 todo' in
      (ws2, w1 ++ w2)
  end.

Definition bridgeFlights (allLogs : list TravelLog) : list TravelLog * list Write :=
  bridgeLoop (openOutbounds allLogs) allLogs (arrivals allLogs).

(** [addTravelLogs(logs)]: the collection afterwards and the value
    returned. *)
Definition addTravelLogs (db : Collection) (logs : list TravelLog) : Collection * list TravelLog :=
  let '(db1, initialResults) := ingest db logs in
  let allLogs := db1 in
  let db2 := applyWrites db1 (verifyHotels allLogs) in
  let db3 := applyWrites db2 (snd (bridgeFlights allLogs)) in
  (db3, initialResults).

End AddTravelLogs.

End Firebase.

(** ** server.ts: the advisory reconciliation agent *)

Module Server.

(** An element of the audit pool: [{ ...expense, role }]. *)
Record AuditItem := { item : Reconciler.Expense; role : string }.

Definition itemId (e : AuditItem) : string := Reconciler.id (item e).

Record Match := {
  bankId : string;
  receiptId : string;
  proofLabel : string;
  summary : string
}.

(** [ReconciliationSchema], also the shape of the value returned. *)
Record Reconciliation := {
  matched : list Match;
  unmatchedReceipts : list string;
  unmatchedBankTransactions : list string
}.

(** What one [ai.generate] call does: it answers, or it throws a quota
    error (a message with 429 or RESOURCE_EXHAUSTED), or it throws
    something else. *)
Inductive Outcome :=
| Answer (output : Reconciliation)
| QuotaError
| OtherError.

(** The model behind [ai.generate]: its outcome on a prompt, given the
    number of calls made before. *)
Definition Generate := nat -> nat -> list AuditItem -> Outcome.

(** [retryWithBackoff(fn, maxRetries)], turn [i] of its loop with
    [remaining = maxRetries - i] turns left; [None] is a throw.  The
    second component counts the calls made. *)
Fixpoint retryWithBackoff (fn : nat -> Outcome) (maxRetries i remaining calls : nat)
  : option Reconciliation * nat :=
  match remaining with
  | O => (None, calls)
  | S remaining' =>
      match fn calls with
      | Answer output => (Some output, S calls)
      | QuotaError =>
          if (i <? maxRetries - 1)%nat
          then retryWithBackoff fn maxRetries (S i) remaining' (S calls)
          else (None, S calls)
      | OtherError => (None, S calls)
      end
  end.

Definition BATCH_SIZE : nat := 15.

(** The slices [anchors.slice(i, i + BATCH_SIZE)] for [i = 0, 15, ...]. *)
Fixpoint batches (fuel : nat) (anchors : list AuditItem) : list (list AuditItem) :=
  match fuel, anchors with
  | O, _ => []
  | _, [] => []
  | S fuel', _ => take BATCH_SIZE anchors :: batches fuel' (drop BATCH_SIZE anchors)
  end.

Record Loop := {
  allMatches : list Match;
  unmatchedBankIds : list string;
  calls : nat
}.

Definition addMatch (allMatches : list Match) (m : Match) : list Match :=
  if existsb (fun m' => String.eqb (bankId m') (bankId m)) allMatches
  then allMatches else allMatches ++ [m].

Section Agent.
Variable generate : Generate.

Definition batchStep (proofs : list AuditItem) (st : Loop) (numbered : nat * list AuditItem) : Loop :=
  let '(batchNo, currentBatch) := numbered in
  let batchPool := currentBatch ++ proofs in
  match retryWithBackoff (fun n => generate n batchNo batchPool) 3 0 3 (calls st) with
  | (Some batchResult, calls') =>
      {| allMatches := foldl addMatch (allMatches st) (matched batchResult);
         unmatchedBankIds := unmatchedBankIds st;
         calls := calls' |}
  | (None, calls') =>
      {| allMatches := allMatches st;
         unmatchedBankIds := unmatchedBankIds st ++ (itemId <$> currentBatch);
         calls := calls' |}
  end.

Definition runReconciliationAgent (expenses : list AuditItem) : Reconciliation :=
  let anchors := filter (fun e => role e = "ANCHOR") expenses in
  let proofs := filter (fun e => role e = "PROOF") expenses in
  match anchors with
  | [] => {| matched := [];
             unmatchedReceipts := itemId <$> proofs;
             unmatchedBankTransactions := [] |}
  | _ =>
      let st :=
        foldl (batchStep proofs) {| allMatches := []; unmatchedBankIds := []; calls := 0 |}
              (imap (fun k b => (k, b)) (batches (length anchors) anchors)) in
      let matchedBankIds : gset string := list_to_set (bankId <$> allMatches st) in
      let matchedReceiptIds : gset string := list_to_set (receiptId <$> allMatches st) in
      {| matched := allMatches st;
         unmatchedReceipts :=
           itemId <$> filter (fun p => itemId p ∉ matchedReceiptIds) proofs;
         unmatchedBankTransactions :=
           (itemId <$> filter (fun a => itemId a ∉ matchedBankIds) anchors)
           ++ unmatchedBankIds st |}
  end.

End Agent.

End Server.

(** * Reference definitions and sample data

    The definitions the statements below compare the code with, and the
    concrete records used in examples. *)

Module ReconcilerSpec.
Import JS Currency Reconciler.

(** The score as the specification words it: the percentage of matched
    anchors among matched, mandatory and standard ones, rounded to the
    nearest integer (a tie goes up, as [Math.round] does), and 100 when
    there is nothing to count. *)
Definition roundedPercent (part whole : Z) : Z := (200 * part + whole) / (2 * whole).

Definition complianceScore (nMatched nMandatory nStandard : Z) : Z :=
  let denominator := nMatched + nMandatory + nStandard in
  if denominator =? 0 then 100 else roundedPercent nMatched denominator.

(** Sample records. *)
Definition expense (i m : string) (a : Q) (c d cat s : string) : Expense :=
  {| id := i; merchant := m; amount := a; currency := c; date := d;
     category := cat; source := s; bank := None |}.

Definition inrThousand : Expense :=
  expense "x" "Cafe" 1000 "INR" "2025-03-10" "Meals" "bank_statement".
Definition usd951 : Expense :=
  expense "y" "Cafe" 951 "USD" "2025-03-10" "Meals" "receipt".
Definition usd990 : Expense :=
  expense "v" "Cafe" 990 "USD" "2025-03-10" "Meals" "receipt".
Definition aed500 : Expense :=
  expense "z" "Cafe" 500 "AED" "2025-03-10" "Meals" "receipt".
Definition aed500_05 : Expense :=
  expense "w" "Cafe" (literal (50005 # 100)) "AED" "2025-03-11" "Meals" "bank_statement".

Definition flydubaiAnchor : Expense :=
  expense "a1" "FLYDUBAI" 500 "AED" "2025-03-10" "Transport" "bank_statement".
Definition flydubaiReceipt : Expense :=
  expense "p1" "FLYDUBAI DXB" 500 "AED" "2025-03-11" "Transport" "receipt".
Definition flydubaiEmail : Expense :=
  expense "p2" "FLYDUBAI DXB" 500 "AED" "2025-03-12" "Transport" "email".

Definition march2025 : Period := {| month := "March"; year := 2025 |}.

(** A ledger of 40 bank entries [a00] ... [a39] of 1000, 1001, ... rupees,
    with a receipt [r00] ... [r22] for each of the first 23. *)
Definition twoDigits (i : nat) : string :=
  String (ascii_of_nat (48 + i / 10)) (String (ascii_of_nat (48 + i mod 10)) "").

Definition ledgerEntry (i : nat) : Expense :=
  expense ("a" ++ twoDigits i) "Grocer" (inject_Z (1000 + Z.of_nat i)) "INR" "2025-03-10"
          "Meals" "bank_statement".

Definition ledgerReceipt (i : nat) : Expense :=
  expense ("r" ++ twoDigits i) "Grocer" (inject_Z (1000 + Z.of_nat i)) "INR" "2025-03-10"
          "Meals" "receipt".

Definition ledger : list Expense :=
  (ledgerEntry <$> seq 0 40) ++ (ledgerReceipt <$> seq 0 23).

(** The advisory matcher names the receipt [p1] as the bank side. *)
Definition proofAsBank : ReconciliationResult :=
  {| matched := [ {| receiptId := Some "p2"; bankId := Some "p1"; emailId := None;
                     proofLabel := Some "Receipt"; summary := Some "Same merchant" |} ] |}.

End ReconcilerSpec.

Module FirebaseSpec.
Import JS Firebase.

(** The inclusive day count between the start date and the end date (the
    start date again when there is no end date), in whole calendar days. *)
Definition inclusiveDayCount (start : string) (end_ : option string) : option Z :=
  match parse_iso_day start, parse_iso_day (or_else end_ start) with
  | Some s, Some e => Some (Z.abs (e - s) + 1)
  | _, _ => None
  end.

(** Sample records. *)
Definition travelLog (i country city start : string) (end_ : option string)
    (st : TravelLogStatus) (ty : TravelType) (hv : HotelVerification) : TravelLog :=
  {| id := i; destination_country := country; destination_city := city;
     start_date := start; end_date := end_; return_date := None;
     days_spent := Some 1; status := st; travel_type := ty;
     reference_number := None; hotel_verification_status := Some hv;
     linked_hotel_id := None; linked_flight_id := None; document_id := None;
     outbound_flight_id := None; return_flight_id := None;
     uploaded_at := None; updated_at := None |}.

Definition muscatStay : TravelLog :=
  travelLog "" "Oman" "Muscat" "2025-02-02" (Some "2025-02-05") Complete accommodation not_required.
Definition undatedStay : TravelLog :=
  travelLog "" "Oman" "Muscat" "" None Complete accommodation not_required.

Definition muscatFlightA : TravelLog :=
  travelLog "f1" "Oman" "Muscat" "2025-02-01" None OpenAwaitingReturn flight missing.
Definition muscatFlightB : TravelLog :=
  travelLog "f2" "Oman" "Muscat" "2025-02-02" None OpenAwaitingReturn flight missing.
Definition muscatHotel : TravelLog :=
  travelLog "h1" "Oman" "Muscat" "2025-02-02" (Some "2025-02-05") Complete accommodation not_required.

Definition muscatOutbound : TravelLog :=
  travelLog "o1" "Oman" "Muscat" "2025-01-05" None OpenAwaitingReturn flight missing.
Definition dubaiArrival : TravelLog :=
  travelLog "r1" "UAE" "Dubai" "2025-01-09" None Complete flight not_required.

(** What a list of writes does to one document. *)
Definition applyTo (ws : list Write) (l : TravelLog) : TravelLog :=
  foldl (fun l w => if String.eqb (id l) (target w) then merge (patch w) l else l) l ws.

(** The two halves of [hotelMatches]: city and date window, and the
    hotel being free for the flight. *)
Definition cityAndDate (f h : TravelLog) : bool :=
  (includes (toLowerCase (destination_city f)) (toLowerCase (destination_city h))
   || includes (toLowerCase (destination_city h)) (toLowerCase (destination_city f)))
  && match getTime (start_date f), getTime (start_date h) with
     | Some fDate, Some hDate =>
         Qle_bool (-1) (inject_Z (hDate - fDate) / inject_Z msPerDay)
         && Qle_bool (inject_Z (hDate - fDate) / inject_Z msPerDay) 2
     | _, _ => false
     end.

Definition freeFor (f h : TravelLog) : bool :=
  negb (truthy (linked_flight_id h)) || bool_decide (linked_flight_id h = Some (id f)).

(** The links a list of writes sets: (outbound id, arrival id) for each
    [return_flight_id], (arrival id, outbound id) for each
    [outbound_flight_id]. *)
Definition returnLinks (ws : list Write) : list (string * string) :=
  omap (fun w => (fun a => (target w, a)) <$> set_return_flight_id (patch w)) ws.

Definition outboundLinks (ws : list Write) : list (string * string) :=
  omap (fun w => (fun o => (target w, o)) <$> set_outbound_flight_id (patch w)) ws.

Definition dohaOutbound : TravelLog :=
  travelLog "o0" "Qatar" "Doha" "2024-12-20" None OpenAwaitingReturn flight missing.

(** Scenario B: the collection as read, with an older open outbound. *)
Definition scenarioB : Collection := [dubaiArrival; dohaOutbound; muscatOutbound].

(** Two working sets whose documents agree, position by position, on id
    and start date: what the bridging loop never changes. *)
Definition keyEq (ws ws0 : list TravelLog) : Prop :=
  Forall2 (fun l l0 => id l = id l0 /\ start_date l = start_date l0) ws ws0.

(** The writes for the arrival at position [p.1] bridged to the outbound
    at position [p.2]. *)
Definition pairWrites (now : string) (ws0 : list TravelLog) (p : nat * nat) : list Write :=
  match ws0 !! p.1, ws0 !! p.2 with
  | Some arrival, Some outbound => bridgeWrites now outbound arrival
  | _, _ => []
  end.

Definition idAt (ws0 : list TravelLog) (i : nat) : string :=
  match ws0 !! i with Some l => id l | None => "" end.

(** *** The bridging pass, as the specification words it *)

(** The calendar day a record starts on. *)
Definition startDay (l : TravelLog) : option Z := parse_iso_day (start_date l).



(** Chronological order of two positions of a collection: the record at
    [i] starts before the one at [j], or on the same day and [i] comes
    first in the collection. *)
Definition earlier (allLogs : list TravelLog) (i j : nat) : Prop :=
  exists li lj di dj,
    allLogs !! i = Some li /\ allLogs !! j = Some lj
    /\ startDay li = Some di /\ startDay lj = Some dj
    /\ (di < dj \/ (di = dj /\ (i < j)%nat)).






End FirebaseSpec.

Module ServerSpec.
Import Server.

Definition auditItem (i source role : string) : AuditItem :=
  {| item := ReconcilerSpec.expense i "Cafe" 10 "AED" "2025-03-10" "Meals" source; role := role |}.

(** A model that always fails: with no anchor it is never asked. *)
Definition failing : Generate := fun _ _ _ => OtherError.

End ServerSpec.

(** * Further parts of the code

    The rate cache of [currencyService.ts], [addExpenses] of
    [firebaseService.ts], the audit pool built by [App.tsx], the
    consolidation of flight legs in [geminiService.ts] and the live
    verification of [components/Dashboard.tsx]. *)

(** ** currencyService.ts: the cache of exchange rates *)

Module CurrencyCache.
Import Currency.

Definition CACHE_DURATION : Z := 24 * 60 * 60 * 1000.

(** [getExchangeRates()].  [cached] is the entry of [localStorage] under
    [CACHE_KEY], parsed; [now] is [Date.now()] at the freshness test and
    [fetchedAt] is [Date.now()] when the answer is stamped; [fetched] is
    what [fetch] and [response.json()] give, [None] standing for any
    failure (no network, a status that is not ok).  The result is the
    value returned and the entry of [localStorage] afterwards. *)
Definition getExchangeRates (cached : option ExchangeRates) (now fetchedAt : Z)
    (fetched : option (gmap string Q)) : option ExchangeRates * option ExchangeRates :=
  let fresh :=
    match cached with
    | Some parsed => now - timestamp parsed <? CACHE_DURATION
    | None => false
    end in
  if fresh then (cached, cached)
  else
    match fetched with
    | Some data_rates =>
        let ratesData := {| rates := data_rates; timestamp := fetchedAt |} in
        (Some ratesData, Some ratesData)
    | None => (cached, cached)
    end.

End CurrencyCache.

(** ** firebaseService.ts: [addExpenses] *)

Module Expenses.
Import JS Reconciler.

(** The [expenses] collection, in document-id order. *)
Definition Collection := list Expense.

Fixpoint insertDoc (d : Expense) (db : Collection) : Collection :=
  match db with
  | [] => [d]
  | e :: db' => if String.ltb (id d) (id e) then d :: db else e :: insertDoc d db'
  end.

Definition isDup (existing : list Expense) (exp : Expense) : bool :=
  existsb (fun e =>
    String.eqb (toLowerCase (merchant e)) (toLowerCase (merchant exp))
    && num_lt (Math_abs (fsub (Num (amount e)) (Num (amount exp)))) (dec (1 # 100))
    && String.eqb (date e) (date exp))
    existing.

Definition withId (i : string) (e : Expense) : Expense :=
  {| id := i; merchant := merchant e; amount := amount e; currency := currency e;
     date := date e; category := category e; source := source e; bank := bank e |}.

Section AddExpenses.
(** The id Firestore gives the next document added to the collection. *)
Variable freshId : Collection -> string.

(** One turn of [for (const exp of expenses)]; the state is the
    collection and [results]. *)
Definition addStep (existing : list Expense)
    (st : Collection * list Expense) (exp : Expense) : Collection * list Expense :=
  let '(db, results) := st in
  if negb (isDup existing exp) then
    let doc := withId (freshId db) exp in
    (insertDoc doc db, results ++ [doc])
  else st.

(** [addExpenses(expenses)]: the collection afterwards and the value
    returned. *)
Definition addExpenses (db : Collection) (expenses : list Expense) : Collection * list Expense :=
  let existing := db in
  foldl (addStep existing) (db, []) expenses.

End AddExpenses.

End Expenses.

(** ** App.tsx: [handleInitiateAudit] *)

Module App.
Import JS Reconciler.

Section HandleInitiateAudit.
Variable expenses : list Expense.
Variable selectedMonth : string.
Variable selectedYear : Z.
Variable auditBank : string.

Definition isBankAnchor (e : Expense) : bool :=
  let src := trim (toLowerCase (source e)) in
  String.eqb src "bank_statement" || String.eqb src "credit_card_statement".

(** 1. Anchors: bank and card records of the selected period.  The
    callback of [expenses.filter]: *)
Definition isAnchorInPeriod (e : Expense) : bool :=
  if negb (isBankAnchor e) || String.eqb (date e) "" then false else
  let parts := split "-" (date e) in
  if (length parts <? 2)%nat then false else
  let eYear := parseInt (nth 0 parts "") in
  let eMonthIndex := (fun m => m - 1) <$> parseInt (nth 1 parts "") in
  let periodMatch :=
    bool_decide (eYear = Some selectedYear)
    && (String.eqb selectedMonth "All Months"
        || match eMonthIndex with
           | Some i => if 0 <=? i then bool_decide (monthsList !! Z.to_nat i = Some selectedMonth)
                       else false
           | None => false
           end) in
  let bankMatch := String.eqb auditBank "All Accounts" || bool_decide (bank e = Some auditBank) in
  periodMatch && bankMatch.

Definition anchorsInPeriod : list Expense :=
  filter (fun e => isAnchorInPeriod e) expenses.

(** 2. Proof pool: everything else. *)
Definition allProofs : list Expense :=
  filter (fun e => negb (isBankAnchor e)) expenses.

(** 3. The pool sent to the agent; [None] when the handler returns
    before calling it (no anchor in the period). *)
Definition auditPool : option (list Server.AuditItem) :=
  match anchorsInPeriod with
  | [] => None
  | _ =>
      Some (((fun e => {| Server.item := e; Server.role := "ANCHOR" |}) <$> anchorsInPeriod)
            ++ ((fun e => {| Server.item := e; Server.role := "PROOF" |}) <$> allProofs))
  end.

End HandleInitiateAudit.

End App.

(** ** geminiService.ts: travel logs of one extracted document *)

Module Gemini.
Import JS.

(** An element of [travel_logs] as the extraction schema gives it. *)
Record RawTravelLog := {
  type : Firebase.TravelType;
  provider : string;
  dest_city : string;
  dest_country : string;
  date : string;
  end_date : option string;
  ref : option string;
  guest : option string
}.

(** [new Date(a) < new Date(b)]; false when either date is invalid. *)
Definition dateLt (a b : string) : bool :=
  match getTime a, getTime b with
  | Some ta, Some tb => ta <? tb
  | _, _ => false
  end.

Definition setDate (d : string) (l : RawTravelLog) : RawTravelLog :=
  {| type := type l; provider := provider l; dest_city := dest_city l;
     dest_country := dest_country l; date := d; end_date := end_date l;
     ref := ref l; guest := guest l |}.

Definition setEndDate (d : string) (l : RawTravelLog) : RawTravelLog :=
  {| type := type l; provider := provider l; dest_city := dest_city l;
     dest_country := dest_country l; date := date l; end_date := Some d;
     ref := ref l; guest := guest l |}.

Definition setDestCity (c : string) (l : RawTravelLog) : RawTravelLog :=
  {| type := type l; provider := provider l; dest_city := c;
     dest_country := dest_country l; date := date l; end_date := end_date l;
     ref := ref l; guest := guest l |}.

Definition setDestCountry (c : string) (l : RawTravelLog) : RawTravelLog :=
  {| type := type l; provider := provider l; dest_city := dest_city l;
     dest_country := c; date := date l; end_date := end_date l;
     ref := ref l; guest := guest l |}.

(** One turn of [flightLogsRaw.slice(1).forEach]: the leg [l] merged
    into [main]. *)
Definition mergeLeg (main l : RawTravelLog) : RawTravelLog :=
  let main1 := if dateLt (date l) (date main) then setDate (date l) main else main in
  let main2 :=
    if negb (truthy (end_date main1))
       || (truthy (end_date l) && dateLt (default "" (end_date main1)) (default "" (end_date l)))
    then setEndDate (or_else (end_date l) (date l)) main1 else main1 in
  let main3 :=
    if String.eqb (dest_city main2) "Dubai" || String.eqb (dest_city main2) ""
    then setDestCity (dest_city l) main2 else main2 in
  if String.eqb (dest_country main3) "UAE" || String.eqb (dest_country main3) ""
  then setDestCountry (dest_country l) main3 else main3.

Definition consolidatedFlights (rawLogs : list RawTravelLog) : list RawTravelLog :=
  match filter (fun l => type l = Firebase.flight) rawLogs with
  | [] => []
  | first :: rest => [foldl mergeLeg first rest]
  end.

(** The record built from a raw log; the id is a text made of the clock
    and two indices, here a parameter. *)
Definition toTravelLog (i docId : string) (log : RawTravelLog) : Firebase.TravelLog :=
  {| Firebase.id := i;
     Firebase.destination_country := dest_country log;
     Firebase.destination_city := dest_city log;
     Firebase.start_date := date log;
     Firebase.end_date := Some (or_else (end_date log) (date log));
     Firebase.return_date := if truthy (end_date log) then end_date log else None;
     Firebase.days_spent := Some 0;
     Firebase.status := Firebase.Complete;
     Firebase.travel_type := type log;
     Firebase.reference_number := Some (or_else (ref log) "");
     Firebase.hotel_verification_status := None;
     Firebase.linked_hotel_id := None;
     Firebase.linked_flight_id := None;
     Firebase.document_id := Some docId;
     Firebase.outbound_flight_id := None;
     Firebase.return_flight_id := None;
     Firebase.uploaded_at := None;
     Firebase.updated_at := None |}.

(** The [travelLogs] of one batch item. *)
Definition travelLogs (ids : nat -> string) (docId : string) (rawLogs : list RawTravelLog)
  : list Firebase.TravelLog :=
  let hotelLogsRaw := filter (fun l => type l = Firebase.accommodation) rawLogs in
  imap (fun index log => toTravelLog (ids index) docId log)
       (consolidatedFlights rawLogs ++ hotelLogsRaw).

End Gemini.

(** ** components/Dashboard.tsx: the [verifiedIds] memo *)

Module Dashboard.
Import JS Currency Reconciler.

Definition isAnchor (exp : Expense) : bool :=
  let src := trim (toLowerCase (source exp)) in
  String.eqb src "bank_statement" || String.eqb src "credit_card_statement".

Section VerifiedIds.
Variable expenses : list Expense.
Variable exchangeData : option ExchangeRates.

(** The predicate of [proofs.find] for the anchor [bankTx]. *)
Definition proofMatches (rates : gmap string Q) (bankTx rec : Expense) : bool :=
  let bINR := convertToINR (amount bankTx) (currency bankTx) rates in
  let rINR := convertToINR (amount rec) (currency rec) rates in
  let tooFar :=
    match diffDays (date bankTx) (date rec) with
    | Some d => Qlt_bool 3 d
    | None => false
    end in
  if tooFar then false else
  let bMerc := toLowerCase (merchant bankTx) in
  let rMerc := toLowerCase (merchant rec) in
  let mercMatch :=
    (isTele bMerc && isTele rMerc)
    || includes rMerc (substring0 4 bMerc) || includes bMerc (substring0 4 rMerc) in
  if negb mercMatch then false else
  let sameCurrency := String.eqb (currency bankTx) (currency rec) in
  if sameCurrency
  then num_lt (Math_abs (fsub (Num (amount bankTx)) (Num (amount rec)))) (dec (10 # 100))
  else num_lt (Math_abs (fsub bINR rINR)) (fmul bINR (dec (5 # 100))).

Definition verifyStep (rates : gmap string Q) (proofs : list Expense)
    (ids : gset string) (bankTx : Expense) : gset string :=
  match find (proofMatches rates bankTx) proofs with
  | Some match_ => {[ id match_ ]} ∪ ({[ id bankTx ]} ∪ ids)
  | None => ids
  end.

Definition verifiedIds : gset string :=
  match exchangeData with
  | None => ∅
  | Some data =>
      let anchors := filter (fun e => isAnchor e) expenses in
      let proofs := filter (fun e => negb (isAnchor e)) expenses in
      foldl (verifyStep (Currency.rates data) proofs) ∅ anchors
  end.

End VerifiedIds.

End Dashboard.

(** ** Further sample data *)

Module Samples.
Import Reconciler ReconcilerSpec.

(** The advisory matcher pairs the anchor [a1] with the receipt [p1]. *)
Definition anchorWithProof : ReconciliationResult :=
  {| matched := [ {| receiptId := Some "p1"; bankId := Some "a1"; emailId := None;
                     proofLabel := Some "Receipt"; summary := Some "Same merchant" |} ] |}.

(** The pair the advisory validation makes of it. *)
Definition anchorProofPair : Pair :=
  {| pair_bank := flydubaiAnchor; pair_receipt := flydubaiReceipt;
     pair_label := Some "Receipt"; pair_summary := Some "Same merchant" |}.

(** The pair the fallback makes of the same two records. *)
Definition autoPair : Pair :=
  {| pair_bank := flydubaiAnchor; pair_receipt := flydubaiReceipt;
     pair_label := Some "AUTO-VERIFIED (Forensic Match)";
     pair_summary := Some "Verified via ±3 day clearance window heuristic match." |}.

(** A model that proposes the same match for every batch. *)
Definition proposing : Server.Generate :=
  fun _ _ _ =>
    Server.Answer
      {| Server.matched := [ {| Server.bankId := "a1"; Server.receiptId := "p1";
                                Server.proofLabel := "Receipt";
                                Server.summary := "Same merchant" |} ];
         Server.unmatchedReceipts := [];
         Server.unmatchedBankTransactions := [] |}.

(** Document ids as Firestore could give them: [doc1] for an empty
    collection, [doc2] after. *)
Definition nextId (db : Firebase.Collection) : string :=
  match db with [] => "doc1" | _ => "doc2" end.

(** A receipt as it is submitted, before Firestore gives it an id. *)
Definition cafePayment : Expense :=
  expense "" "Cafe" 10 "AED" "2025-03-10" "Meals" "receipt".

(** The two legs of a ticket Dubai, Muscat, Dubai as the extraction
    gives them. *)
Definition returnLeg : Gemini.RawTravelLog :=
  {| Gemini.type := Firebase.flight; Gemini.provider := "flydubai";
     Gemini.dest_city := "Dubai"; Gemini.dest_country := "UAE";
     Gemini.date := "2025-01-09"; Gemini.end_date := None;
     Gemini.ref := Some "ABC123"; Gemini.guest := None |}.

Definition outboundLeg : Gemini.RawTravelLog :=
  {| Gemini.type := Firebase.flight; Gemini.provider := "flydubai";
     Gemini.dest_city := "Muscat"; Gemini.dest_country := "Oman";
     Gemini.date := "2025-01-05"; Gemini.end_date := None;
     Gemini.ref := Some "ABC123"; Gemini.guest := None |}.

(** Exchange rates with one entry: a rupee is a twentieth of a dirham. *)
Definition rates20 : Currency.ExchangeRates :=
  {| Currency.rates := {[ "AED" := JS.literal (1 # 20) ]}; Currency.timestamp := 0 |}.

End Samples.

(** * List facts shared by the proofs *)

Module ListFacts.

Lemma NoDup_fmap_eq {X Y} (f : X -> Y) (l : list X) x y :
  NoDup (f <$> l) -> x ∈ l -> y ∈ l -> f x = f y -> x = y.
Proof.
  induction l as [|z l IH]; cbn; [intros _ H; inversion H|].
  rewrite NoDup_cons, !elem_of_cons. intros [Hz Hl] [->|Hx] [->|Hy] E; auto.
  - exfalso. apply Hz. rewrite E. apply list_elem_of_fmap_2. exact Hy.
  - exfalso. apply Hz. rewrite <- E. apply list_elem_of_fmap_2. exact Hx.
Qed.

Lemma find_none_all {X} (P : X -> bool) (l : list X) :
  (forall x, x ∈ l -> P x = false) -> find P l = None.
Proof.
  induction l as [|y l IH]; intros H; [reflexivity|]. cbn.
  rewrite (H y) by left. apply IH. intros x Hx. apply H. right. exact Hx.
Qed.

Lemma bind_nil_all {X Y} (f : X -> list Y) (l : list X) :
  (forall x, x ∈ l -> f x = []) -> l ≫= f = [].
Proof.
  induction l as [|y l IH]; intros H; [reflexivity|]. cbn.
  rewrite (H y) by left. apply IH. intros x Hx. apply H. right. exact Hx.
Qed.

End ListFacts.

(** * Binary64 arithmetic

    Facts about [JS.rnd]: it is odd and monotone, and in the normal range
    it is within a relative error of 2^-53. *)

Module NumberFacts.
Import JS.

Lemma pow2_pos (e : Z) : (0 < pow2 e)%Q.
Proof. apply Qpower_0_lt. reflexivity. Qed.

Lemma pow2_add (a b : Z) : (pow2 (a + b) == pow2 a * pow2 b)%Q.
Proof. apply Qpower_plus. discriminate. Qed.

Lemma pow2_le (a b : Z) : a <= b -> (pow2 a <= pow2 b)%Q.
Proof. intros H. apply Qpower_le_compat_l; [exact H | discriminate]. Qed.

Lemma pow2_lt (a b : Z) : a < b -> (pow2 a < pow2 b)%Q.
Proof. intros H. apply Qpower_lt_compat_l; [exact H | reflexivity]. Qed.

Lemma pow2_Z (n : Z) : 0 <= n -> (pow2 n == inject_Z (2 ^ n))%Q.
Proof. intros H. unfold pow2. rewrite Zpower_Qpower by exact H. reflexivity. Qed.

Lemma pow2_succ (a : Z) : (pow2 (a + 1) == 2 * pow2 a)%Q.
Proof. rewrite pow2_add. change (pow2 1) with 2%Q. ring. Qed.

Lemma pow2_lt_inv (a b : Z) : (pow2 a < pow2 b)%Q -> a < b.
Proof.
  intros H. destruct (Z.lt_ge_cases a b) as [|Hge]; [assumption|].
  apply pow2_le in Hge. lra.
Qed.

Lemma ilog2_spec (a : Q) : (0 < a)%Q -> (pow2 (ilog2 a) <= a /\ a < pow2 (ilog2 a + 1))%Q.
Proof.
  intros Ha. destruct a as [n d]. unfold ilog2. cbn [Qnum Qden].
  assert (Hn : 0 < n) by (unfold Qlt in Ha; cbn in Ha; lia).
  set (x := Z.log2 n). set (y := Z.log2 (Z.pos d)).
  destruct (Z.log2_spec n Hn) as [Hn1 Hn2]. fold x in Hn1, Hn2.
  destruct (Z.log2_spec (Z.pos d) eq_refl) as [Hd1 Hd2]. fold y in Hd1, Hd2.
  assert (Hx : 0 <= x) by apply Z.log2_nonneg.
  assert (Hy : 0 <= y) by apply Z.log2_nonneg.
  assert (E : (n # d == inject_Z n / inject_Z (Z.pos d))%Q) by apply Qmake_Qdiv.
  assert (Hdq : (0 < inject_Z (Z.pos d))%Q) by reflexivity.
  assert (Hlow : (pow2 (x - y - 1) <= n # d)%Q).
  { rewrite E. apply Qle_shift_div_l; [exact Hdq|].
    apply Qle_trans with (pow2 (x - y - 1) * pow2 (y + 1))%Q.
    - apply Qmult_le_l; [apply pow2_pos|]. rewrite pow2_Z by lia. rewrite <- Zle_Qle. lia.
    - rewrite <- pow2_add. replace (x - y - 1 + (y + 1)) with x by lia.
      rewrite pow2_Z by lia. rewrite <- Zle_Qle. exact Hn1. }
  assert (Hup : (n # d < pow2 (x - y + 1))%Q).
  { rewrite E. apply Qlt_shift_div_r; [exact Hdq|].
    apply Qlt_le_trans with (pow2 (x + 1)).
    - rewrite pow2_Z by lia. rewrite <- Zlt_Qlt. replace (x + 1) with (Z.succ x) by lia. exact Hn2.
    - replace (x + 1) with (x - y + 1 + y) by lia. rewrite pow2_add.
      apply Qmult_le_l; [apply pow2_pos|]. rewrite pow2_Z by lia. rewrite <- Zle_Qle. exact Hd1. }
  destruct (Qle_bool (pow2 (x - y)) (n # d)) eqn:Ek.
  - apply Qle_bool_iff in Ek. split; assumption.
  - split; [exact Hlow|]. replace (x - y - 1 + 1) with (x - y) by lia.
    apply Qnot_le_lt. intros H. apply Qle_bool_iff in H. congruence.
Qed.

Lemma ilog2_unique (a : Q) (k : Z) : (pow2 k <= a)%Q -> (a < pow2 (k + 1))%Q -> ilog2 a = k.
Proof.
  intros H1 H2.
  assert (Ha : (0 < a)%Q) by (pose proof (pow2_pos k); lra).
  destruct (ilog2_spec a Ha) as [H3 H4].
  assert (ilog2 a < k + 1) by (apply pow2_lt_inv; lra).
  assert (k < ilog2 a + 1) by (apply pow2_lt_inv; lra).
  lia.
Qed.

Lemma ilog2_compat (a b : Q) : (0 < a)%Q -> (a == b)%Q -> ilog2 a = ilog2 b.
Proof.
  intros Ha E. destruct (ilog2_spec a Ha) as [H1 H2].
  symmetry. apply ilog2_unique; rewrite <- E; assumption.
Qed.

Lemma ilog2_mono (a b : Q) : (0 < a)%Q -> (a <= b)%Q -> ilog2 a <= ilog2 b.
Proof.
  intros Ha Hab. destruct (ilog2_spec a Ha) as [H1 _].
  destruct (ilog2_spec b ltac:(lra)) as [_ H2].
  assert (ilog2 a < ilog2 b + 1) by (apply pow2_lt_inv; lra). lia.
Qed.

(** ** Rounding to the nearest integer, ties to even *)

Lemma roundEven_cases (x : Q) :
  ((x - inject_Z (Qfloor x) < 1 # 2)%Q /\ roundEven x = Qfloor x)
  \/ ((1 # 2 < x - inject_Z (Qfloor x))%Q /\ roundEven x = Qfloor x + 1)
  \/ ((x - inject_Z (Qfloor x) == 1 # 2)%Q
      /\ (roundEven x = Qfloor x \/ roundEven x = Qfloor x + 1)).
Proof.
  unfold roundEven.
  destruct (x - inject_Z (Qfloor x) ?= 1 # 2)%Q eqn:E.
  - apply Qeq_alt in E. right. right. split; [exact E|]. destruct (Z.even (Qfloor x)); auto.
  - apply Qlt_alt in E. left. auto.
  - apply Qgt_alt in E. right. left. auto.
Qed.

Lemma roundEven_floor (x : Q) : Qfloor x <= roundEven x <= Qfloor x + 1.
Proof. destruct (roundEven_cases x) as [[_ ->]|[[_ ->]|[_ [-> | ->]]]]; lia. Qed.

Lemma roundEven_near (x : Q) : (x - (1 # 2) <= inject_Z (roundEven x) <= x + (1 # 2))%Q.
Proof.
  pose proof (Qfloor_le x) as H1. pose proof (Qlt_floor x) as H2.
  rewrite inject_Z_plus in H2.
  destruct (roundEven_cases x) as [[H ->]|[[H ->]|[H [-> | ->]]]];
    rewrite ?inject_Z_plus; change (inject_Z 1) with 1%Q in *; split; lra.
Qed.

Lemma roundEven_compat (x y : Q) : (x == y)%Q -> roundEven x = roundEven y.
Proof.
  intros E. unfold roundEven. rewrite (Qfloor_comp _ _ E).
  assert (E' : (x - inject_Z (Qfloor y) == y - inject_Z (Qfloor y))%Q) by (rewrite E; reflexivity).
  rewrite (Qcompare_comp _ _ E' _ _ (Qeq_refl (1 # 2))). reflexivity.
Qed.

Lemma roundEven_Z (z : Z) : roundEven (inject_Z z) = z.
Proof.
  destruct (roundEven_cases (inject_Z z)) as [[H E]|[[H E]|[H E]]];
    rewrite Qfloor_Z in *; [exact E| |]; exfalso; lra.
Qed.

Lemma roundEven_mono (x y : Q) : (x <= y)%Q -> roundEven x <= roundEven y.
Proof.
  intros Hxy. pose proof (Qfloor_resp_le _ _ Hxy) as Hf.
  pose proof (roundEven_floor x) as Hx. pose proof (roundEven_floor y) as Hy.
  destruct (Z.eq_dec (Qfloor x) (Qfloor y)) as [E|NE]; [|lia].
  destruct (roundEven_cases x) as [[H1 E1]|[[H1 E1]|[H1 E1]]];
    destruct (roundEven_cases y) as [[H2 E2]|[[H2 E2]|[H2 E2]]];
    rewrite E in *; try lia; try (exfalso; lra).
  rewrite (roundEven_compat x y); [lia|]. lra.
Qed.

(** ** The nearest binary64 magnitude *)

Lemma ulpExp_compat (a b : Q) : (0 < a)%Q -> (a == b)%Q -> ulpExp a = ulpExp b.
Proof. intros Ha E. unfold ulpExp. rewrite (ilog2_compat a b Ha E). reflexivity. Qed.

Lemma mag_compat (a b : Q) : (0 < a)%Q -> (a == b)%Q -> mag a = mag b.
Proof.
  intros Ha E. unfold mag. rewrite (ulpExp_compat a b Ha E).
  rewrite (roundEven_compat (a / pow2 (ulpExp b)) (b / pow2 (ulpExp b))); [reflexivity|].
  rewrite E. reflexivity.
Qed.

Lemma nearest_compat (a b : Q) : (0 < a)%Q -> (a == b)%Q -> nearest a = nearest b.
Proof. intros Ha E. unfold nearest. rewrite (mag_compat a b Ha E). reflexivity. Qed.

Lemma mag_nonneg (a : Q) : (0 < a)%Q -> (0 <= mag a)%Q.
Proof.
  intros Ha. unfold mag. apply Qmult_le_0_compat; [|apply Qlt_le_weak, pow2_pos].
  change 0%Q with (inject_Z 0). rewrite <- Zle_Qle.
  pose proof (roundEven_floor (a / pow2 (ulpExp a))) as [H _].
  apply Z.le_trans with (Qfloor (a / pow2 (ulpExp a))); [|exact H].
  change 0 with (Qfloor 0). apply Qfloor_resp_le.
  apply Qle_shift_div_l; [apply pow2_pos|]. lra.
Qed.

Lemma scaled_mono (a b : Q) (e : Z) :
  (a <= b)%Q -> (inject_Z (roundEven (a / pow2 e)) * pow2 e <= inject_Z (roundEven (b / pow2 e)) * pow2 e)%Q.
Proof.
  intros H. apply Qmult_le_compat_r; [|apply Qlt_le_weak, pow2_pos].
  rewrite <- Zle_Qle. apply roundEven_mono.
  apply Qmult_le_compat_r; [exact H|]. apply Qlt_le_weak, Qinv_lt_0_compat, pow2_pos.
Qed.

Lemma mag_mono (a b : Q) : (0 < a)%Q -> (a <= b)%Q -> (mag a <= mag b)%Q.
Proof.
  intros Ha Hab.
  assert (Hb : (0 < b)%Q) by lra.
  pose proof (ilog2_mono a b Ha Hab) as HL.
  destruct (ilog2_spec a Ha) as [_ Ha2]. destruct (ilog2_spec b Hb) as [Hb1 _].
  unfold mag.
  destruct (Z.eq_dec (ulpExp a) (ulpExp b)) as [E|NE].
  { rewrite E. apply scaled_mono. exact Hab. }
  assert (Hlt : ulpExp a + 1 <= ulpExp b) by (unfold ulpExp in *; lia).
  assert (Eb : ulpExp b = ilog2 b - 52) by (unfold ulpExp in *; lia).
  assert (Hea : ilog2 a + 1 <= ulpExp a + 53) by (unfold ulpExp; lia).
  set (ea := ulpExp a) in *. set (eb := ulpExp b) in *.
  apply Qle_trans with (pow2 (ea + 53)).
  - rewrite pow2_add, Qmult_comm.
    apply Qmult_le_l; [apply pow2_pos|].
    rewrite (pow2_Z 53) by lia. rewrite <- Zle_Qle.
    rewrite <- (roundEven_Z (2 ^ 53)). apply roundEven_mono.
    apply Qle_shift_div_r; [apply pow2_pos|].
    rewrite <- (pow2_Z 53) by lia. rewrite <- pow2_add.
    apply Qle_trans with (pow2 (ilog2 a + 1)); [lra|]. apply pow2_le. lia.
  - apply Qle_trans with (pow2 (eb + 52)); [apply pow2_le; lia|].
    rewrite pow2_add, Qmult_comm.
    apply Qmult_le_compat_r; [|apply Qlt_le_weak, pow2_pos].
    rewrite (pow2_Z 52) by lia. rewrite <- Zle_Qle.
    rewrite <- (roundEven_Z (2 ^ 52)) at 1. apply roundEven_mono.
    apply Qle_shift_div_l; [apply pow2_pos|].
    rewrite <- (pow2_Z 52) by lia. rewrite <- pow2_add.
    replace (52 + eb) with (ilog2 b) by lia. exact Hb1.
Qed.

(** In the normal range the nearest binary64 value is within half a unit
    in the last place: a relative error of at most 2^-53. *)
Lemma mag_error (a : Q) :
  (pow2 (-1022) <= a)%Q -> (Qabs (mag a - a) <= a * pow2 (-53))%Q.
Proof.
  intros Hnorm.
  assert (Ha : (0 < a)%Q) by (pose proof (pow2_pos (-1022)); lra).
  destruct (ilog2_spec a Ha) as [H1 H2].
  assert (HL : -1022 <= ilog2 a).
  { assert (-1022 < ilog2 a + 1) by (apply pow2_lt_inv; lra). lia. }
  assert (E : ulpExp a = ilog2 a - 52) by (unfold ulpExp; lia).
  unfold mag. rewrite E. set (e := ilog2 a - 52).
  pose proof (pow2_pos e) as He.
  pose proof (roundEven_near (a / pow2 e)) as [N1 N2].
  set (m := inject_Z (roundEven (a / pow2 e))) in *.
  assert (Ea : (a == a / pow2 e * pow2 e)%Q) by (field; lra).
  set (t := (a / pow2 e)%Q) in *.
  assert (Hhalf : (pow2 e * (1 # 2) <= a * pow2 (-53))%Q).
  { apply Qle_trans with (pow2 (ilog2 a) * pow2 (-53))%Q.
    - rewrite <- pow2_add. replace (ilog2 a + -53) with (e + -1) by (unfold e; lia).
      rewrite pow2_add. change (pow2 (-1)) with (1 # 2)%Q. lra.
    - apply Qmult_le_compat_r; [exact H1|]. apply Qlt_le_weak, pow2_pos. }
  assert (H0 : (0 <= (m - (t - (1 # 2))) * pow2 e)%Q)
    by (apply Qmult_le_0_compat; lra).
  assert (H3 : (0 <= (t + (1 # 2) - m) * pow2 e)%Q)
    by (apply Qmult_le_0_compat; lra).
  apply Qabs_Qle_condition. split; lra.
Qed.

(** ** Rounding a rational to binary64 *)

Lemma rnd_zero (q : Q) : (q == 0)%Q -> rnd q = Num 0.
Proof.
  intros E. unfold rnd.
  destruct (q ?= 0)%Q eqn:C; [reflexivity | apply Qlt_alt in C; lra | apply Qgt_alt in C; lra].
Qed.

Lemma rnd_pos (q : Q) :
  (0 < q)%Q -> rnd q = match nearest q with Some v => Num v | None => Infinity false end.
Proof.
  intros H. unfold rnd.
  destruct (q ?= 0)%Q eqn:C; [apply Qeq_alt in C; lra | apply Qlt_alt in C; lra | reflexivity].
Qed.

Lemma rnd_neg (q : Q) :
  (q < 0)%Q -> rnd q = match nearest (- q) with Some v => Num (- v) | None => Infinity true end.
Proof.
  intros H. unfold rnd.
  destruct (q ?= 0)%Q eqn:C; [apply Qeq_alt in C; lra | reflexivity | apply Qgt_alt in C; lra].
Qed.

Lemma rnd_compat (q q' : Q) : (q == q')%Q -> rnd q = rnd q'.
Proof.
  intros E. destruct (Q_dec q 0) as [[H|H]|H].
  - rewrite (rnd_neg q H), (rnd_neg q') by (rewrite <- E; exact H).
    rewrite (nearest_compat (- q) (- q')); [reflexivity|lra|rewrite E; reflexivity].
  - rewrite (rnd_pos q H), (rnd_pos q') by (rewrite <- E; exact H).
    rewrite (nearest_compat q q'); [reflexivity|lra|exact E].
  - rewrite (rnd_zero q H), (rnd_zero q') by (rewrite <- E; exact H). reflexivity.
Qed.

Lemma Qopp_opp (q : Q) : (- - q)%Q = q.
Proof. destruct q as [n d]. unfold Qopp. cbn. rewrite Z.opp_involutive. reflexivity. Qed.

Lemma rnd_opp (q : Q) : rnd (- q) = neg (rnd q).
Proof.
  destruct (Q_dec q 0) as [[H|H]|H].
  - rewrite (rnd_neg q H), (rnd_pos (- q)) by lra.
    destruct (nearest (- q)); cbn; [rewrite Qopp_opp|]; reflexivity.
  - rewrite (rnd_pos q H), (rnd_neg (- q)) by lra.
    rewrite (nearest_compat (- - q) q) by (try lra; ring).
    destruct (nearest q); reflexivity.
  - rewrite (rnd_zero q H), (rnd_zero (- q)) by lra. reflexivity.
Qed.

Lemma nearest_Some (a v : Q) : nearest a = Some v -> (v == mag a /\ mag a < pow2 1024)%Q.
Proof.
  unfold nearest. destruct (Qle_bool (pow2 1024) (mag a)) eqn:E; [discriminate|].
  intros Hs. assert (Hv : v = Qred (mag a)) by congruence.
  split; [rewrite Hv; apply Qred_correct|].
  apply Qnot_le_lt. intros H. apply Qle_bool_iff in H. congruence.
Qed.

Lemma nearest_None (a : Q) : nearest a = None -> (pow2 1024 <= mag a)%Q.
Proof.
  unfold nearest. destruct (Qle_bool (pow2 1024) (mag a)) eqn:E; [|discriminate].
  intros _. apply Qle_bool_iff. exact E.
Qed.

Lemma nearest_mono (a b : Q) :
  (0 < a)%Q -> (a <= b)%Q ->
  match nearest a, nearest b with
  | Some v, Some w => (v <= w)%Q
  | None, Some _ => False
  | _, None => True
  end.
Proof.
  intros Ha Hab. pose proof (mag_mono a b Ha Hab) as Hm.
  destruct (nearest a) as [v|] eqn:Ea, (nearest b) as [w|] eqn:Eb; [| exact I | | exact I].
  - apply nearest_Some in Ea as [-> _]. apply nearest_Some in Eb as [-> _]. exact Hm.
  - apply nearest_None in Ea. apply nearest_Some in Eb as [_ Hb]. lra.
Qed.

Lemma nearest_nonneg (a v : Q) : (0 < a)%Q -> nearest a = Some v -> (0 <= v)%Q.
Proof. intros Ha Hv. apply nearest_Some in Hv as [-> _]. apply mag_nonneg. exact Ha. Qed.

Lemma rnd_mono (x y : Q) : (x <= y)%Q -> num_le (rnd x) (rnd y) = true.
Proof.
  intros Hxy.
  destruct (Q_dec x 0) as [[Hx|Hx]|Hx]; destruct (Q_dec y 0) as [[Hy|Hy]|Hy];
    try (exfalso; lra).
  - rewrite (rnd_neg x Hx), (rnd_neg y Hy).
    pose proof (nearest_mono (- y) (- x) ltac:(lra) ltac:(lra)) as H.
    destruct (nearest (- y)) as [w|], (nearest (- x)) as [v|]; cbn; try reflexivity;
      [|contradiction].
    apply Qle_bool_iff. lra.
  - rewrite (rnd_neg x Hx), (rnd_pos y Hy).
    destruct (nearest (- x)) as [v|] eqn:Ev, (nearest y) as [w|] eqn:Ew; cbn; try reflexivity.
    apply Qle_bool_iff.
    apply nearest_nonneg in Ev; [|lra]. apply nearest_nonneg in Ew; [|lra]. lra.
  - rewrite (rnd_neg x Hx), (rnd_zero y Hy).
    destruct (nearest (- x)) as [v|] eqn:Ev; cbn; try reflexivity.
    apply Qle_bool_iff. apply nearest_nonneg in Ev; lra.
  - rewrite (rnd_pos x Hx), (rnd_pos y Hy).
    pose proof (nearest_mono x y Hx Hxy) as H.
    destruct (nearest x) as [v|], (nearest y) as [w|]; cbn; try reflexivity;
      [|contradiction].
    apply Qle_bool_iff. exact H.
  - rewrite (rnd_zero x Hx), (rnd_pos y Hy).
    destruct (nearest y) as [w|] eqn:Ew; cbn; try reflexivity.
    apply Qle_bool_iff. apply nearest_nonneg in Ew; lra.
  - rewrite (rnd_zero x Hx), (rnd_zero y Hy). reflexivity.
Qed.

Lemma rnd_normal (q : Q) :
  (pow2 (-1022) <= q)%Q -> (q <= pow2 1023)%Q ->
  exists v, rnd q = Num v /\ (Qabs (v - q) <= q * pow2 (-53))%Q.
Proof.
  intros Hlo Hhi.
  assert (Hq : (0 < q)%Q) by (pose proof (pow2_pos (-1022)); lra).
  pose proof (mag_error q Hlo) as Herr.
  rewrite (rnd_pos q Hq). unfold nearest.
  assert (Hfin : (mag q < pow2 1024)%Q).
  { apply Qabs_Qle_condition in Herr as [_ Herr].
    assert (H53 : (pow2 (-53) < 1)%Q) by (apply (pow2_lt (-53) 0); lia).
    assert (Hq53 : (0 < q * (1 - pow2 (-53)))%Q) by (apply Qmult_lt_0_compat; lra).
    assert (E : (pow2 1024 == 2 * pow2 1023)%Q) by (apply (pow2_succ 1023)).
    lra. }
  destruct (Qle_bool (pow2 1024) (mag q)) eqn:E.
  { apply Qle_bool_iff in E. lra. }
  exists (Qred (mag q)). split; [reflexivity|]. rewrite Qred_correct. exact Herr.
Qed.

(** ** The order on numbers *)

Lemma num_lt_le_trans (x y z : number) :
  num_lt x y = true -> num_le y z = true -> num_lt x z = true.
Proof.
  unfold num_lt, num_le, Qlt_bool.
  destruct x as [|s|a], y as [|t|b], z as [|u|c]; cbn; try discriminate; try reflexivity;
    try (destruct s, t; discriminate); try (destruct s, t, u; cbn; congruence);
    try (destruct t; discriminate); try (destruct t, u; cbn; congruence);
    try (destruct s, u; cbn; congruence); try (destruct u; cbn; congruence).
  - destruct s; cbn; congruence.
  - rewrite !negb_true_iff. intros H1 H2. apply Qle_bool_iff in H2.
    destruct (Qle_bool c a) eqn:E; [|reflexivity].
    apply Qle_bool_iff in E.
    assert (H : Qle_bool b a = true) by (apply Qle_bool_iff; lra). congruence.
Qed.

Lemma Math_abs_neg (x : number) : Math_abs (neg x) = Math_abs x.
Proof.
  destruct x as [|s|[n d]]; try reflexivity.
  cbn. unfold Qabs, Qopp. cbn. rewrite Z.abs_opp. reflexivity.
Qed.

Lemma fsub_Num (a b : Q) : fsub (Num a) (Num b) = rnd (a - b).
Proof. reflexivity. Qed.

(** [|x - y|] and [|y - x|] are the same number. *)
Lemma abs_fsub_sym (x y : number) : Math_abs (fsub x y) = Math_abs (fsub y x).
Proof.
  destruct x as [|s|a], y as [|t|b]; try reflexivity.
  - destruct s, t; reflexivity.
  - rewrite !fsub_Num. rewrite (rnd_compat (b - a) (- (a - b))) by ring.
    rewrite rnd_opp. symmetry. apply Math_abs_neg.
Qed.

Lemma fsub_self (a : Q) : fsub (Num a) (Num a) = Num 0.
Proof. rewrite fsub_Num. apply rnd_zero. ring. Qed.

(** ** The percentage of the score *)

Lemma percent_value (m d : Z) :
  0 < m <= d -> d < 2 ^ 32 ->
  exists v, fmul (fdiv (Num (inject_Z m)) (Num (inject_Z d))) (Num 100) = Num v
            /\ (Qabs (v - 100 * (inject_Z m / inject_Z d)) <= pow2 (-44))%Q.
Proof.
  intros [Hm Hmd] Hd.
  assert (HM : (1 <= inject_Z m)%Q) by (change 1%Q with (inject_Z 1); rewrite <- Zle_Qle; lia).
  assert (HD : (inject_Z m <= inject_Z d)%Q) by (rewrite <- Zle_Qle; lia).
  assert (HD2 : (inject_Z d <= 4294967296)%Q)
    by (change 4294967296%Q with (inject_Z (2 ^ 32)); rewrite <- Zle_Qle; lia).
  set (M := inject_Z m) in *. set (D := inject_Z d) in *.
  set (x := (M / D)%Q).
  assert (Hx1 : (x <= 1)%Q) by (apply Qle_shift_div_r; lra).
  assert (Hx0 : (1 # 4294967296 <= x)%Q) by (apply Qle_shift_div_l; lra).
  assert (P32 : (pow2 (-1022) <= 1 # 4294967296)%Q) by (apply (pow2_le (-1022) (-32)); lia).
  assert (P8 : (256 <= pow2 1023)%Q) by (apply (pow2_le 8 1023); lia).
  destruct (rnd_normal x ltac:(lra) ltac:(lra)) as (v1 & E1 & B1).
  change (pow2 (-53)) with (1 # 9007199254740992)%Q in B1.
  apply Qabs_Qle_condition in B1 as [B1a B1b].
  destruct (rnd_normal (v1 * 100) ltac:(lra) ltac:(lra)) as (v & E2 & B2).
  change (pow2 (-53)) with (1 # 9007199254740992)%Q in B2.
  apply Qabs_Qle_condition in B2 as [B2a B2b].
  exists v. split.
  - unfold fdiv, fmul. fold M D.
    destruct (Qeq_bool D 0) eqn:Ez; [apply Qeq_bool_eq in Ez; lra|].
    fold x. rewrite E1. exact E2.
  - fold x. change (pow2 (-44)) with (1 # 17592186044416)%Q.
    apply Qabs_Qle_condition. split; lra.
Qed.

Lemma percent_zero (d : Z) :
  0 < d -> fmul (fdiv (Num (inject_Z 0)) (Num (inject_Z d))) (Num 100) = Num 0.
Proof.
  intros Hd. unfold fdiv.
  assert (HD : (0 < inject_Z d)%Q) by (change 0%Q with (inject_Z 0); rewrite <- Zlt_Qlt; lia).
  destruct (Qeq_bool (inject_Z d) 0) eqn:Ez; [apply Qeq_bool_eq in Ez; lra|].
  rewrite (rnd_zero (inject_Z 0 / inject_Z d)) by (unfold Qdiv; ring).
  unfold fmul. apply rnd_zero. ring.
Qed.

(** The rounded percentage is a nearest integer to the exact one. *)
Lemma percent_rounded (m d : Z) :
  0 <= m <= d -> 0 < d < 2 ^ 32 ->
  exists v, fmul (fdiv (Num (inject_Z m)) (Num (inject_Z d))) (Num 100) = Num v
            /\ - d <= 2 * Math_round v * d - 200 * m <= d.
Proof.
  intros [Hm Hmd] [Hd0 Hd].
  destruct (Z.eq_dec m 0) as [->|Hm0].
  { exists 0%Q. split; [apply percent_zero; exact Hd0|]. change (Math_round 0) with 0. lia. }
  destruct (percent_value m d ltac:(lia) Hd) as (v & E & B).
  exists v. split; [exact E|].
  change (pow2 (-44)) with (1 # 17592186044416)%Q in B.
  apply Qabs_Qle_condition in B as [Ba Bb].
  unfold Math_round. set (k := Qfloor (v + (1 # 2))).
  pose proof (Qfloor_le (v + (1 # 2))) as K1. pose proof (Qlt_floor (v + (1 # 2))) as K2.
  fold k in K1, K2. rewrite inject_Z_plus in K2. change (inject_Z 1) with 1%Q in K2.
  assert (HD0 : (0 < inject_Z d)%Q) by (change 0%Q with (inject_Z 0); rewrite <- Zlt_Qlt; lia).
  assert (HD2 : (inject_Z d <= 4294967296)%Q)
    by (change 4294967296%Q with (inject_Z (2 ^ 32)); rewrite <- Zle_Qle; lia).
  set (M := inject_Z m) in *. set (D := inject_Z d) in *. set (K := inject_Z k) in *.
  assert (ExD : (M / D * D == M)%Q) by (field; lra).
  set (x := (M / D)%Q) in *.
  assert (U : (0 <= (100 * x + (1 # 17592186044416) + (1 # 2) - K) * (2 * D))%Q)
    by (apply Qmult_le_0_compat; lra).
  assert (L : (0 <= (K + 1 - (100 * x - (1 # 17592186044416) + (1 # 2))) * (2 * D))%Q)
    by (apply Qmult_le_0_compat; lra).
  assert (HU : (inject_Z (2 * k * d - 200 * m - d) < inject_Z 1)%Q).
  { unfold Z.sub. rewrite !inject_Z_plus, !inject_Z_opp, !inject_Z_mult. fold K D M.
    change (inject_Z 2) with 2%Q. change (inject_Z 200) with 200%Q. change (inject_Z 1) with 1%Q.
    lra. }
  assert (HL : (inject_Z (-1) < inject_Z (2 * k * d - 200 * m + d))%Q).
  { unfold Z.sub. rewrite !inject_Z_plus, !inject_Z_opp, !inject_Z_mult. fold K D M.
    change (inject_Z 2) with 2%Q. change (inject_Z 200) with 200%Q.
    change (inject_Z (-1)) with (-1)%Q.
    lra. }
  rewrite <- Zlt_Qlt in HU, HL. lia.
Qed.

(** ** Agreement with the kernel's binary64 operations *)

Lemma agrees_with_kernel_floats :
  forallb (fun a => forallb (agreeOn a) ordinaryFloats) ordinaryFloats = true.
Proof. vm_compute. reflexivity. Qed.

Lemma agrees_with_kernel_floats_at_the_limits :
  forallb (fun p => agreeOn (fst p) (snd p)) limitPairs = true.
Proof. vm_compute. reflexivity. Qed.

(** The decimal literals of the source are the floats the kernel reads
    from the same quotients. *)
Lemma literals_are_kernel_floats :
  sameNumber (dec (1 # 10)) (ofFloat (ratio 1 10)) = true
  /\ sameNumber (dec (5 # 100)) (ofFloat (ratio 5 100)) = true
  /\ sameNumber (dec (1 # 100)) (ofFloat (ratio 1 100)) = true.
Proof. vm_compute. repeat split; reflexivity. Qed.

Lemma num_le_refl_Num (a : Q) : num_le (Num a) (Num a) = true.
Proof. cbn. apply Qle_bool_iff. apply Qle_refl. Qed.

(** Division by a positive finite number keeps the order. *)
Lemma fdiv_mono (a b r : Q) :
  (0 < r)%Q -> (a <= b)%Q -> num_le (fdiv (Num a) (Num r)) (fdiv (Num b) (Num r)) = true.
Proof.
  intros Hr Hab. unfold fdiv.
  destruct (Qeq_bool r 0) eqn:Ez; [apply Qeq_bool_eq in Ez; lra|].
  apply rnd_mono. apply Qmult_le_compat_r; [exact Hab|].
  apply Qlt_le_weak, Qinv_lt_0_compat. exact Hr.
Qed.

Lemma rnd_not_NaN (q : Q) : rnd q <> NaN.
Proof.
  unfold rnd. destruct (q ?= 0)%Q; [discriminate| |].
  - destruct (nearest (- q)); discriminate.
  - destruct (nearest q); discriminate.
Qed.

(** Multiplication by a positive finite number keeps the order. *)
Lemma fmul_mono (x y : number) (c : Q) :
  (0 < c)%Q -> num_le x y = true -> num_le (fmul x (Num c)) (fmul y (Num c)) = true.
Proof.
  intros Hc.
  assert (Ez : Qeq_bool c 0 = false).
  { destruct (Qeq_bool c 0) eqn:E; [apply Qeq_bool_eq in E; lra|reflexivity]. }
  assert (En : isNeg c = false).
  { unfold isNeg. apply negb_false_iff, Qle_bool_iff. lra. }
  destruct x as [|s|a], y as [|t|b]; cbn [num_le]; try discriminate.
  - cbn [fmul]. rewrite Ez, En, !xorb_false_r. cbn [num_le]. auto.
  - intros ->. cbn [fmul]. rewrite Ez, En. cbn [xorb].
    pose proof (rnd_not_NaN (b * c)) as Hn.
    destruct (rnd (b * c)); [contradiction|reflexivity|reflexivity].
  - intros Ht. apply negb_true_iff in Ht as ->. cbn [fmul]. rewrite Ez, En. cbn [xorb].
    pose proof (rnd_not_NaN (a * c)) as Hn.
    destruct (rnd (a * c)); [contradiction|apply orb_true_r|reflexivity].
  - intros H. apply Qle_bool_iff in H. cbn [fmul]. apply rnd_mono.
    apply Qmult_le_compat_r; lra.
Qed.

End NumberFacts.

(** * Properties of the reconciliation engine *)

Module ReconcilerProofs.
Import JS Currency Reconciler ReconcilerSpec ListFacts.

Lemma Qlt_bool_iff (x y : Q) : Qlt_bool x y = true <-> (x < y)%Q.
Proof.
  unfold Qlt_bool. rewrite negb_true_iff.
  destruct (Qle_bool y x) eqn:E.
  - apply Qle_bool_iff in E. split; [discriminate | intros H; lra].
  - split; [|reflexivity]. intros _.
    destruct (Qlt_le_dec x y) as [H|H]; [exact H|].
    apply Qle_bool_iff in H. congruence.
Qed.

Lemma sameAmtVal_sameAmt ed a b : sameAmtVal ed a b = sameAmt ed a b.
Proof. reflexivity. Qed.

(** C2, as stated, fails: with different currencies the tolerance is 5%
    of the first amount, so 1000 INR accepts 951 (1:1 fallback rate) but
    951 does not accept 1000. *)
Lemma amount_parity_not_symmetric :
  sameAmt None inrThousand usd951 <> sameAmt None usd951 inrThousand.
Proof. vm_compute. discriminate. Qed.

Lemma sameAmt_same_currency ed (a b : Expense) :
  currency a = currency b ->
  sameAmt ed a b
  = num_lt (Math_abs (fsub (Num (amount a)) (Num (amount b)))) (dec (1 # 10)).
Proof.
  intros Hc. unfold sameAmt. rewrite Hc, String.eqb_refl.
  unfold dec. rewrite (NumberFacts.rnd_compat (10 # 100) (1 # 10)) by reflexivity.
  reflexivity.
Qed.

Lemma sameAmt_cross_currency ed (a b : Expense) :
  currency a <> currency b ->
  sameAmt ed a b
  = num_lt (Math_abs (fsub (convertToINR (amount a) (currency a) (rates ed))
                           (convertToINR (amount b) (currency b) (rates ed))))
           (fmul (convertToINR (amount a) (currency a) (rates ed)) (dec (5 # 100))).
Proof.
  intros Hc. unfold sameAmt.
  destruct (String.eqb_spec (currency a) (currency b)); [contradiction | reflexivity].
Qed.

(** The literal [0.05] is a positive number. *)
Lemma five_percent : exists c, dec (5 # 100) = Num c /\ (0 < c)%Q.
Proof. eexists. split; [vm_compute; reflexivity | reflexivity]. Qed.

(** C2, amended: the amount parity of the advisory validation and of the
    fallback is symmetric whenever the two records carry the same currency
    string: it is the test that the absolute difference of the two amounts,
    as binary64 arithmetic delivers it, is below the number 0.10.  With
    different currencies both amounts are converted to INR and the
    difference must stay below 5% of the first converted amount, so
    parity carries over to the swapped pair when the second converted
    amount is not the smaller one. *)
Theorem amount_parity_symmetry ed (a b : Expense) :
  (currency a = currency b ->
   sameAmt ed a b = sameAmt ed b a /\ sameAmtVal ed a b = sameAmtVal ed b a
   /\ sameAmt ed a b
      = num_lt (Math_abs (fsub (Num (amount a)) (Num (amount b)))) (dec (1 # 10)))
  /\ (currency a <> currency b ->
      let aINR := convertToINR (amount a) (currency a) (rates ed) in
      let bINR := convertToINR (amount b) (currency b) (rates ed) in
      sameAmt ed a b = num_lt (Math_abs (fsub aINR bINR)) (fmul aINR (dec (5 # 100)))
      /\ (sameAmt ed a b = true -> num_le aINR bINR = true -> sameAmt ed b a = true)).
Proof.
  split.
  - intros Hc.
    assert (Hs : sameAmt ed a b = sameAmt ed b a).
    { rewrite (sameAmt_same_currency ed a b Hc), (sameAmt_same_currency ed b a (eq_sym Hc)).
      rewrite NumberFacts.abs_fsub_sym. reflexivity. }
    split; [exact Hs|]. split; [exact Hs|]. apply sameAmt_same_currency. exact Hc.
  - intros Hc aINR bINR. split; [apply sameAmt_cross_currency; exact Hc|].
    rewrite (sameAmt_cross_currency ed a b Hc), (sameAmt_cross_currency ed b a (not_eq_sym Hc)).
    fold aINR bINR. intros H Hle.
    destruct five_percent as (c & Ec & Hpos). rewrite Ec in *.
    rewrite NumberFacts.abs_fsub_sym.
    eapply NumberFacts.num_lt_le_trans; [exact H|].
    apply NumberFacts.fmul_mono; assumption.
Qed.

Lemma amount_parity_symmetry_witness :
  (sameAmt None aed500 aed500_05 = sameAmt None aed500_05 aed500
   /\ sameAmt None aed500 aed500_05 = true)
  /\ (sameAmt None usd990 inrThousand = true /\ sameAmt None inrThousand usd990 = true).
Proof.
  split.
  - destruct (proj1 (amount_parity_symmetry None aed500 aed500_05) eq_refl) as (H & _ & _).
    split; [exact H | vm_compute; reflexivity].
  - assert (H : sameAmt None usd990 inrThousand = true) by (vm_compute; reflexivity).
    split; [exact H|].
    refine (proj2 (proj2 (amount_parity_symmetry None usd990 inrThousand) _) H _).
    + discriminate.
    + vm_compute. reflexivity.
Defined.

(** *** The compliance score *)

(** The integer the specification's formula gives is a nearest one. *)
Lemma roundedPercent_nearest (m d : Z) :
  0 < d -> 2 * Z.abs (roundedPercent m d * d - 100 * m) <= d.
Proof.
  intros Hd. unfold roundedPercent.
  pose proof (Z.div_mod (200 * m + d) (2 * d) ltac:(lia)) as Hdm.
  pose proof (Z.mod_pos_bound (200 * m + d) (2 * d) ltac:(lia)) as Hb.
  nia.
Qed.

(** An integer [k] nearest to [100 * m / d] is the rounded percentage,
    or one below it when [100 * m / d] is [k] and a half. *)
Lemma nearest_percent (m d k : Z) :
  0 < d -> - d <= 2 * k * d - 200 * m <= d ->
  k = roundedPercent m d
  \/ (k = roundedPercent m d - 1 /\ 200 * m = (2 * k + 1) * d).
Proof.
  intros Hd Hk. unfold roundedPercent.
  destruct (Z.eq_dec (200 * m) ((2 * k + 1) * d)) as [E|NE].
  - right. split; [|exact E].
    assert (H : (200 * m + d) / (2 * d) = k + 1).
    { symmetry. apply (Z.div_unique _ _ _ 0); lia. }
    lia.
  - left. apply (Z.div_unique _ _ _ (200 * m + d - 2 * k * d)); lia.
Qed.

Lemma computeScore_spec (m a s : nat) :
  Z.of_nat (m + a + s) < 2 ^ 32 ->
  let d := Z.of_nat (m + a + s) in
  let k := computeScore m a s in
  (k = complianceScore (Z.of_nat m) (Z.of_nat a) (Z.of_nat s)
   \/ (k = complianceScore (Z.of_nat m) (Z.of_nat a) (Z.of_nat s) - 1
       /\ 0 < d /\ 200 * Z.of_nat m = (2 * k + 1) * d))
  /\ 0 <= k <= 100.
Proof.
  intros Hd d k. subst k. unfold computeScore, complianceScore.
  rewrite <- !Nat2Z.inj_add. fold d.
  destruct (Nat.ltb_spec 0 (m + a + s)) as [H|H].
  - destruct (Z.eqb_spec d 0) as [E|_]; [unfold d in E; lia|].
    assert (Hd0 : 0 < d) by (unfold d; lia).
    destruct (NumberFacts.percent_rounded (Z.of_nat m) d) as (v & E & Hk);
      [unfold d; lia | unfold d in *; lia |].
    unfold ofNat. fold d. rewrite E.
    destruct (nearest_percent (Z.of_nat m) d (Math_round v) Hd0 Hk) as [Hr|[Hr Ht]].
    + split; [left; exact Hr|]. assert (0 <= Z.of_nat m <= d) by (unfold d; lia). nia.
    + split; [right; auto|]. assert (0 <= Z.of_nat m <= d) by (unfold d; lia). nia.
  - destruct (Z.eqb_spec d 0) as [_|E]; [|unfold d in E; lia].
    split; [left; reflexivity|lia].
Qed.

(** C3, as stated, fails: with 23 anchors matched and 17 missing as
    standard, [(23 / 40) * 100] is 57.49999999999999 in binary64
    arithmetic and the score is 57, where 100 * 23 / 40 = 57.5 rounds to
    58. *)
Lemma compliance_score_rounds_down :
  let fd := filteredData ledger None None march2025 "All Accounts" in
  length (fd_matched fd) = 23%nat
  /\ length (mandatoryMissing fd) = 0%nat
  /\ length (standardMissing fd) = 17%nat
  /\ score (stats fd) = 57
  /\ complianceScore 23 0 17 = 58.
Proof.
  cbv zeta. unfold filteredData, classified, finalUnmatchedBankTx.
  set (F := fallback ledger None None march2025 "All Accounts").
  vm_compute in F. vm_compute. repeat split; reflexivity.
Qed.

(** C3, amended: the score of a run is 100 when no pair is matched and
    nothing is missing as mandatory or standard.  Otherwise it is the
    rounded percentage 100 * matched / (matched + mandatory + standard),
    except that, when the percentage lies exactly halfway between two
    integers, it can be the lower one (the product is computed in
    binary64 arithmetic as [(matched / denominator) * 100]).  It lies
    between 0 and 100, the optional-missing entries do not enter the
    computation, and the filed report carries the same score.  The
    counts are array lengths, below 2^32. *)
Theorem compliance_score_formula expenses reconciliation exchangeData period auditBank :
  let fd := filteredData expenses reconciliation exchangeData period auditBank in
  let nMatched := Z.of_nat (length (fd_matched fd)) in
  let nMandatory := Z.of_nat (length (mandatoryMissing fd)) in
  let nStandard := Z.of_nat (length (standardMissing fd)) in
  let denominator := nMatched + nMandatory + nStandard in
  denominator < 2 ^ 32 ->
  (score (stats fd) = complianceScore nMatched nMandatory nStandard
   \/ (score (stats fd) = complianceScore nMatched nMandatory nStandard - 1
       /\ 0 < denominator
       /\ 200 * nMatched = (2 * score (stats fd) + 1) * denominator))
  /\ 0 <= score (stats fd) <= 100
  /\ compliance_score (report_summary (fullReport fd)) = score (stats fd).
Proof.
  cbv zeta. unfold filteredData.
  destruct (classified expenses reconciliation exchangeData period auditBank)
    as [[mandatory standard] optional].
  cbn [fd_matched mandatoryMissing standardMissing stats score fullReport
       report_summary compliance_score].
  intros Hd. rewrite <- !Nat2Z.inj_add in *.
  destruct (computeScore_spec _ _ _ Hd) as [H1 H2].
  split; [exact H1|]. split; [exact H2|reflexivity].
Qed.

Lemma compliance_score_formula_witness :
  let fd := filteredData [flydubaiAnchor; flydubaiReceipt; inrThousand] None None
                         march2025 "All Accounts" in
  score (stats fd) = 50 /\ 0 <= score (stats fd) <= 100.
Proof.
  destruct (compliance_score_formula [flydubaiAnchor; flydubaiReceipt; inrThousand] None None
              march2025 "All Accounts") as (H1 & H2 & _).
  - vm_compute. reflexivity.
  - split; [vm_compute; reflexivity | exact H2].
Defined.

(** *** Role integrity of the matched pairs *)

Section Roles.
Variable expenses : list Expense.
Variable reconciliation : option ReconciliationResult.
Variable exchangeData : option ExchangeRates.
Variable period : Period.
Variable auditBank : string.

Local Abbreviation S := (allAnchorsInPeriod expenses period auditBank).
Local Abbreviation A := (advisoryPairs expenses reconciliation exchangeData period auditBank).
Local Abbreviation init := (fallbackInit expenses reconciliation exchangeData period auditBank).
Local Abbreviation step := (fallbackStep exchangeData).
Local Abbreviation U := (unmatchedAnchors expenses reconciliation exchangeData period auditBank).
Local Abbreviation final := (fallback expenses reconciliation exchangeData period auditBank).

Lemma expenseMap_fold (l : list Expense) (m0 : gmap string Expense) k e :
  foldl (fun m e => if truthy (Some (id e)) then <[id e := e]> m else m) m0 l !! k = Some e ->
  m0 !! k = Some e \/ (e ∈ l /\ id e = k /\ k <> "").
Proof.
  revert m0. induction l as [|x l IH]; intros m0; cbn [foldl]; [auto|].
  intros H. apply IH in H as [H|(Hin & Hid & Hk)].
  - destruct (truthy (Some (id x))) eqn:T; [|auto].
    destruct (decide (id x = k)) as [<-|Hne].
    + rewrite lookup_insert_eq in H. injection H as ->.
      right. split; [left|]. split; [reflexivity|].
      cbn in T. intros E. rewrite E in T. discriminate.
    + rewrite lookup_insert_ne in H by exact Hne. auto.
  - right. split; [right; exact Hin | auto].
Qed.

Lemma expenseMap_lookup k e :
  expenseMap expenses !! k = Some e -> e ∈ expenses /\ id e = k /\ k <> "".
Proof.
  intros H. apply expenseMap_fold in H as [H|H]; [|exact H].
  rewrite lookup_empty in H. discriminate.
Qed.

Lemma validate_Some m p :
  validate expenses exchangeData m = Some p ->
  bankId m = Some (id (pair_bank p))
  /\ pair_bank p ∈ expenses
  /\ pair_receipt p ∈ expenses
  /\ id (pair_bank p) <> ""
  /\ id (pair_bank p) <> id (pair_receipt p)
  /\ isAnchor (pair_receipt p) = false.
Proof.
  unfold validate.
  destruct (truthy (bankId m)) eqn:Tb; [|discriminate].
  destruct (bankId m) as [k|] eqn:Eb; [|discriminate].
  change (default "" (Some k)) with k.
  destruct (expenseMap expenses !! k) as [b|] eqn:Lb; cbv beta iota; [|discriminate].
  destruct (truthy (or_opt (receiptId m) (emailId m))); cbv beta iota; [|discriminate].
  destruct (expenseMap expenses !! or_else _ _) as [r|] eqn:Lr; cbv beta iota; [|discriminate].
  destruct (String.eqb_spec (id b) (id r)) as [|Hne]; cbn [orb]; cbv beta iota; [discriminate|].
  destruct (isAnchor r) eqn:Ar; cbv beta iota; [discriminate|].
  destruct (_ || _ || _); [discriminate|].
  intros [= <-]. cbn [pair_bank pair_receipt].
  apply expenseMap_lookup in Lb as (Hb & Hid & Hk).
  apply expenseMap_lookup in Lr as (Hr & _ & _).
  subst k. repeat split; auto.
Qed.

Lemma advisoryPairs_sound p :
  p ∈ A ->
  pair_bank p ∈ expenses
  /\ id (pair_bank p) <> ""
  /\ id (pair_bank p) <> id (pair_receipt p)
  /\ isAnchor (pair_receipt p) = false
  /\ isTargetPeriod period (date (pair_bank p)) = true
  /\ bankInScope auditBank (pair_bank p) = true.
Proof.
  unfold advisoryPairs. rewrite list_elem_of_filter, list_elem_of_omap.
  intros [Hscope (m & _ & Hv)].
  apply validate_Some in Hv as (_ & Hb & _ & Hk & Hne & Hr).
  apply Is_true_true, andb_true_iff in Hscope as [Hp Hs].
  repeat split; assumption.
Qed.

(** The fallback loop only appends pairs whose bank side is one of the
    anchors it walks over and whose receipt side is an available
    receipt accepted by [autoMatches]. *)
Lemma fallback_fold (todo : list Expense) (st : Fallback) :
  exists F : list Pair,
    matchedPairs (foldl step st todo) = matchedPairs st ++ F
    /\ (pair_bank <$> F) `sublist_of` todo
    /\ matchedBankIds (foldl step st todo)
       = list_to_set (id <$> (pair_bank <$> F)) ∪ matchedBankIds st
    /\ Forall (fun p => pair_receipt p ∈ availableReceipts st
                        /\ autoMatches exchangeData (pair_bank p) (pair_receipt p) = true) F.
Proof.
  revert st. induction todo as [|b todo IH]; intros st; cbn [foldl].
  - exists []. rewrite app_nil_r. split; [reflexivity|]. split; [apply sublist_nil|].
    split; [cbn; rewrite (left_id_L ∅ (∪)); reflexivity | constructor].
  - unfold fallbackStep at 2 4.
    destruct (list_find _ (availableReceipts st)) as [[idx r]|] eqn:Hf.
    + destruct (IH {| matchedPairs := matchedPairs st ++
           [{| pair_bank := b; pair_receipt := r;
               pair_label := Some "AUTO-VERIFIED (Forensic Match)";
               pair_summary := Some "Verified via ±3 day clearance window heuristic match." |}];
         matchedBankIds := {[ id b ]} ∪ matchedBankIds st;
         availableReceipts := delete idx (availableReceipts st) |})
        as (F & HF & Hsub & HM & Hall).
      cbn [matchedPairs matchedBankIds availableReceipts] in *.
      apply list_find_Some in Hf as (Hl & HP & _).
      eexists (_ :: F). rewrite HF, <- app_assoc. split; [reflexivity|].
      split; [cbn; constructor; exact Hsub|].
      split.
      { rewrite HM. cbn [fmap list_fmap list_to_set].
        rewrite (assoc_L (∪)). f_equal. apply (comm_L (∪)). }
      constructor.
      * cbn. split; [eapply list_elem_of_lookup_2; exact Hl|].
        apply Is_true_true. exact HP.
      * eapply Forall_impl; [exact Hall|]. cbn. intros p [Hin Hm]. split; [|exact Hm].
        eapply elem_of_sublist; [exact Hin | apply sublist_delete].
    + destruct (IH st) as (F & HF & Hsub & HM & Hall).
      exists F. repeat split; auto. apply sublist_cons. exact Hsub.
Qed.

Lemma unmatchedAnchors_scope b : b ∈ U -> b ∈ S /\ isAnchor b = true.
Proof.
  unfold unmatchedAnchors. rewrite list_elem_of_filter. intros [_ H].
  split; [exact H|]. unfold allAnchorsInPeriod in H.
  apply list_elem_of_filter in H as [H _].
  apply Is_true_true in H. rewrite !andb_true_iff in H. tauto.
Qed.

Lemma availableReceipts_proofs r :
  r ∈ availableReceipts init -> isAnchor r = false.
Proof.
  cbn [fallbackInit availableReceipts]. rewrite list_elem_of_filter. intros [H _].
  apply Is_true_true in H. rewrite andb_true_iff, negb_true_iff in H. tauto.
Qed.

(** What holds of every matched pair of a run: the receipt side is never
    an anchor and never the record on the bank side; a pair added by
    the fallback has an in-scope anchor on its bank side. *)
Lemma matched_pair_roles p :
  p ∈ fd_matched (filteredData expenses reconciliation exchangeData period auditBank) ->
  isAnchor (pair_receipt p) = false
  /\ pair_bank p <> pair_receipt p
  /\ (p ∈ A \/ (isAnchor (pair_bank p) = true /\ pair_bank p ∈ S)).
Proof.
  unfold filteredData.
  destruct (classified _ _ _ _ _) as [[mandatory standard] optional].
  cbn [fd_matched]. unfold fallback.
  destruct (fallback_fold U init) as (F & HF & Hsub & _ & Hall).
  rewrite HF. cbn [fallbackInit matchedPairs].
  rewrite elem_of_app. intros [Hin|Hin].
  - pose proof (advisoryPairs_sound p Hin) as (_ & _ & Hne & Hr & _).
    split; [exact Hr|]. split; [congruence | left; exact Hin].
  - rewrite Forall_forall in Hall. destruct (Hall p Hin) as [Hav _].
    apply availableReceipts_proofs in Hav.
    assert (Hb : pair_bank p ∈ U).
    { eapply elem_of_sublist; [|exact Hsub]. apply list_elem_of_fmap. eauto. }
    apply unmatchedAnchors_scope in Hb as [HS Ha].
    split; [exact Hav|]. split; [congruence | right; auto].
Qed.

(** *** The anchor pool and the four output sets *)

Local Abbreviation proposals :=
  (match reconciliation with Some r => matched r | None => [] end).

Lemma validated_banks_sublist (ps : list Proposal) :
  (id <$> (pair_bank <$> omap (validate expenses exchangeData) ps)) `sublist_of` omap bankId ps.
Proof.
  induction ps as [|m ps IH]; [constructor|].
  cbn [omap list_omap].
  destruct (validate expenses exchangeData m) as [p|] eqn:E.
  - apply validate_Some in E as (-> & _). cbn. constructor. exact IH.
  - destruct (bankId m); [apply sublist_cons|]; exact IH.
Qed.

Lemma advisory_banks_NoDup :
  NoDup (omap bankId proposals) -> NoDup (id <$> (pair_bank <$> A)).
Proof.
  intros H. eapply sublist_NoDup; [exact H|].
  etrans; [|apply validated_banks_sublist].
  unfold advisoryPairs. do 2 apply fmap_sublist. apply sublist_filter.
Qed.

Lemma classify_fold (l : list Expense) m0 s0 o0 m s o :
  foldl (classifyStep exchangeData) (m0, s0, o0) l = (m, s, o) ->
  m ++ o ++ s ≡ₚ (m0 ++ o0 ++ s0) ++ l.
Proof.
  revert m0 s0 o0. induction l as [|x l IH]; intros m0 s0 o0; cbn [foldl].
  - intros [= -> -> ->]. by rewrite app_nil_r.
  - unfold classifyStep at 2.
    destruct (isMandatory x); [|destruct (isOptional exchangeData x)];
      intros H; apply IH in H; rewrite H; solve_Permutation.
Qed.

Lemma advisory_ids_matched p :
  p ∈ A -> id (pair_bank p) ∈ matchedBankIds init.
Proof.
  intros Hp. pose proof (advisoryPairs_sound p Hp) as (_ & Hk & _).
  cbn [fallbackInit matchedBankIds].
  apply elem_of_list_to_set, list_elem_of_filter. split.
  - cbn. destruct (String.eqb_spec (id (pair_bank p)) ""); [contradiction | exact I].
  - apply list_elem_of_fmap. exists p. split; [reflexivity | exact Hp].
Qed.

Lemma matched_ids_advisory k :
  k ∈ matchedBankIds init -> exists p, p ∈ A /\ id (pair_bank p) = k.
Proof.
  cbn [fallbackInit matchedBankIds].
  rewrite elem_of_list_to_set, list_elem_of_filter, list_elem_of_fmap.
  intros [_ (p & -> & Hp)]. eauto.
Qed.

(** When the ids of the in-scope anchors are pairwise distinct, the
    advisory proposals name pairwise distinct bank ids, and each advisory
    pair has an anchor on its bank side, the bank sides of the matched
    pairs and the three missing lists are a rearrangement of the in-scope
    anchor pool. *)
Lemma anchor_pool_partition :
  NoDup (id <$> S) ->
  NoDup (omap bankId proposals) ->
  (forall p, p ∈ A -> isAnchor (pair_bank p) = true) ->
  let fd := filteredData expenses reconciliation exchangeData period auditBank in
  (pair_bank <$> fd_matched fd) ++ mandatoryMissing fd ++ optionalMissing fd ++ standardMissing fd
  ≡ₚ S.
Proof.
  intros HS HP HA. cbv zeta. unfold filteredData.
  destruct (classified _ _ _ _ _) as [[m s] o] eqn:Hc.
  cbn [fd_matched mandatoryMissing optionalMissing standardMissing].
  apply classify_fold in Hc. cbn [app] in Hc. rewrite Hc. clear Hc m s o.
  unfold finalUnmatchedBankTx, fallback.
  destruct (fallback_fold U init) as (F & HF & Hsub & HM & _).
  rewrite HF, HM. cbn [fallbackInit matchedPairs]. rewrite fmap_app.
  set (M0 := matchedBankIds init) in *.
  set (BF := pair_bank <$> F) in *.
  assert (HSnd : NoDup S) by (eapply NoDup_fmap_1; exact HS).
  assert (HU : forall x, x ∈ BF -> x ∈ S /\ id x ∉ M0).
  { intros x Hx. eapply elem_of_sublist in Hx; [|exact Hsub].
    unfold unmatchedAnchors in Hx. apply list_elem_of_filter in Hx. tauto. }
  assert (HAS : forall x, x ∈ pair_bank <$> A -> x ∈ S /\ id x ∈ M0).
  { intros x (p & -> & Hp)%list_elem_of_fmap. split; [|apply advisory_ids_matched; exact Hp].
    pose proof (advisoryPairs_sound p Hp) as (Hin & _ & _ & _ & Hper & Hsc).
    unfold allAnchorsInPeriod. apply list_elem_of_filter. split; [|exact Hin].
    apply Is_true_true. rewrite (HA p Hp), Hper, Hsc. reflexivity. }
  apply NoDup_Permutation.
  - rewrite <- app_assoc. apply NoDup_app. split; [|split].
    + eapply NoDup_fmap_1. apply advisory_banks_NoDup. exact HP.
    + intros x Hx. apply HAS in Hx as [_ Hx]. rewrite elem_of_app, list_elem_of_filter.
      intros [Hb|[Hn _]]; [apply HU in Hb; tauto|]. apply Hn, elem_of_union_r, Hx.
    + apply NoDup_app. split; [|split].
      * eapply sublist_NoDup; [|exact Hsub]. apply NoDup_filter. exact HSnd.
      * intros x Hx. rewrite list_elem_of_filter. intros [Hn _]. apply Hn.
        apply elem_of_union_l, elem_of_list_to_set, list_elem_of_fmap_2. exact Hx.
      * apply NoDup_filter. exact HSnd.
  - exact HSnd.
  - intros x. rewrite !elem_of_app, list_elem_of_filter. split.
    + intros [[Hx|Hx]|[_ Hx]]; [apply HAS in Hx | apply HU in Hx |]; tauto.
    + intros Hx.
      destruct (decide (id x ∈ list_to_set (id <$> BF) ∪ M0)) as [Hin|Hin]; [|tauto].
      left. apply elem_of_union in Hin as [Hin|Hin].
      * right. apply elem_of_list_to_set, list_elem_of_fmap in Hin as (y & Hy & Hin).
        pose proof (HU y Hin) as [HyS _].
        rewrite (NoDup_fmap_eq id S x y HS Hx HyS Hy). exact Hin.
      * left. apply matched_ids_advisory in Hin as (p & Hp & Hy).
        assert (HpS : pair_bank p ∈ S) by (apply HAS, list_elem_of_fmap_2; exact Hp).
        rewrite (NoDup_fmap_eq id S x (pair_bank p) HS Hx HpS (eq_sym Hy)).
        apply list_elem_of_fmap_2. exact Hp.
Qed.

End Roles.

(** C1 (defect): a run in which the advisory matcher names a receipt as
    the bank side.  The validation checks only that the receipt side is
    not an anchor, so the first matched pair has a proof on both sides;
    the anchor pool holds one record and two pairs are matched. *)
Theorem advisory_pair_of_two_proofs :
  let fd := filteredData [flydubaiAnchor; flydubaiReceipt; flydubaiEmail]
              (Some proofAsBank) None march2025 "All Accounts" in
  (fun p => (id (pair_bank p), isAnchor (pair_bank p),
             id (pair_receipt p), isAnchor (pair_receipt p))) <$> fd_matched fd
  = [("p1", false, "p2", false); ("a1", true, "p1", false)].
Proof. vm_compute. reflexivity. Qed.

(** C4 (defect, the one of C1): in the same run the matched set holds
    the receipt [p1] on a bank side, a record outside the anchor pool; the
    pool has one anchor while the four sets hold two bank-side records. *)
Theorem matched_set_leaves_anchor_pool :
  let fd := filteredData [flydubaiAnchor; flydubaiReceipt; flydubaiEmail]
              (Some proofAsBank) None march2025 "All Accounts" in
  id <$> allAnchorsInPeriod [flydubaiAnchor; flydubaiReceipt; flydubaiEmail] march2025 "All Accounts"
  = ["a1"]
  /\ id <$> (pair_bank <$> fd_matched fd) = ["p1"; "a1"]
  /\ mandatoryMissing fd ++ optionalMissing fd ++ standardMissing fd = []
  /\ totalBankTx (stats fd) = 1%nat /\ matchedCount (stats fd) = 2%nat.
Proof. vm_compute. repeat split; reflexivity. Qed.

End ReconcilerProofs.

(** * Properties of the advisory agent *)

Module ServerProofs.
Import Server ServerSpec.

(** C9: with no item of role ANCHOR the agent returns a result (it does
    not throw, and it does not consult the model): nothing matched, the id
    of every PROOF item listed as unmatched receipt, no unmatched bank
    transaction. *)
Theorem empty_anchor_pool (generate : Generate) (expenses : list AuditItem) :
  filter (fun e => role e = "ANCHOR") expenses = [] ->
  runReconciliationAgent generate expenses
  = {| matched := [];
       unmatchedReceipts := itemId <$> filter (fun e => role e = "PROOF") expenses;
       unmatchedBankTransactions := [] |}.
Proof. intros H. unfold runReconciliationAgent. rewrite H. reflexivity. Qed.

Lemma empty_anchor_pool_witness :
  runReconciliationAgent failing [auditItem "p1" "receipt" "PROOF"; auditItem "p2" "email" "PROOF"]
  = {| matched := []; unmatchedReceipts := ["p1"; "p2"]; unmatchedBankTransactions := [] |}.
Proof.
  exact (empty_anchor_pool failing
           [auditItem "p1" "receipt" "PROOF"; auditItem "p2" "email" "PROOF"] eq_refl).
Defined.

(** The agent never returns two matches for one bank id: [addMatch]
    drops a match whose [bankId] is already taken. *)
Lemma addMatch_NoDup (l : list Match) (m : Match) :
  NoDup (bankId <$> l) -> NoDup (bankId <$> addMatch l m).
Proof.
  intros H. unfold addMatch.
  destruct (existsb _ l) eqn:E; [exact H|].
  rewrite fmap_app. apply NoDup_app. split; [exact H|]. split; [|apply NoDup_singleton].
  intros k (m' & -> & Hm')%list_elem_of_fmap Hk.
  apply list_elem_of_singleton in Hk.
  assert (Ht : existsb (fun m' => String.eqb (bankId m') (bankId m)) l = true).
  { apply existsb_exists. exists m'. split; [apply list_elem_of_In; exact Hm'|].
    apply String.eqb_eq. exact Hk. }
  congruence.
Qed.

Lemma foldl_addMatch_NoDup (ms l : list Match) :
  NoDup (bankId <$> l) -> NoDup (bankId <$> foldl addMatch l ms).
Proof.
  revert l. induction ms as [|m ms IH]; intros l H; [exact H|].
  cbn. apply IH, addMatch_NoDup, H.
Qed.

Lemma agent_matches_distinct_banks (generate : Generate) (expenses : list AuditItem) :
  NoDup (bankId <$> matched (runReconciliationAgent generate expenses)).
Proof.
  unfold runReconciliationAgent.
  destruct (filter _ expenses) as [|a anchors] eqn:E; [constructor|].
  cbn [matched].
  generalize (imap (fun k b => (k, b)) (batches (length (a :: anchors)) (a :: anchors))).
  intros bs.
  assert (H : forall st, NoDup (bankId <$> allMatches st) ->
                NoDup (bankId <$> allMatches (foldl (batchStep generate (filter (fun e => role e = "PROOF") expenses)) st bs))).
  { induction bs as [|[k b] bs IH]; intros st Hst; [exact Hst|].
    cbn [foldl]. apply IH. unfold batchStep.
    destruct (retryWithBackoff _ _ _ _ _) as [[r|] c]; cbn [allMatches]; [|exact Hst].
    apply foldl_addMatch_NoDup, Hst. }
  apply H. constructor.
Qed.

End ServerProofs.

(** * Properties of the travel linkage engine *)

Module FirebaseProofs.
Import JS Firebase FirebaseSpec ListFacts.

(** *** Day counts at ingestion *)

Lemma Qceiling_whole (k m : Z) : 0 < m -> Qceiling (inject_Z (k * m) / inject_Z m) = k.
Proof.
  intros Hm.
  assert (E : (inject_Z (k * m) / inject_Z m == inject_Z k)%Q).
  { rewrite inject_Z_mult. field.
    intros H. assert (H0 : (0 < inject_Z m)%Q) by (rewrite <- (Zlt_Qlt 0); exact Hm). lra. }
  rewrite E. apply Qceiling_Z.
Qed.

Lemma Qfloor_whole (k m : Z) : 0 < m -> Qfloor (inject_Z (k * m) / inject_Z m) = k.
Proof.
  intros Hm.
  assert (E : (inject_Z (k * m) / inject_Z m == inject_Z k)%Q).
  { rewrite inject_Z_mult. field.
    intros H. assert (H0 : (0 < inject_Z m)%Q) by (rewrite <- (Zlt_Qlt 0); exact Hm). lra. }
  rewrite E. apply Qfloor_Z.
Qed.

Lemma calculateDuration_inclusive start end_ :
  calculateDuration start end_ = inclusiveDayCount start end_.
Proof.
  unfold calculateDuration, inclusiveDayCount, getTime.
  destruct (parse_iso_day start) as [s|]; [|reflexivity].
  destruct (parse_iso_day (or_else end_ start)) as [e|]; [|reflexivity].
  cbn [fmap option_fmap option_map]. f_equal. f_equal.
  replace (Z.abs (e * msPerDay - s * msPerDay)) with (Z.abs (e - s) * msPerDay)
    by (unfold msPerDay; lia).
  apply Qceiling_whole. reflexivity.
Qed.

Lemma insertSorted_Permutation {X} (gt : X -> X -> bool) x l : insertSorted gt x l ≡ₚ x :: l.
Proof.
  induction l as [|y l IH]; cbn; [reflexivity|].
  destruct (gt x y); [|reflexivity]. rewrite IH. apply perm_swap.
Qed.

Lemma sortBy_Permutation {X} (gt : X -> X -> bool) l : sortBy gt l ≡ₚ l.
Proof.
  induction l as [|x l IH]; cbn; [reflexivity|].
  rewrite insertSorted_Permutation, IH. reflexivity.
Qed.

Lemma consolidated_newLog now i log :
  consolidated (withId i (newLog now log)) = consolidated log.
Proof. reflexivity. Qed.

Lemma ingest_fold now freshId existing (l : list TravelLog) db res r :
  r ∈ snd (foldl (ingestStep now freshId existing) (db, res) l) ->
  r ∈ res \/ exists log i, log ∈ l /\ isDuplicate existing log = false
                           /\ r = withId i (newLog now log).
Proof.
  revert db res. induction l as [|x l IH]; intros db res; cbn [foldl]; [auto|].
  unfold ingestStep at 2. destruct (isDuplicate existing x) eqn:E.
  - intros H. apply IH in H as [H|(log & i & Hin & Hd & ->)]; [auto|].
    right. exists log, i. split; [right; exact Hin | auto].
  - intros H. apply IH in H as [H|(log & i & Hin & Hd & ->)].
    + apply elem_of_app in H as [H|H]; [auto|].
      apply list_elem_of_singleton in H. right. exists x, (freshId db).
      split; [left | auto].
    + right. exists log, i. split; [right; exact Hin | auto].
Qed.

Lemma ingest_results now freshId db logs r :
  r ∈ snd (ingest now freshId db logs) ->
  exists log i, log ∈ logs /\ isDuplicate db log = false /\ r = withId i (newLog now log).
Proof.
  unfold ingest. intros H. apply ingest_fold in H as [H|(log & i & Hin & Hd & ->)].
  - inversion H.
  - exists log, i. rewrite sortBy_Permutation in Hin. auto.
Qed.

(** What ingestion stores, dates valid or not. *)
Lemma ingested_days_spent_eq now freshId db logs r :
  r ∈ snd (ingest now freshId db logs) ->
  days_spent r = if consolidated r then inclusiveDayCount (start_date r) (end_date r) else Some 1.
Proof.
  intros (log & i & _ & _ & ->)%ingest_results.
  rewrite consolidated_newLog. cbn [withId newLog days_spent start_date end_date].
  rewrite calculateDuration_inclusive. reflexivity.
Qed.

(** C5, as stated, fails: an accommodation record whose start date is the
    empty string (an invalid date) is accepted, and its [days_spent] is
    [NaN]. *)
Lemma ingested_days_spent_not_a_number :
  days_spent <$> snd (ingest "2025-03-01T00:00:00.000Z" (fun _ => "doc1") [] [undatedStay]) = [None].
Proof. vm_compute. reflexivity. Qed.

(** C5, amended: for every record accepted by ingestion whose start and
    end dates are calendar dates, [days_spent] is at least 1; it is 1
    unless the record is a round trip, a home-bound arrival or an
    accommodation record, and then it is the inclusive day count between
    start date and end date. *)
Theorem ingested_days_spent now freshId db logs r :
  r ∈ snd (ingest now freshId db logs) ->
  is_Some (parse_iso_day (start_date r)) ->
  is_Some (parse_iso_day (or_else (end_date r) (start_date r))) ->
  exists n, days_spent r = Some n /\ 1 <= n
            /\ Some n = (if isRoundTrip r || isHomeLocation r || isAccommodation r
                         then inclusiveDayCount (start_date r) (end_date r) else Some 1).
Proof.
  intros Hr [s Hs] [e He].
  pose proof (ingested_days_spent_eq _ _ _ _ _ Hr) as Hd.
  assert (Hc : consolidated r = isRoundTrip r || isHomeLocation r || isAccommodation r).
  { unfold consolidated. destruct (isHomeLocation r), (isRoundTrip r); reflexivity. }
  rewrite Hc in Hd. rewrite Hd.
  destruct (isRoundTrip r || isHomeLocation r || isAccommodation r).
  - unfold inclusiveDayCount. rewrite Hs, He. eexists. split; [reflexivity|]. split; [lia | reflexivity].
  - exists 1. split; [reflexivity|]. split; [lia | reflexivity].
Qed.

Lemma ingested_days_spent_witness :
  exists r, snd (ingest "2025-03-01T00:00:00.000Z" (fun _ => "doc1") [] [muscatStay]) = [r]
            /\ days_spent r = Some 4.
Proof.
  eexists. split; [vm_compute; reflexivity|].
  destruct (ingested_days_spent "2025-03-01T00:00:00.000Z" (fun _ => "doc1") [] [muscatStay]
              (withId "doc1" (newLog "2025-03-01T00:00:00.000Z" muscatStay)))
    as (n & Hn & _ & Hc).
  - vm_compute. left.
  - vm_compute. eauto.
  - vm_compute. eauto.
  - vm_compute in Hc. injection Hc as ->. vm_compute. reflexivity.
Defined.

(** *** Hotel verification *)

(** C10: one pass links one hotel to two flights.  The hotel [h1] matches
    the flight [f1]; the pass writes the link to the collection only, so
    the hotel read before the loop is still unlinked when [f2] is handled,
    and both flights end verified with [linked_hotel_id = h1]. *)
Theorem one_hotel_verifies_two_flights :
  let db := [muscatFlightA; muscatFlightB; muscatHotel] in
  (fun l => (id l, travel_type l, hotel_verification_status l, linked_hotel_id l, linked_flight_id l))
    <$> applyWrites db (verifyHotels "2025-03-01T00:00:00.000Z" db)
  = [("f1", flight, Some verified, Some "h1", None);
     ("f2", flight, Some verified, Some "h1", None);
     ("h1", accommodation, Some verified, None, Some "f2")].
Proof. vm_compute. reflexivity. Qed.

Lemma applyWrites_applyTo (ws : list Write) (db : Collection) :
  applyWrites db ws = applyTo ws <$> db.
Proof.
  revert db. induction ws as [|w ws IH]; intros db.
  - cbn. rewrite list_fmap_id. reflexivity.
  - cbn [applyWrites foldl]. fold (applyWrites (setDoc db w) ws). rewrite IH.
    unfold setDoc. rewrite <- list_fmap_compose. reflexivity.
Qed.

(** A write changes none of the fields a document is matched on. *)
Lemma applyTo_key ws l :
  id (applyTo ws l) = id l /\ travel_type (applyTo ws l) = travel_type l
  /\ destination_city (applyTo ws l) = destination_city l
  /\ destination_country (applyTo ws l) = destination_country l
  /\ start_date (applyTo ws l) = start_date l.
Proof.
  revert l. induction ws as [|w ws IH]; intros l; [cbn; auto|].
  cbn [applyTo foldl]. fold (applyTo ws (if String.eqb (id l) (target w) then merge (patch w) l else l)).
  destruct (IH (if String.eqb (id l) (target w) then merge (patch w) l else l))
    as (-> & -> & -> & -> & ->).
  destruct (String.eqb (id l) (target w)); cbn; auto.
Qed.

Lemma isHomeLocation_applyTo ws l : isHomeLocation (applyTo ws l) = isHomeLocation l.
Proof.
  destruct (applyTo_key ws l) as (_ & _ & Hc & Hn & _).
  unfold isHomeLocation. rewrite Hc, Hn. reflexivity.
Qed.

Lemma applyTo_verified ws l :
  (forall w, w ∈ ws -> set_hotel_verification_status (patch w) = Some verified) ->
  hotel_verification_status l = Some verified \/ (exists w, w ∈ ws /\ target w = id l) ->
  hotel_verification_status (applyTo ws l) = Some verified.
Proof.
  revert l. induction ws as [|w ws IH]; intros l Hall Hl.
  - destruct Hl as [Hl|(w & Hw & _)]; [exact Hl | inversion Hw].
  - cbn [applyTo foldl].
    fold (applyTo ws (if String.eqb (id l) (target w) then merge (patch w) l else l)).
    apply IH; [intros w' Hw'; apply Hall; right; exact Hw'|].
    destruct (String.eqb_spec (id l) (target w)) as [E|E].
    + left. cbn. rewrite (Hall w) by left. reflexivity.
    + destruct Hl as [Hl|(w' & Hw' & Ht)]; [left; exact Hl|].
      apply elem_of_cons in Hw' as [->|Hw']; [congruence|]. right. eauto.
Qed.

Lemma applyTo_linked_flight ws l :
  (forall w, w ∈ ws -> target w = id l ->
     set_linked_flight_id (patch w) = None
     \/ set_linked_flight_id (patch w) = linked_flight_id l) ->
  linked_flight_id (applyTo ws l) = linked_flight_id l.
Proof.
  revert l. induction ws as [|w ws IH]; intros l Hall; [reflexivity|].
  cbn [applyTo foldl].
  fold (applyTo ws (if String.eqb (id l) (target w) then merge (patch w) l else l)).
  assert (Hstep : linked_flight_id (if String.eqb (id l) (target w) then merge (patch w) l else l)
                  = linked_flight_id l
                  /\ id (if String.eqb (id l) (target w) then merge (patch w) l else l) = id l).
  { destruct (String.eqb_spec (id l) (target w)) as [E|E]; [|auto]. split; [|reflexivity].
    cbn. destruct (Hall w ltac:(left) (eq_sym E)) as [H|H]; rewrite H; [reflexivity|].
    destruct (linked_flight_id l); reflexivity. }
  destruct Hstep as [Hl Hi]. rewrite IH; [exact Hl|].
  intros w' Hw' Ht. rewrite Hl. apply Hall; [right; exact Hw' | congruence].
Qed.

(** The writes of a pass, read back: each comes from a flight that was
    neither verified nor at home and from the hotel found for it. *)
Lemma verifyHotels_writes now db w :
  w ∈ verifyHotels now db ->
  exists f m,
    f ∈ db /\ m ∈ db /\ travel_type f = flight /\ travel_type m = accommodation
    /\ hotelMatches f m = true
    /\ set_hotel_verification_status (patch w) = Some verified
    /\ ((target w = id f /\ set_linked_flight_id (patch w) = None)
        \/ (target w = id m /\ set_linked_flight_id (patch w) = Some (id f))).
Proof.
  unfold verifyHotels. rewrite list_elem_of_bind.
  intros (f & Hw & Hf). apply list_elem_of_filter in Hf as [Hty Hf].
  unfold verifyFlight in Hw.
  destruct (_ || _); [inversion Hw|].
  destruct (find (hotelMatches f) _) as [m|] eqn:Hfind; [|inversion Hw].
  apply find_some in Hfind as [Hm Hmatch].
  apply list_elem_of_In, list_elem_of_filter in Hm as [Hmty Hm].
  exists f, m. repeat (split; [assumption|]).
  apply elem_of_cons in Hw as [->|Hw]; [cbn; auto|].
  apply list_elem_of_singleton in Hw as ->. cbn. auto.
Qed.

Lemma verifyFlight_targets now hotels f :
  verifyFlight now hotels f = []
  \/ exists w, w ∈ verifyFlight now hotels f /\ target w = id f.
Proof.
  unfold verifyFlight. destruct (_ || _); [auto|].
  destruct (find _ _); [|auto]. right. eexists. split; [left|reflexivity].
Qed.

Lemma hotelMatches_split f h : hotelMatches f h = cityAndDate f h && freeFor f h.
Proof. reflexivity. Qed.

(** C8: on a collection whose documents have distinct ids, a second
    hotel-verification pass issues no write, so it leaves the state of the
    first pass as it is: every flight the first pass verified is skipped,
    and a flight it left unverified still finds no hotel. *)
Theorem verify_hotels_idempotent now1 now2 (db : Collection) :
  NoDup (id <$> db) ->
  let db1 := applyWrites db (verifyHotels now1 db) in
  verifyHotels now2 db1 = [] /\ applyWrites db1 (verifyHotels now2 db1) = db1.
Proof.
  intros Hnd db1.
  assert (Hnone : verifyHotels now2 db1 = []); [|rewrite Hnone; auto].
  subst db1. rewrite applyWrites_applyTo.
  set (ws := verifyHotels now1 db).
  assert (Hv : forall w, w ∈ ws -> set_hotel_verification_status (patch w) = Some verified).
  { intros w (f & m & _ & _ & _ & _ & _ & H & _)%verifyHotels_writes. exact H. }
  unfold verifyHotels at 1. apply bind_nil_all. intros f1 Hf1.
  apply list_elem_of_filter in Hf1 as [Hty1 Hf1].
  apply list_elem_of_fmap in Hf1 as (f & -> & Hf).
  destruct (applyTo_key ws f) as (Hid & Hty & Hcity & Hcountry & Hstart).
  unfold verifyFlight.
  destruct (bool_decide (hotel_verification_status (applyTo ws f) = Some verified)) eqn:Hver;
    [reflexivity|].
  rewrite isHomeLocation_applyTo. destruct (isHomeLocation f) eqn:Hhome; [reflexivity|].
  cbn [orb]. apply bool_decide_eq_false in Hver.
  assert (Hnotver : hotel_verification_status f <> Some verified).
  { intros H. apply Hver, applyTo_verified; auto. }
  assert (Hnotarget : forall w, w ∈ ws -> target w <> id f).
  { intros w Hw Ht. apply Hver, applyTo_verified; eauto. }
  assert (Hfl : f ∈ filter (fun l => travel_type l = flight) db).
  { apply list_elem_of_filter. split; [congruence | exact Hf]. }
  assert (Hfind : find (hotelMatches f) (filter (fun l => travel_type l = accommodation) db) = None).
  { destruct (verifyFlight_targets now1 (filter (fun l => travel_type l = accommodation) db) f)
      as [Hnil|(w & Hw & Ht)].
    - unfold verifyFlight in Hnil.
      rewrite Hhome, orb_false_r in Hnil.
      rewrite bool_decide_eq_false_2 in Hnil by exact Hnotver.
      destruct (find _ _); [discriminate | reflexivity].
    - exfalso. apply (Hnotarget w); [|exact Ht].
      unfold ws, verifyHotels. apply list_elem_of_bind. eauto. }
  rewrite find_none_all; [reflexivity|].
  intros h1 Hh1. apply list_elem_of_filter in Hh1 as [Hhty1 Hh1].
  apply list_elem_of_fmap in Hh1 as (h & -> & Hh).
  destruct (applyTo_key ws h) as (Hhid & Hhty & Hhcity & _ & Hhstart).
  assert (Hh0 : hotelMatches f h = false).
  { eapply find_none in Hfind; [exact Hfind|].
    apply list_elem_of_In, list_elem_of_filter. split; [congruence | exact Hh]. }
  destruct (hotelMatches (applyTo ws f) (applyTo ws h)) eqn:Hm1; [|reflexivity].
  exfalso. rewrite hotelMatches_split in Hh0, Hm1.
  assert (Hcd : cityAndDate (applyTo ws f) (applyTo ws h) = cityAndDate f h).
  { unfold cityAndDate. rewrite Hcity, Hhcity, Hstart, Hhstart. reflexivity. }
  rewrite Hcd in Hm1. apply andb_true_iff in Hm1 as [Hcd1 Hfree1].
  rewrite Hcd1 in Hh0. cbn [andb] in Hh0.
  unfold freeFor in Hh0. apply orb_false_iff in Hh0 as [Htr Hne].
  apply negb_false_iff in Htr. apply bool_decide_eq_false in Hne.
  assert (Hlink : linked_flight_id (applyTo ws h) = linked_flight_id h).
  { apply applyTo_linked_flight. intros w Hw Ht.
    apply verifyHotels_writes in Hw
      as (g & m & Hg & Hm & _ & Hmty & Hgm & _ & [[_ Hl]|[Htm Hl]]); [left; exact Hl|].
    right. rewrite Hl.
    assert (m = h) as -> by (eapply (NoDup_fmap_eq id db); eauto; congruence).
    rewrite hotelMatches_split in Hgm. apply andb_true_iff in Hgm as [_ Hgm].
    unfold freeFor in Hgm. rewrite Htr in Hgm. cbn [negb orb] in Hgm.
    apply bool_decide_eq_true in Hgm. congruence. }
  unfold freeFor in Hfree1. rewrite Hlink, Hid, Htr in Hfree1. cbn [negb orb] in Hfree1.
  apply bool_decide_eq_true in Hfree1. contradiction.
Qed.

Lemma verify_hotels_idempotent_witness :
  let db := [muscatFlightA; muscatFlightB; muscatHotel] in
  let db1 := applyWrites db (verifyHotels "2025-03-01T00:00:00.000Z" db) in
  verifyHotels "2025-03-02T00:00:00.000Z" db1 = []
  /\ applyWrites db1 (verifyHotels "2025-03-02T00:00:00.000Z" db1) = db1.
Proof.
  apply (verify_hotels_idempotent "2025-03-01T00:00:00.000Z" "2025-03-02T00:00:00.000Z"
           [muscatFlightA; muscatFlightB; muscatHotel]).
  apply (bool_decide_unpack _). vm_compute. exact I.
Defined.

(** *** Bridging *)


Lemma bridgeable_days arrival outbound :
  bridgeable arrival outbound = true ->
  truthy (return_flight_id outbound) = false
  /\ exists s e, parse_iso_day (start_date outbound) = Some s
                 /\ parse_iso_day (start_date arrival) = Some e
                 /\ s <= e /\ bridgedDays outbound arrival = Some (e - s + 1).
Proof.
  unfold bridgeable, bridgedDays, getTime. rewrite andb_true_iff, negb_true_iff.
  destruct (parse_iso_day (start_date outbound)) as [s|];
    cbn [fmap option_fmap option_map]; [|intros [? _]; discriminate].
  destruct (parse_iso_day (start_date arrival)) as [e|];
    cbn [fmap option_fmap option_map]; [|intros [? _]; discriminate].
  intros [Hle Hr]. split; [exact Hr|]. exists s, e.
  apply Z.leb_le in Hle.
  assert (Hse : s <= e) by (unfold msPerDay in Hle; lia).
  repeat split; [exact Hse|]. f_equal.
  replace (e * msPerDay - s * msPerDay) with ((e - s) * msPerDay) by lia.
  rewrite Qfloor_whole by reflexivity. lia.
Qed.

(** The order [sortBy] leaves: no element is followed by one it should
    come after. *)
Lemma insertSorted_HdRel {X} (gt : X -> X -> bool) (x y : X) (l : list X) :
  gt y x = false -> HdRel (fun a b => gt a b = false) y l ->
  HdRel (fun a b => gt a b = false) y (insertSorted gt x l).
Proof.
  intros Hyx Hl. destruct l as [|z l]; cbn; [constructor; exact Hyx|].
  destruct (gt x z); constructor; [|exact Hyx].
  inversion Hl; assumption.
Qed.

Lemma insertSorted_Sorted {X} (gt : X -> X -> bool) (x : X) (l : list X) :
  (forall a b, gt a b = true -> gt b a = false) ->
  Sorted (fun a b => gt a b = false) l ->
  Sorted (fun a b => gt a b = false) (insertSorted gt x l).
Proof.
  intros Hasym. induction l as [|y l IH]; intros Hs; cbn.
  - repeat constructor.
  - inversion Hs as [|? ? Hl Hhd]; subst. destruct (gt x y) eqn:E.
    + constructor; [apply IH; exact Hl|].
      apply insertSorted_HdRel; [apply Hasym; exact E | exact Hhd].
    + constructor; [exact Hs|]. constructor. exact E.
Qed.

Lemma sortBy_Sorted {X} (gt : X -> X -> bool) (l : list X) :
  (forall a b, gt a b = true -> gt b a = false) ->
  Sorted (fun a b => gt a b = false) (sortBy gt l).
Proof.
  intros Hasym. induction l as [|x l IH]; cbn; [constructor|].
  apply insertSorted_Sorted; assumption.
Qed.

Lemma laterStartAt_asym (allLogs : list TravelLog) (i j : nat) :
  laterStartAt allLogs i j = true -> laterStartAt allLogs j i = false.
Proof.
  unfold laterStartAt, laterStart.
  destruct (allLogs !! i) as [a|], (allLogs !! j) as [b|]; try discriminate.
  destruct (getTime (start_date a)), (getTime (start_date b)); try discriminate.
  rewrite Z.ltb_lt, Z.ltb_ge. lia.
Qed.

(** The open outbounds are in chronological order, so the loop scans them
    latest first. *)
Lemma openOutbounds_sorted (allLogs : list TravelLog) :
  Sorted (fun i j => laterStartAt allLogs i j = false) (openOutbounds allLogs).
Proof. unfold openOutbounds. apply sortBy_Sorted, laterStartAt_asym. Qed.

(** *** One-to-one pairing *)

Lemma bridgeWrites_key now o a o0 a0 :
  id o = id o0 -> start_date o = start_date o0 ->
  id a = id a0 -> start_date a = start_date a0 ->
  bridgeWrites now o a = bridgeWrites now o0 a0.
Proof. unfold bridgeWrites, bridgedDays. intros -> -> -> ->. reflexivity. Qed.

Lemma keyEq_refl ws : keyEq ws ws.
Proof. apply Forall_Forall2_diag, Forall_forall. auto. Qed.

Lemma keyEq_bridged (ws ws0 : list TravelLog) (a o : nat) ia io :
  keyEq ws ws0 ->
  keyEq (alter (setOutboundFlightId io) a (alter (setReturnFlightId ia) o ws)) ws0.
Proof.
  intros H. apply Forall2_alter_l; [apply Forall2_alter_l; [exact H|]|]; cbn; auto.
Qed.

Lemma lookup_bridged (ws : list TravelLog) (a o : nat) ia io (k : nat) l :
  alter (setOutboundFlightId io) a (alter (setReturnFlightId ia) o ws) !! k = Some l ->
  exists l0, ws !! k = Some l0
             /\ return_flight_id l = if decide (k = o) then Some ia else return_flight_id l0.
Proof.
  intros H.
  assert (H1 : exists l1, alter (setReturnFlightId ia) o ws !! k = Some l1
                          /\ return_flight_id l = return_flight_id l1).
  { destruct (decide (a = k)) as [->|Hne].
    - rewrite list_lookup_alter_eq in H. apply fmap_Some in H as (l1 & Hl1 & ->). eauto.
    - rewrite list_lookup_alter_ne in H by exact Hne. eauto. }
  destruct H1 as (l1 & Hl1 & ->).
  destruct (decide (k = o)) as [->|Hne].
  - rewrite list_lookup_alter_eq in Hl1. apply fmap_Some in Hl1 as (l0 & Hl0 & ->). eauto.
  - rewrite list_lookup_alter_ne in Hl1 by (intros E; apply Hne; auto). eauto.
Qed.

Lemma bridgeStep_cases now outbounds (ws : list TravelLog) (a : nat) :
  bridgeStep now outbounds ws a = (ws, [])
  \/ exists arrival o outbound,
       ws !! a = Some arrival /\ ws !! o = Some outbound /\ o ∈ outbounds
       /\ truthy (return_flight_id outbound) = false
       /\ bridgeStep now outbounds ws a
          = (alter (setOutboundFlightId (id outbound)) a
               (alter (setReturnFlightId (id arrival)) o ws),
             bridgeWrites now outbound arrival).
Proof.
  unfold bridgeStep.
  destruct (ws !! a) as [arrival|] eqn:Ha; [|auto].
  destruct (truthy (outbound_flight_id arrival)); [auto|].
  destruct (findOutbound ws outbounds arrival) as [o|] eqn:Hf; [|auto].
  destruct (ws !! o) as [outbound|] eqn:Ho; [|auto].
  right. exists arrival, o, outbound.
  unfold findOutbound in Hf. apply find_some in Hf as [Hin Hb].
  rewrite Ho in Hb. apply bridgeable_days in Hb as [Hr _].
  apply list_elem_of_In in Hin. rewrite elem_of_reverse in Hin. repeat split; auto.
Qed.

(** The loop, read as the list of (arrival, outbound) positions it
    bridges: the arrivals are taken in order from [todo], each outbound was
    unbridged when the loop started, and no outbound is taken twice. *)
Lemma bridgeLoop_pairs now outbounds (ws0 : list TravelLog) todo (ws : list TravelLog) :
  keyEq ws ws0 ->
  Forall (fun l => id l <> "") ws0 ->
  exists pairs : list (nat * nat),
    snd (bridgeLoop now outbounds ws todo) = pairs ≫= pairWrites now ws0
    /\ pairs.*1 `sublist_of` todo
    /\ (forall a o, (a, o) ∈ pairs ->
          is_Some (ws !! a) /\ o ∈ outbounds
          /\ exists l, ws !! o = Some l /\ truthy (return_flight_id l) = false)
    /\ NoDup pairs.*2.
Proof.
  intros Hkey Hids. revert ws Hkey.
  induction todo as [|a todo IH]; intros ws Hkey.
  - exists []. cbn. split; [reflexivity|]. split; [apply sublist_nil|].
    split; [intros a o H; inversion H | apply NoDup_nil_2].
  - cbn [bridgeLoop].
    destruct (bridgeStep_cases now outbounds ws a)
      as [Hstep|(arrival & o & outbound & Ha & Ho & Hin & Hr & Hstep)]; rewrite Hstep.
    + destruct (IH ws Hkey) as (pairs & Hw & Hsub & Hp & Hnd).
      destruct (bridgeLoop now outbounds ws todo) as [ws2 w2]. cbn [snd] in *.
      exists pairs. split; [exact Hw|]. split; [apply sublist_cons; exact Hsub|].
      split; [exact Hp | exact Hnd].
    + set (ws1 := alter (setOutboundFlightId (id outbound)) a
                    (alter (setReturnFlightId (id arrival)) o ws)).
      assert (Hkey1 : keyEq ws1 ws0) by (apply keyEq_bridged; exact Hkey).
      destruct (IH ws1 Hkey1) as (pairs & Hw & Hsub & Hp & Hnd).
      destruct (bridgeLoop now outbounds ws1 todo) as [ws2 w2]. cbn [snd] in *.
      destruct (Forall2_lookup_l _ _ _ _ _ Hkey Ha) as (arrival0 & Ha0 & Hai & Has).
      destruct (Forall2_lookup_l _ _ _ _ _ Hkey Ho) as (outbound0 & Ho0 & Hoi & Hos).
      assert (Hida : truthy (Some (id arrival)) = true).
      { rewrite Forall_forall in Hids. cbn. rewrite Hai.
        destruct (String.eqb_spec (id arrival0) ""); [|reflexivity].
        exfalso. eapply Hids; [eapply list_elem_of_lookup_2; exact Ha0 | assumption]. }
      assert (Hold : forall a' o', (a', o') ∈ pairs ->
                o' <> o /\ is_Some (ws !! a') /\ o' ∈ outbounds
                /\ exists l, ws !! o' = Some l /\ truthy (return_flight_id l) = false).
      { intros a' o' Hin'. destruct (Hp a' o' Hin') as ([la Hla] & Hino & l & Hl & Hlr).
        apply lookup_bridged in Hl as (l0 & Hl0 & Hret).
        apply lookup_bridged in Hla as (la0 & Hla0 & _).
        destruct (decide (o' = o)) as [->|Hne].
        - rewrite Hret in Hlr. congruence.
        - rewrite Hret in Hlr. eauto 10. }
      exists ((a, o) :: pairs). split; [|split; [|split]].
      * cbn [mbind list_bind]. rewrite Hw. f_equal.
        unfold pairWrites. cbn [fst snd]. rewrite Ha0, Ho0.
        apply bridgeWrites_key; assumption.
      * cbn. constructor. exact Hsub.
      * intros a' o' Hin'. apply elem_of_cons in Hin' as [[= -> ->]|Hin'].
        -- split; [eauto|]. split; [exact Hin|]. eauto.
        -- destruct (Hold a' o' Hin') as (_ & H1 & H2 & H3). auto.
      * cbn. constructor; [|exact Hnd].
        intros ((a', o') & Heq & Hin')%list_elem_of_fmap. cbn in Heq. subst o'.
        destruct (Hold a' o Hin') as [Hne _]. contradiction.
Qed.

Lemma applyTo_return ws l v :
  return_flight_id l = Some v
  \/ (exists w, w ∈ ws /\ target w = id l /\ set_return_flight_id (patch w) = Some v) ->
  (forall w, w ∈ ws -> target w = id l ->
     set_return_flight_id (patch w) = None \/ set_return_flight_id (patch w) = Some v) ->
  return_flight_id (applyTo ws l) = Some v.
Proof.
  revert l. induction ws as [|w ws IH]; intros l Hex Hall.
  - destruct Hex as [H|(w & Hw & _)]; [exact H | inversion Hw].
  - cbn [applyTo foldl].
    fold (applyTo ws (if String.eqb (id l) (target w) then merge (patch w) l else l)).
    assert (Hid : id (if String.eqb (id l) (target w) then merge (patch w) l else l) = id l)
      by (destruct (String.eqb (id l) (target w)); reflexivity).
    apply IH.
    + destruct (String.eqb_spec (id l) (target w)) as [E|E].
      * destruct Hex as [H|(w' & Hw' & Ht & Hs)].
        -- left. cbn. destruct (Hall w ltac:(left) (eq_sym E)) as [Hn|Hn]; rewrite Hn; auto.
        -- apply elem_of_cons in Hw' as [->|Hw'].
           ++ left. cbn. rewrite Hs. reflexivity.
           ++ right. exists w'. auto.
      * destruct Hex as [H|(w' & Hw' & Ht & Hs)]; [auto|].
        apply elem_of_cons in Hw' as [->|Hw']; [congruence|]. right. exists w'. auto.
    + intros w' Hw' Ht. apply Hall; [right; exact Hw' | congruence].
Qed.

Lemma applyTo_outbound ws l v :
  outbound_flight_id l = Some v
  \/ (exists w, w ∈ ws /\ target w = id l /\ set_outbound_flight_id (patch w) = Some v) ->
  (forall w, w ∈ ws -> target w = id l ->
     set_outbound_flight_id (patch w) = None \/ set_outbound_flight_id (patch w) = Some v) ->
  outbound_flight_id (applyTo ws l) = Some v.
Proof.
  revert l. induction ws as [|w ws IH]; intros l Hex Hall.
  - destruct Hex as [H|(w & Hw & _)]; [exact H | inversion Hw].
  - cbn [applyTo foldl].
    fold (applyTo ws (if String.eqb (id l) (target w) then merge (patch w) l else l)).
    assert (Hid : id (if String.eqb (id l) (target w) then merge (patch w) l else l) = id l)
      by (destruct (String.eqb (id l) (target w)); reflexivity).
    apply IH.
    + destruct (String.eqb_spec (id l) (target w)) as [E|E].
      * destruct Hex as [H|(w' & Hw' & Ht & Hs)].
        -- left. cbn. destruct (Hall w ltac:(left) (eq_sym E)) as [Hn|Hn]; rewrite Hn; auto.
        -- apply elem_of_cons in Hw' as [->|Hw'].
           ++ left. cbn. rewrite Hs. reflexivity.
           ++ right. exists w'. auto.
      * destruct Hex as [H|(w' & Hw' & Ht & Hs)]; [auto|].
        apply elem_of_cons in Hw' as [->|Hw']; [congruence|]. right. exists w'. auto.
    + intros w' Hw' Ht. apply Hall; [right; exact Hw' | congruence].
Qed.

Lemma idAt_lookup (ws0 : list TravelLog) (i : nat) l : ws0 !! i = Some l -> idAt ws0 i = id l.
Proof. unfold idAt. intros ->. reflexivity. Qed.

Lemma idAt_inj (ws0 : list TravelLog) (i j : nat) :
  NoDup (id <$> ws0) -> is_Some (ws0 !! i) -> is_Some (ws0 !! j) ->
  idAt ws0 i = idAt ws0 j -> i = j.
Proof.
  intros Hnd [li Hi] [lj Hj] E.
  rewrite (idAt_lookup _ _ _ Hi), (idAt_lookup _ _ _ Hj) in E.
  eapply NoDup_lookup; [exact Hnd | |]; rewrite list_lookup_fmap.
  - rewrite Hi. reflexivity.
  - rewrite Hj, E. reflexivity.
Qed.

Lemma links_of_pairs now (ws0 : list TravelLog) (pairs : list (nat * nat)) :
  (forall p, p ∈ pairs -> is_Some (ws0 !! p.1) /\ is_Some (ws0 !! p.2)) ->
  returnLinks (pairs ≫= pairWrites now ws0) = (fun p => (idAt ws0 p.2, idAt ws0 p.1)) <$> pairs
  /\ outboundLinks (pairs ≫= pairWrites now ws0) = (fun p => (idAt ws0 p.1, idAt ws0 p.2)) <$> pairs.
Proof.
  induction pairs as [|p pairs IH]; intros Hv; [split; reflexivity|].
  destruct (IH (fun q Hq => Hv q ltac:(right; exact Hq))) as [IH1 IH2].
  destruct (Hv p ltac:(left)) as [[la Ha] [lo Ho]].
  cbn [mbind list_bind fmap list_fmap]. unfold returnLinks, outboundLinks in *.
  rewrite !omap_app, IH1, IH2. unfold pairWrites. rewrite Ha, Ho.
  rewrite (idAt_lookup _ _ _ Ha), (idAt_lookup _ _ _ Ho). split; reflexivity.
Qed.

Lemma positions_NoDup P (allLogs : list TravelLog) : NoDup (positions P allLogs).
Proof. unfold positions. apply NoDup_filter, NoDup_seq. Qed.

Lemma arrivals_NoDup (allLogs : list TravelLog) : NoDup (arrivals allLogs).
Proof. unfold arrivals. rewrite sortBy_Permutation. apply positions_NoDup. Qed.

Lemma pairWrites_elem now (ws0 : list TravelLog) p w :
  w ∈ pairWrites now ws0 p ->
  exists arrival outbound,
    ws0 !! p.1 = Some arrival /\ ws0 !! p.2 = Some outbound
    /\ ((target w = id outbound /\ set_return_flight_id (patch w) = Some (id arrival)
         /\ set_outbound_flight_id (patch w) = None)
        \/ (target w = id arrival /\ set_return_flight_id (patch w) = None
            /\ set_outbound_flight_id (patch w) = Some (id outbound))).
Proof.
  unfold pairWrites.
  destruct (ws0 !! p.1) as [arrival|]; [|intros H; inversion H].
  destruct (ws0 !! p.2) as [outbound|]; [|intros H; inversion H].
  intros H. exists arrival, outbound. split; [reflexivity|]. split; [reflexivity|].
  apply elem_of_cons in H as [->|H]; [left; cbn; auto|].
  apply list_elem_of_singleton in H as ->. right. cbn. auto.
Qed.

(** C7: on a working set whose documents have distinct, non-empty ids, the
    links written by one bridging pass pair outbounds and arrivals one to
    one: no outbound receives two return flights, no arrival is the return
    flight of two outbounds, the arrival's [outbound_flight_id] and the
    outbound's [return_flight_id] are written together and name each
    other, and the collection after the pass holds both. *)
Theorem bridging_links_one_to_one now (allLogs : list TravelLog) :
  NoDup (id <$> allLogs) ->
  Forall (fun l => id l <> "") allLogs ->
  let writes := snd (bridgeFlights now allLogs) in
  let links := returnLinks writes in
  NoDup links.*1 /\ NoDup links.*2
  /\ outboundLinks writes = (fun p => (p.2, p.1)) <$> links
  /\ forall o a, (o, a) ∈ links ->
       exists lo la,
         lo ∈ applyWrites allLogs writes /\ la ∈ applyWrites allLogs writes
         /\ id lo = o /\ id la = a
         /\ return_flight_id lo = Some a /\ outbound_flight_id la = Some o.
Proof.
  intros Hnd Hids writes links. subst links writes. unfold bridgeFlights.
  destruct (bridgeLoop_pairs now (openOutbounds allLogs) allLogs (arrivals allLogs) allLogs
              (keyEq_refl allLogs) Hids) as (pairs & Hw & Hsub & Hp & Hnd2).
  rewrite Hw.
  assert (Hvalid : forall p, p ∈ pairs -> is_Some (allLogs !! p.1) /\ is_Some (allLogs !! p.2)).
  { intros [a o] Hin. destruct (Hp a o Hin) as (Ha & _ & l & Hl & _). cbn. eauto. }
  destruct (links_of_pairs now allLogs pairs Hvalid) as [Hret Hout].
  rewrite Hret, Hout.
  assert (Hnd1 : NoDup pairs.*1).
  { eapply sublist_NoDup; [apply arrivals_NoDup | exact Hsub]. }
  split; [|split; [|split]].
  - rewrite <- list_fmap_compose.
    apply NoDup_fmap_2_strong; [|eapply NoDup_fmap_1; exact Hnd2].
    intros p q Hp' Hq' E. cbn in E.
    apply (NoDup_fmap_eq snd pairs); auto.
    apply (idAt_inj allLogs); auto; apply Hvalid; assumption.
  - rewrite <- list_fmap_compose.
    apply NoDup_fmap_2_strong; [|eapply NoDup_fmap_1; exact Hnd1].
    intros p q Hp' Hq' E. cbn in E.
    apply (NoDup_fmap_eq fst pairs); auto.
    apply (idAt_inj allLogs); auto; apply Hvalid; assumption.
  - rewrite <- list_fmap_compose. reflexivity.
  - intros o_id a_id ([a o] & [= -> ->] & Hin)%list_elem_of_fmap. cbn [fst snd].
    destruct (Hvalid _ Hin) as [[la Hla] [lo Hlo]]. cbn [fst snd] in Hla, Hlo.
    rewrite (idAt_lookup _ _ _ Hla), (idAt_lookup _ _ _ Hlo).
    rewrite applyWrites_applyTo.
    set (ws := pairs ≫= pairWrites now allLogs).
    assert (Hwo : exists w, w ∈ ws /\ target w = id lo
                            /\ set_return_flight_id (patch w) = Some (id la)).
    { eexists. split; [apply list_elem_of_bind; exists (a, o); split; [|exact Hin]|].
      - unfold pairWrites. cbn [fst snd]. rewrite Hla, Hlo. left.
      - cbn. auto. }
    assert (Hwa : exists w, w ∈ ws /\ target w = id la
                            /\ set_outbound_flight_id (patch w) = Some (id lo)).
    { eexists. split; [apply list_elem_of_bind; exists (a, o); split; [|exact Hin]|].
      - unfold pairWrites. cbn [fst snd]. rewrite Hla, Hlo. right. left.
      - cbn. auto. }
    exists (applyTo ws lo), (applyTo ws la).
    destruct (applyTo_key ws lo) as (Hilo & _). destruct (applyTo_key ws la) as (Hila & _).
    split; [apply list_elem_of_fmap_2; eapply list_elem_of_lookup_2; exact Hlo|].
    split; [apply list_elem_of_fmap_2; eapply list_elem_of_lookup_2; exact Hla|].
    split; [exact Hilo|]. split; [exact Hila|]. split.
    + apply applyTo_return; [right; exact Hwo|].
      intros w (q & Hwq & Hq)%list_elem_of_bind Ht.
      apply pairWrites_elem in Hwq
        as (la' & lo' & Hla' & Hlo' & [(Ht' & Hs & _)|(_ & Hs & _)]); [|left; exact Hs].
      right. rewrite Hs. f_equal.
      assert (Eo : q.2 = o).
      { apply (idAt_inj allLogs); eauto.
        rewrite (idAt_lookup _ _ _ Hlo'), (idAt_lookup _ _ _ Hlo). congruence. }
      assert (Eq : q = (a, o)) by (apply (NoDup_fmap_eq snd pairs); auto).
      subst q. cbn [fst] in Hla'. congruence.
    + apply applyTo_outbound; [right; exact Hwa|].
      intros w (q & Hwq & Hq)%list_elem_of_bind Ht.
      apply pairWrites_elem in Hwq
        as (la' & lo' & Hla' & Hlo' & [(_ & _ & Hs)|(Ht' & _ & Hs)]); [left; exact Hs|].
      right. rewrite Hs. f_equal.
      assert (Ea : q.1 = a).
      { apply (idAt_inj allLogs); eauto.
        rewrite (idAt_lookup _ _ _ Hla'), (idAt_lookup _ _ _ Hla). congruence. }
      assert (Eq : q = (a, o)) by (apply (NoDup_fmap_eq fst pairs); auto).
      subst q. cbn [snd] in Hlo'. congruence.
Qed.

Lemma bridging_links_one_to_one_witness :
  returnLinks (snd (bridgeFlights "2025-03-01T00:00:00.000Z" scenarioB)) = [("o1", "r1")]
  /\ outboundLinks (snd (bridgeFlights "2025-03-01T00:00:00.000Z" scenarioB)) = [("r1", "o1")]
  /\ NoDup (returnLinks (snd (bridgeFlights "2025-03-01T00:00:00.000Z" scenarioB))).*1.
Proof.
  split; [vm_compute; reflexivity|]. split; [vm_compute; reflexivity|].
  apply (bridging_links_one_to_one "2025-03-01T00:00:00.000Z" scenarioB).
  - apply (bool_decide_unpack _). vm_compute. exact I.
  - repeat constructor; discriminate.
Defined.

End FirebaseProofs.

(** * Currency conversion and the rate cache *)

Module CurrencyFacts.
Import JS Currency CurrencyCache.

Lemma upper_lower_ascii (c : ascii) : upper_ascii (lower_ascii c) = upper_ascii c.
Proof. destruct c as [[] [] [] [] [] [] [] []]; vm_compute; reflexivity. Qed.

Lemma upper_upper_ascii (c : ascii) : upper_ascii (upper_ascii c) = upper_ascii c.
Proof. destruct c as [[] [] [] [] [] [] [] []]; vm_compute; reflexivity. Qed.

Lemma toUpperCase_toLowerCase (s : string) : toUpperCase (toLowerCase s) = toUpperCase s.
Proof.
  induction s as [|c s IH]; [reflexivity|].
  cbn. rewrite upper_lower_ascii. f_equal. exact IH.
Qed.

Lemma toUpperCase_idem (s : string) : toUpperCase (toUpperCase s) = toUpperCase s.
Proof.
  induction s as [|c s IH]; [reflexivity|].
  cbn. rewrite upper_upper_ascii. f_equal. exact IH.
Qed.

(** The currency code is read without regard to case: [aed], [Aed] and
    [AED] convert alike. *)
Lemma convert_ignores_case (amount : Q) (fromCurrency : string) (rates : gmap string Q) :
  convertToINR amount (toLowerCase fromCurrency) rates = convertToINR amount fromCurrency rates
  /\ convertToINR amount (toUpperCase fromCurrency) rates = convertToINR amount fromCurrency rates.
Proof.
  unfold convertToINR. rewrite toUpperCase_toLowerCase, toUpperCase_idem. split; reflexivity.
Qed.

(** X1: with a positive rate for a foreign currency the conversion is the
    binary64 quotient of the amount by the rate.  It keeps the order of
    amounts, and where the exact quotient is in the normal range of
    binary64 the result is finite and, multiplied by the rate, gives the
    amount back to within one part in 2^53. *)
Theorem convert_divides_by_rate (a b : Q) (fromCurrency : string) (rates : gmap string Q) (rate : Q) :
  toUpperCase fromCurrency <> "INR" ->
  rates !! toUpperCase fromCurrency = Some rate ->
  (0 < rate)%Q ->
  convertToINR a fromCurrency rates = fdiv (Num a) (Num rate)
  /\ ((a <= b)%Q ->
      num_le (convertToINR a fromCurrency rates) (convertToINR b fromCurrency rates) = true)
  /\ ((pow2 (-1022) <= a / rate)%Q -> (a / rate <= pow2 1023)%Q ->
      exists v, convertToINR a fromCurrency rates = Num v
                /\ (Qabs (v * rate - a) <= a * pow2 (-53))%Q).
Proof.
  intros Hne Hrate Hpos.
  assert (E : forall x, convertToINR x fromCurrency rates = fdiv (Num x) (Num rate)).
  { intros x. unfold convertToINR.
    destruct (String.eqb_spec (toUpperCase fromCurrency) "INR") as [E|_]; [contradiction|].
    rewrite Hrate.
    destruct (Qeq_bool rate 0) eqn:Ez; [apply Qeq_bool_eq in Ez; lra|reflexivity]. }
  split; [apply E|]. split.
  - intros Hab. rewrite !E. apply NumberFacts.fdiv_mono; assumption.
  - intros Hlo Hhi. rewrite E. unfold fdiv.
    destruct (Qeq_bool rate 0) eqn:Ez; [apply Qeq_bool_eq in Ez; lra|].
    destruct (NumberFacts.rnd_normal (a / rate) Hlo Hhi) as (v & Ev & Hv).
    exists v. split; [exact Ev|].
    assert (Ea : (a == a / rate * rate)%Q) by (field; lra).
    set (q := (a / rate)%Q) in *.
    change (pow2 (-53)) with (1 # 9007199254740992)%Q in *.
    apply Qabs_Qle_condition in Hv as [Hv1 Hv2].
    assert (H1 : (0 <= (v - q + q * (1 # 9007199254740992)) * rate)%Q)
      by (apply Qmult_le_0_compat; lra).
    assert (H2 : (0 <= (q * (1 # 9007199254740992) - (v - q)) * rate)%Q)
      by (apply Qmult_le_0_compat; lra).
    apply Qabs_Qle_condition. split; lra.
Qed.

Lemma convert_divides_by_rate_witness :
  convertToINR 500 "aed" {[ "AED" := literal (1 # 20) ]} = Num 10000
  /\ num_le (convertToINR 500 "aed" {[ "AED" := literal (1 # 20) ]})
            (convertToINR 600 "aed" {[ "AED" := literal (1 # 20) ]}) = true.
Proof.
  destruct (convert_divides_by_rate 500 600 "aed" {[ "AED" := literal (1 # 20) ]}
              (literal (1 # 20))) as (H1 & H2 & _).
  - vm_compute. discriminate.
  - vm_compute. reflexivity.
  - vm_compute. reflexivity.
  - split; [rewrite H1; vm_compute; reflexivity|]. apply H2. vm_compute. discriminate.
Defined.

(** The rate service answers nothing only on a first run without
    network: a failed refresh serves the stored rates, however old, and
    whatever is returned is what the store holds afterwards. *)
Lemma rates_missing_only_without_cache_and_network
    (cached : option ExchangeRates) (now fetchedAt : Z) (fetched : option (gmap string Q)) :
  (fst (getExchangeRates cached now fetchedAt fetched) = None <-> cached = None /\ fetched = None)
  /\ (fetched = None -> fst (getExchangeRates cached now fetchedAt fetched) = cached)
  /\ snd (getExchangeRates cached now fetchedAt fetched)
     = fst (getExchangeRates cached now fetchedAt fetched).
Proof.
  unfold getExchangeRates.
  destruct cached as [parsed|]; [destruct (now - timestamp parsed <? CACHE_DURATION)|];
    destruct fetched as [r|]; cbn; repeat split; try congruence; try tauto;
    intros [? ?]; congruence.
Qed.

(** X2: rates fetched when the store was empty or stale are served from
    the store, whatever a new request would give, for the next
    twenty-four hours. *)
Theorem rates_served_from_cache_for_a_day
    (cached : option ExchangeRates) (now fetchedAt : Z) (data_rates : gmap string Q)
    (now' fetchedAt' : Z) (fetched' : option (gmap string Q)) :
  (forall parsed, cached = Some parsed -> CACHE_DURATION <= now - timestamp parsed) ->
  now' - fetchedAt < CACHE_DURATION ->
  let first := getExchangeRates cached now fetchedAt (Some data_rates) in
  fst first = Some {| rates := data_rates; timestamp := fetchedAt |}
  /\ getExchangeRates (snd first) now' fetchedAt' fetched' = (fst first, snd first).
Proof.
  intros Hstale Hfresh. cbv zeta.
  assert (E : getExchangeRates cached now fetchedAt (Some data_rates)
              = (Some {| rates := data_rates; timestamp := fetchedAt |},
                 Some {| rates := data_rates; timestamp := fetchedAt |})).
  { unfold getExchangeRates. destruct cached as [parsed|]; [|reflexivity].
    assert (F : (now - timestamp parsed <? CACHE_DURATION) = false).
    { apply Z.ltb_ge. apply Hstale. reflexivity. }
    rewrite F. reflexivity. }
  rewrite E. cbn [fst snd]. split; [reflexivity|].
  unfold getExchangeRates. cbn [timestamp].
  apply Z.ltb_lt in Hfresh. rewrite Hfresh. reflexivity.
Qed.

Lemma rates_served_from_cache_for_a_day_witness :
  getExchangeRates
    (snd (getExchangeRates (Some {| rates := ∅; timestamp := 0 |}) 90000000 90000001
            (Some {[ "AED" := 1 # 20 ]})))
    176400000 176400000 None
  = (Some {| rates := {[ "AED" := 1 # 20 ]}; timestamp := 90000001 |},
     Some {| rates := {[ "AED" := 1 # 20 ]}; timestamp := 90000001 |}).
Proof.
  apply (rates_served_from_cache_for_a_day (Some {| rates := ∅; timestamp := 0 |})
           90000000 90000001 {[ "AED" := 1 # 20 ]} 176400000 176400000 None).
  - intros parsed H. injection H as <-. vm_compute. discriminate.
  - vm_compute. reflexivity.
Defined.

End CurrencyFacts.

(** * The audit memo: validation, fallback, classification, report *)

Module ReconcilerFacts.
Import JS Currency Reconciler ReconcilerSpec ListFacts ReconcilerProofs.

Lemma length_filter_impl {X} (P Q : X -> Prop) `{!forall x, Decision (P x)}
    `{!forall x, Decision (Q x)} (l : list X) :
  (forall x, P x -> Q x) -> (length (filter P l) <= length (filter Q l))%nat.
Proof.
  intros HPQ. induction l as [|x l IH]; [reflexivity|].
  rewrite !filter_cons. destruct (decide (P x)) as [HP|HP].
  - destruct (decide (Q x)) as [HQ|HQ]; [cbn; lia|]. exfalso. apply HQ, HPQ, HP.
  - destruct (decide (Q x)); cbn; lia.
Qed.

Lemma fd_matched_fallback expenses reconciliation exchangeData period auditBank :
  fd_matched (filteredData expenses reconciliation exchangeData period auditBank)
  = matchedPairs (fallback expenses reconciliation exchangeData period auditBank).
Proof.
  unfold filteredData. destruct (classified _ _ _ _ _) as [[m s] o]. reflexivity.
Qed.

Lemma classify_filters exchangeData (l : list Expense) m0 s0 o0 :
  foldl (classifyStep exchangeData) (m0, s0, o0) l
  = (m0 ++ filter (fun e => isMandatory e) l,
     s0 ++ filter (fun e => negb (isMandatory e) && negb (isOptional exchangeData e)) l,
     o0 ++ filter (fun e => negb (isMandatory e) && isOptional exchangeData e) l).
Proof.
  revert m0 s0 o0. induction l as [|x l IH]; intros m0 s0 o0; cbn [foldl].
  - rewrite !app_nil_r. reflexivity.
  - unfold classifyStep at 2. rewrite !filter_cons.
    destruct (isMandatory x) eqn:Em; [|destruct (isOptional exchangeData x) eqn:Eo];
      rewrite IH; cbn; rewrite <- ?app_assoc; reflexivity.
Qed.

Lemma missing_lists expenses reconciliation exchangeData period auditBank :
  let fd := filteredData expenses reconciliation exchangeData period auditBank in
  let remainder := finalUnmatchedBankTx expenses reconciliation exchangeData period auditBank in
  mandatoryMissing fd = filter (fun e => isMandatory e) remainder
  /\ standardMissing fd
     = filter (fun e => negb (isMandatory e) && negb (isOptional exchangeData e)) remainder
  /\ optionalMissing fd
     = filter (fun e => negb (isMandatory e) && isOptional exchangeData e) remainder.
Proof.
  cbv zeta. unfold filteredData, classified. rewrite classify_filters.
  cbn. repeat split; reflexivity.
Qed.

Lemma fallback_receipts exchangeData (todo : list Expense) (st : Fallback) :
  let final := foldl (fallbackStep exchangeData) st todo in
  exists F : list Pair,
    matchedPairs final = matchedPairs st ++ F
    /\ (pair_receipt <$> F) ++ availableReceipts final ≡ₚ availableReceipts st
    /\ matchedBankIds st ⊆ matchedBankIds final
    /\ Forall (fun p => autoMatches exchangeData (pair_bank p) (pair_receipt p) = true
                        /\ pair_bank p ∈ todo
                        /\ pair_label p = Some "AUTO-VERIFIED (Forensic Match)") F
    /\ (forall b, b ∈ todo -> id b ∉ matchedBankIds final ->
          forall r, r ∈ availableReceipts final -> autoMatches exchangeData b r = false).
Proof.
  cbv zeta. revert st. induction todo as [|b todo IH]; intros st; cbn [foldl].
  - exists []. rewrite app_nil_r. cbn. repeat split; try reflexivity; try constructor.
    intros b Hb. inversion Hb.
  - unfold fallbackStep at 2 4 6 8 10.
    destruct (list_find _ (availableReceipts st)) as [[idx r]|] eqn:Hf.
    + destruct (IH {| matchedPairs := matchedPairs st ++
           [{| pair_bank := b; pair_receipt := r;
               pair_label := Some "AUTO-VERIFIED (Forensic Match)";
               pair_summary := Some "Verified via ±3 day clearance window heuristic match." |}];
         matchedBankIds := {[ id b ]} ∪ matchedBankIds st;
         availableReceipts := delete idx (availableReceipts st) |})
        as (F & HF & HP & HM & Hall & Hnone).
      cbn [matchedPairs matchedBankIds availableReceipts] in *.
      apply list_find_Some in Hf as (Hl & Hr & _).
      eexists (_ :: F). rewrite HF, <- app_assoc. split; [reflexivity|].
      split.
      { cbn [fmap list_fmap pair_receipt app]. rewrite HP. symmetry.
        apply delete_Permutation. exact Hl. }
      split.
      { intros k Hk. apply HM, elem_of_union_r, Hk. }
      split.
      { constructor.
        - cbn. split; [apply Is_true_true; exact Hr|]. split; [left|reflexivity].
        - eapply Forall_impl; [exact Hall|]. cbn. intros p (H1 & H2 & H3).
          split; [exact H1|]. split; [right; exact H2|exact H3]. }
      intros b' Hb' Hnot. apply elem_of_cons in Hb' as [->|Hb'].
      * exfalso. apply Hnot, HM, elem_of_union_l, elem_of_singleton. reflexivity.
      * apply Hnone; assumption.
    + destruct (IH st) as (F & HF & HP & HM & Hall & Hnone).
      exists F. split; [exact HF|]. split; [exact HP|]. split; [exact HM|].
      split.
      { eapply Forall_impl; [exact Hall|]. cbn. intros p (H1 & H2 & H3).
        split; [exact H1|]. split; [right; exact H2|exact H3]. }
      intros b' Hb' Hnot r Hr. apply elem_of_cons in Hb' as [->|Hb'].
      * apply list_find_None in Hf. rewrite Forall_forall in Hf.
        assert (Hin : r ∈ availableReceipts st).
        { rewrite <- HP. apply elem_of_app. right. exact Hr. }
        specialize (Hf r Hin). destruct (autoMatches exchangeData b r); [|reflexivity].
        exfalso. apply Hf. exact I.
      * apply Hnone; assumption.
Qed.

Section Audit.
Variable expenses : list Expense.
Variable reconciliation : option ReconciliationResult.
Variable exchangeData : option ExchangeRates.
Variable period : Period.
Variable auditBank : string.

Local Abbreviation fd := (filteredData expenses reconciliation exchangeData period auditBank).
Local Abbreviation advisory := (advisoryPairs expenses reconciliation exchangeData period auditBank).
Local Abbreviation init := (fallbackInit expenses reconciliation exchangeData period auditBank).
Local Abbreviation pool := (allAnchorsInPeriod expenses period auditBank).
Local Abbreviation proposals :=
  (match reconciliation with Some r => matched r | None => [] end).

(** X3: an advisory proposal that reaches the matched set passed every
    deterministic rule: amount parity, merchant match, and, when both
    dates are valid, a gap of at most 7 days (14 for a hotel).  Its label
    and summary are those of the proposal. *)
Theorem advisory_pair_passes_rules (p : Pair) :
  p ∈ advisory ->
  sameAmt exchangeData (pair_bank p) (pair_receipt p) = true
  /\ mercMatch (pair_bank p) (pair_receipt p) = true
  /\ (forall d, diffDays (date (pair_bank p)) (date (pair_receipt p)) = Some d ->
        (d <= inject_Z (if isHotel (pair_bank p) (pair_receipt p) then 14 else 7))%Q)
  /\ exists m, m ∈ proposals /\ bankId m = Some (id (pair_bank p))
               /\ pair_label p = proofLabel m /\ pair_summary p = summary m.
Proof.
  unfold advisoryPairs. rewrite list_elem_of_filter, list_elem_of_omap.
  intros [_ (m & Hm & Hv)].
  pose proof (validate_Some _ _ _ _ Hv) as (Hb & _).
  unfold validate in Hv.
  destruct (if truthy (bankId m) then _ else _) as [b|]; [|discriminate].
  destruct (if truthy (or_opt _ _) then _ else _) as [r|]; [|discriminate].
  destruct (String.eqb (id b) (id r) || isAnchor r); [discriminate|].
  destruct (diffDays (date b) (date r)) as [d|] eqn:Ed.
  - destruct (Qlt_bool (inject_Z (if isHotel b r then 14 else 7)) d) eqn:Efar; [discriminate|].
    destruct (sameAmt exchangeData b r) eqn:Es; [|discriminate].
    destruct (mercMatch b r) eqn:Em; [|discriminate].
    cbn in Hv. injection Hv as <-. cbn [pair_bank pair_receipt pair_label pair_summary] in *.
    split; [exact Es|]. split; [exact Em|]. split.
    + intros d' Hd. rewrite Ed in Hd. injection Hd as <-.
      apply Qnot_lt_le. intros Hlt. apply Qlt_bool_iff in Hlt. congruence.
    + exists m. repeat split; auto.
  - destruct (sameAmt exchangeData b r) eqn:Es; [|discriminate].
    destruct (mercMatch b r) eqn:Em; [|discriminate].
    cbn in Hv. injection Hv as <-. cbn [pair_bank pair_receipt pair_label pair_summary] in *.
    split; [exact Es|]. split; [exact Em|]. split.
    + intros d' Hd. rewrite Ed in Hd. discriminate.
    + exists m. repeat split; auto.
Qed.

Lemma fallback_uses_each_proof_once_aux :
  exists F : list Pair,
    fd_matched fd = advisory ++ F
    /\ (pair_receipt <$> F) ⊆+ availableReceipts init
    /\ Forall (fun p => autoMatches exchangeData (pair_bank p) (pair_receipt p) = true
                        /\ pair_bank p ∈ pool
                        /\ pair_label p = Some "AUTO-VERIFIED (Forensic Match)") F.
Proof.
  destruct (fallback_receipts exchangeData
              (unmatchedAnchors expenses reconciliation exchangeData period auditBank) init)
    as (F & HF & HP & _ & Hall & _).
  exists F. rewrite fd_matched_fallback. unfold fallback. split; [exact HF|].
  split; [rewrite <- HP; apply submseteq_inserts_r; reflexivity|].
  eapply Forall_impl; [exact Hall|]. cbn. intros p (H1 & H2 & H3).
  split; [exact H1|]. split; [|exact H3].
  apply (unmatchedAnchors_scope _ _ _ _ _ _ H2).
Qed.

(** X5: the fallback consumes a proof when it uses it: the pairs it adds
    take their receipts from the available proofs, each occurrence at
    most once, so with distinct expense ids no proof backs two of them;
    none of these receipts carries the id of the receipt of an advisory
    pair; and each added pair passed [autoMatches] and is labelled as an
    automatic match. *)
Theorem fallback_uses_each_proof_once :
  exists F : list Pair,
    fd_matched fd = advisory ++ F
    /\ (pair_receipt <$> F) ⊆+ availableReceipts init
    /\ (NoDup (id <$> expenses) -> NoDup (id <$> (pair_receipt <$> F)))
    /\ (forall p q, p ∈ F -> q ∈ advisory -> id (pair_receipt q) <> id (pair_receipt p))
    /\ Forall (fun p => autoMatches exchangeData (pair_bank p) (pair_receipt p) = true
                        /\ pair_bank p ∈ pool
                        /\ pair_label p = Some "AUTO-VERIFIED (Forensic Match)") F.
Proof.
  destruct fallback_uses_each_proof_once_aux as (F & HF & Hsub & Hall).
  exists F. split; [exact HF|]. split; [exact Hsub|]. split; [|split; [|exact Hall]].
  - intros Hnd.
    assert (Hids : (id <$> (pair_receipt <$> F)) ⊆+ (id <$> expenses)).
    { apply fmap_submseteq. etrans; [exact Hsub|].
      apply sublist_submseteq. cbn [fallbackInit availableReceipts]. apply sublist_filter. }
    apply submseteq_Permutation in Hids as [k Hk]. rewrite Hk in Hnd.
    apply NoDup_app in Hnd. tauto.
  - intros p q Hp Hq E.
    assert (Hin : pair_receipt p ∈ availableReceipts init).
    { eapply elem_of_submseteq; [|exact Hsub]. apply list_elem_of_fmap_2. exact Hp. }
    cbn [fallbackInit availableReceipts] in Hin.
    apply list_elem_of_filter in Hin as [Hin _].
    apply Is_true_true, andb_true_iff in Hin as [_ Hin].
    apply negb_true_iff in Hin.
    assert (Hex : existsb (fun p0 => String.eqb (id (pair_receipt p0)) (id (pair_receipt p))) advisory = true).
    { apply existsb_exists. exists q. split; [apply list_elem_of_In; exact Hq|].
      apply String.eqb_eq. exact E. }
    congruence.
Qed.

(** X6: an anchor reported missing has no usable proof left: no expense that
    is not an anchor and is not the receipt of a matched pair passes
    [autoMatches] against it. *)
Theorem missing_anchor_has_no_proof_left (b r : Expense) :
  b ∈ mandatoryMissing fd ++ standardMissing fd ++ optionalMissing fd ->
  r ∈ expenses ->
  isAnchor r = false ->
  (forall p, p ∈ fd_matched fd -> id (pair_receipt p) <> id r) ->
  autoMatches exchangeData b r = false.
Proof.
  intros Hb Hr Hproof Hfree.
  destruct (missing_lists expenses reconciliation exchangeData period auditBank) as (Hm & Hs & Ho).
  cbv zeta in Hm, Hs, Ho. rewrite Hm, Hs, Ho in Hb.
  assert (HbU : b ∈ finalUnmatchedBankTx expenses reconciliation exchangeData period auditBank).
  { rewrite !elem_of_app, !list_elem_of_filter in Hb. tauto. }
  clear Hb Hm Hs Ho.
  rewrite fd_matched_fallback in Hfree.
  unfold finalUnmatchedBankTx, fallback in *.
  destruct (fallback_receipts exchangeData
              (unmatchedAnchors expenses reconciliation exchangeData period auditBank) init)
    as (F & HF & HP & HM & _ & Hnone).
  apply list_elem_of_filter in HbU as [Hnot HbS].
  apply Hnone; [|exact Hnot|].
  - unfold unmatchedAnchors. apply list_elem_of_filter. split; [|exact HbS].
    intros Hin. apply Hnot, HM, Hin.
  - assert (Hin : r ∈ availableReceipts init).
    { cbn [fallbackInit availableReceipts]. apply list_elem_of_filter. split; [|exact Hr].
      apply Is_true_true, andb_true_iff. split; [rewrite Hproof; reflexivity|].
      apply negb_true_iff. apply not_true_is_false. intros Hex.
      apply existsb_exists in Hex as (q & Hq & E).
      apply String.eqb_eq in E. apply (Hfree q); [|exact E].
      rewrite HF. apply elem_of_app. left. apply list_elem_of_In. exact Hq. }
    rewrite <- HP in Hin. apply elem_of_app in Hin as [Hin|Hin]; [|exact Hin].
    apply list_elem_of_fmap in Hin as (p & -> & Hp).
    exfalso. apply (Hfree p); [|reflexivity].
    rewrite HF. apply elem_of_app. right. exact Hp.
Qed.

(** The three missing lists are the unmatched anchors sorted by
    precedence, in their order: mandatory first, then optional among
    the rest, then standard. *)
Lemma missing_lists_by_precedence :
  let remainder := finalUnmatchedBankTx expenses reconciliation exchangeData period auditBank in
  mandatoryMissing fd = filter (fun e => isMandatory e) remainder
  /\ optionalMissing fd
     = filter (fun e => negb (isMandatory e) && isOptional exchangeData e) remainder
  /\ standardMissing fd
     = filter (fun e => negb (isMandatory e) && negb (isOptional exchangeData e)) remainder.
Proof.
  destruct (missing_lists expenses reconciliation exchangeData period auditBank) as (Hm & Hs & Ho).
  cbv zeta in *. auto.
Qed.

Lemma report_counts_total :
  let s := report_summary (fullReport fd) in
  total_unmatched s = (mandatory_error_count s + warning_count s + optional_count s)%nat
  /\ matchedCount (stats fd) = length (fd_matched fd).
Proof.
  cbv zeta. unfold filteredData.
  destruct (classified _ _ _ _ _) as [[m s] o] eqn:Hc.
  cbn [fullReport report_summary total_unmatched mandatory_error_count warning_count
       optional_count stats matchedCount fd_matched].
  apply classify_fold in Hc. cbn [app] in Hc.
  apply Permutation_length in Hc. rewrite !length_app in Hc.
  split; [lia|reflexivity].
Qed.

(** X8: the counts of the report agree with one another: the unmatched
    total is the sum of the three missing lists and is at most the
    number of anchors in scope, which is at most the number of anchors
    in the vault; the matched total is the number of matched pairs. *)
Theorem report_counts_add_up :
  let report := fullReport (filteredData expenses reconciliation exchangeData period auditBank) in
  let counts := stats (filteredData expenses reconciliation exchangeData period auditBank) in
  let s := report_summary report in
  total_unmatched s = (mandatory_error_count s + warning_count s + optional_count s)%nat
  /\ (total_unmatched s <= totalBankTx counts)%nat
  /\ (totalBankTx counts <= totalVault counts)%nat
  /\ total_matched s = matchedCount counts
  /\ total_matched s = length (matched_transactions report).
Proof.
  cbv zeta. unfold filteredData.
  destruct (classified _ _ _ _ _) as [[m s] o] eqn:Hc.
  cbn [fullReport report_summary total_unmatched mandatory_error_count warning_count
       optional_count stats totalBankTx totalVault total_matched matchedCount matched_transactions].
  apply classify_fold in Hc. cbn [app] in Hc.
  apply Permutation_length in Hc. rewrite !length_app in Hc.
  split; [lia|]. split; [|split; [|split]].
  - unfold finalUnmatchedBankTx. apply length_filter.
  - unfold allAnchorsInPeriod, totalVaultAnchors. apply length_filter_impl.
    intros e He. apply Is_true_true in He. apply Is_true_true.
    rewrite !andb_true_iff in *. tauto.
  - reflexivity.
  - rewrite length_fmap. reflexivity.
Qed.

(** With distinct ids, the id lookup of the memo finds every expense
    that has an id. *)
Lemma expense_found_by_id (e : Expense) :
  NoDup (id <$> expenses) -> e ∈ expenses -> id e <> "" ->
  expenseMap expenses !! id e = Some e.
Proof.
  unfold expenseMap. 
  assert (G : forall (l : list Expense) (m0 : gmap string Expense), NoDup (id <$> l) -> e ∈ l -> id e <> "" ->
            foldl (fun m e => if truthy (Some (id e)) then <[id e := e]> m else m) m0 l !! id e = Some e).
  { intros l. induction l as [|x l IH] using rev_ind; intros m0 Hnd Hin Hne; [inversion Hin|].
    rewrite foldl_app. cbn [foldl].
    rewrite fmap_app in Hnd. apply NoDup_app in Hnd as (Hl & Hx & _).
    apply elem_of_app in Hin as [Hin|Hin].
    - assert (id x <> id e).
      { intros E. apply (Hx (id e)); [apply list_elem_of_fmap_2; exact Hin|].
        rewrite <- E. cbn. left. }
      destruct (truthy (Some (id x))); [rewrite lookup_insert_ne by assumption|]; apply IH; auto.
    - apply list_elem_of_singleton in Hin. subst x.
      assert (T : truthy (Some (id e)) = true).
      { cbn. destruct (String.eqb_spec (id e) ""); [contradiction|reflexivity]. }
      rewrite T. apply lookup_insert_eq. }
  apply G.
Qed.

(** X4: what holds of every matched pair of a run.  Both sides are
    records of the expense list; the receipt side is never an anchor and
    never the record on the bank side; and a pair that does not come
    from the advisory matcher has an in-scope anchor on its bank side. *)
Theorem matched_pairs_keep_their_roles (p : Pair) :
  p ∈ fd_matched fd ->
  pair_bank p ∈ expenses /\ pair_receipt p ∈ expenses
  /\ isAnchor (pair_receipt p) = false
  /\ pair_bank p <> pair_receipt p
  /\ (p ∈ advisory \/ (isAnchor (pair_bank p) = true /\ pair_bank p ∈ pool)).
Proof.
  intros Hp.
  pose proof (matched_pair_roles expenses reconciliation exchangeData period auditBank p Hp)
    as (Hr & Hne & Hside).
  assert (Hin : pair_bank p ∈ expenses /\ pair_receipt p ∈ expenses).
  { destruct fallback_uses_each_proof_once_aux as (F & HF & Hsub & Hall).
    rewrite HF in Hp. apply elem_of_app in Hp as [Hp|Hp].
    - unfold advisoryPairs in Hp. apply list_elem_of_filter in Hp as [_ Hp].
      apply list_elem_of_omap in Hp as (m & _ & Hv).
      apply validate_Some in Hv as (_ & Hb & Hrc & _). auto.
    - rewrite Forall_forall in Hall. destruct (Hall p Hp) as (_ & Hpool & _). split.
      + unfold allAnchorsInPeriod in Hpool. apply list_elem_of_filter in Hpool. tauto.
      + assert (Hav : pair_receipt p ∈ availableReceipts init).
        { eapply elem_of_submseteq; [|exact Hsub]. apply list_elem_of_fmap_2. exact Hp. }
        cbn [fallbackInit availableReceipts] in Hav. apply list_elem_of_filter in Hav. tauto. }
  tauto.
Qed.

(** X7: when the in-scope anchors have distinct ids, the proposals name
    distinct bank ids and every advisory pair has an anchor on its bank
    side, the bank sides of the matched pairs and the three missing
    lists are a rearrangement of the anchor pool, so that the matched
    and the missing counts add up to the number of anchors in scope. *)
Theorem anchor_pool_is_partitioned :
  NoDup (id <$> pool) ->
  NoDup (omap bankId proposals) ->
  (forall p, p ∈ advisory -> isAnchor (pair_bank p) = true) ->
  (pair_bank <$> fd_matched fd) ++ mandatoryMissing fd ++ optionalMissing fd ++ standardMissing fd
  ≡ₚ pool
  /\ (matchedCount (stats fd) + total_unmatched (report_summary (fullReport fd)))%nat
     = totalBankTx (stats fd).
Proof.
  intros H1 H2 H3.
  pose proof (anchor_pool_partition expenses reconciliation exchangeData period auditBank H1 H2 H3)
    as Hperm.
  cbv zeta in Hperm. split; [exact Hperm|].
  apply Permutation_length in Hperm. rewrite !length_app, length_fmap in Hperm.
  destruct report_counts_total as [Hsum Hm].
  rewrite Hsum, Hm. unfold filteredData in *.
  destruct (classified _ _ _ _ _) as [[m s] o].
  cbn [fd_matched mandatoryMissing optionalMissing standardMissing stats totalBankTx
       fullReport report_summary mandatory_error_count warning_count optional_count] in *.
  lia.
Qed.

End Audit.

Lemma advisory_pair_passes_rules_witness :
  sameAmt None flydubaiAnchor flydubaiReceipt = true
  /\ mercMatch flydubaiAnchor flydubaiReceipt = true.
Proof.
  pose proof (advisory_pair_passes_rules [flydubaiAnchor; flydubaiReceipt; flydubaiEmail]
                (Some Samples.anchorWithProof) None march2025 "All Accounts" Samples.anchorProofPair)
    as H.
  assert (E : advisoryPairs [flydubaiAnchor; flydubaiReceipt; flydubaiEmail]
                (Some Samples.anchorWithProof) None march2025 "All Accounts"
              = [Samples.anchorProofPair]) by (vm_compute; reflexivity).
  rewrite E in H. destruct (H ltac:(left)) as (H1 & H2 & _).
  split; [exact H1|exact H2].
Defined.

Lemma missing_anchor_has_no_proof_left_witness :
  autoMatches None aed500_05 flydubaiEmail = false.
Proof.
  apply (missing_anchor_has_no_proof_left
           [flydubaiAnchor; aed500_05; flydubaiReceipt; flydubaiEmail]
           None None march2025 "All Accounts").
  - assert (E : standardMissing (filteredData [flydubaiAnchor; aed500_05; flydubaiReceipt; flydubaiEmail]
                                   None None march2025 "All Accounts")
                = [aed500_05]) by (vm_compute; reflexivity).
    rewrite E. apply elem_of_app. right. apply elem_of_app. left. left.
  - right. right. right. left.
  - vm_compute. reflexivity.
  - assert (E : fd_matched (filteredData [flydubaiAnchor; aed500_05; flydubaiReceipt; flydubaiEmail]
                              None None march2025 "All Accounts")
                = [Samples.autoPair]) by (vm_compute; reflexivity).
    rewrite E. intros p Hp. apply list_elem_of_singleton in Hp as ->. discriminate.
Defined.

Lemma matched_pairs_keep_their_roles_witness :
  isAnchor flydubaiReceipt = false
  /\ flydubaiAnchor <> flydubaiReceipt.
Proof.
  pose proof (matched_pairs_keep_their_roles [flydubaiAnchor; flydubaiReceipt; flydubaiEmail]
                None None march2025 "All Accounts" Samples.autoPair) as H.
  assert (E : fd_matched (filteredData [flydubaiAnchor; flydubaiReceipt; flydubaiEmail]
                            None None march2025 "All Accounts")
              = [Samples.autoPair]) by (vm_compute; reflexivity).
  rewrite E in H. destruct (H ltac:(left)) as (_ & _ & H1 & H2 & _).
  split; [exact H1|exact H2].
Defined.

Lemma anchor_pool_is_partitioned_witness :
  (pair_bank <$> fd_matched (filteredData [flydubaiAnchor; flydubaiReceipt; flydubaiEmail]
                               (Some Samples.anchorWithProof) None march2025 "All Accounts"))
  ++ mandatoryMissing (filteredData [flydubaiAnchor; flydubaiReceipt; flydubaiEmail]
                         (Some Samples.anchorWithProof) None march2025 "All Accounts")
  ++ optionalMissing (filteredData [flydubaiAnchor; flydubaiReceipt; flydubaiEmail]
                        (Some Samples.anchorWithProof) None march2025 "All Accounts")
  ++ standardMissing (filteredData [flydubaiAnchor; flydubaiReceipt; flydubaiEmail]
                        (Some Samples.anchorWithProof) None march2025 "All Accounts")
  ≡ₚ allAnchorsInPeriod [flydubaiAnchor; flydubaiReceipt; flydubaiEmail] march2025 "All Accounts".
Proof.
  apply (anchor_pool_is_partitioned [flydubaiAnchor; flydubaiReceipt; flydubaiEmail]
           (Some Samples.anchorWithProof) None march2025 "All Accounts").
  - apply (bool_decide_unpack _). vm_compute. exact I.
  - apply (bool_decide_unpack _). vm_compute. exact I.
  - assert (E : advisoryPairs [flydubaiAnchor; flydubaiReceipt; flydubaiEmail]
                  (Some Samples.anchorWithProof) None march2025 "All Accounts"
                = [Samples.anchorProofPair]) by (vm_compute; reflexivity).
    rewrite E. intros p Hp. apply list_elem_of_singleton in Hp. subst p.
    vm_compute. reflexivity.
Defined.

End ReconcilerFacts.

(** * The period filter on ISO dates *)

Module PeriodFacts.
Import JS Reconciler.

Lemma digit_of_facts (c : ascii) (d : Z) :
  digit_of c = Some d ->
  is_space c = false /\ Ascii.eqb (lower_ascii c) "x" = false
  /\ c <> "-"%char /\ c <> "+"%char /\ (c = "0"%char \/ c <> "0"%char).
Proof.
  destruct c as [[] [] [] [] [] [] [] []]; vm_compute; intros H; try discriminate H;
    repeat split; try discriminate; try reflexivity; auto; right; discriminate.
Qed.

Lemma digits_prefix_all_digits (s : string) (acc v : Z) :
  all_digits acc s = Some v -> digits_prefix digit_of 10 (Some acc) s = Some v.
Proof.
  revert acc. induction s as [|c s IH]; intros acc; cbn [all_digits digits_prefix].
  - auto.
  - destruct (digit_of c) as [d|]; [|discriminate]. intros H. apply IH. exact H.
Qed.

Lemma parseInt_all_digits (s : string) (v : Z) :
  s <> "" -> all_digits 0 s = Some v -> parseInt s = Some v.
Proof.
  destruct s as [|c s]; [contradiction|]. intros _ H.
  cbn [all_digits] in H. destruct (digit_of c) as [d|] eqn:Ed; [|discriminate].
  destruct (digit_of_facts c d Ed) as (Hsp & _ & Hm & Hp & _).
  assert (Hdec : digits_prefix digit_of 10 None (String c s) = Some v).
  { cbn [digits_prefix]. rewrite Ed. cbn [default]. apply digits_prefix_all_digits. exact H. }
  assert (Hmag : match String c s with
                 | String "0" (String x r) =>
                     if Ascii.eqb (lower_ascii x) "x" then digits_prefix hex_digit_of 16 None r
                     else digits_prefix digit_of 10 None (String c s)
                 | _ => digits_prefix digit_of 10 None (String c s)
                 end = Some v).
  { destruct c as [[] [] [] [] [] [] [] []]; try exact Hdec.
    destruct s as [|x r]; [exact Hdec|].
    cbn [all_digits] in H. destruct (digit_of x) as [dx|] eqn:Ex; [|discriminate H].
    destruct (digit_of_facts x dx Ex) as (_ & Hx & _). rewrite Hx. exact Hdec. }
  unfold parseInt. cbn [trimStart]. rewrite Hsp.
  destruct c as [[] [] [] [] [] [] [] []];
    try (exfalso; apply Hm; reflexivity); try (exfalso; apply Hp; reflexivity);
    cbv zeta; cbv beta iota; rewrite Hmag; cbn; f_equal; destruct v; reflexivity.
Qed.

Lemma split_nonempty (sep : ascii) (s : string) : split sep s <> [].
Proof.
  induction s as [|c s IH]; cbn; [discriminate|].
  destruct (Ascii.eqb c sep); [discriminate|]. destruct (split sep s); [contradiction|discriminate].
Qed.

Lemma period_fields (period : Period) (dateStr ys ms : string) (rest : list string) (y m : Z) :
  split "-" dateStr = ys :: ms :: rest ->
  ys <> "" -> ms <> "" ->
  all_digits 0 ys = Some y -> all_digits 0 ms = Some m ->
  1 <= m ->
  isTargetPeriod period dateStr
  = bool_decide (y = year period)
    && (String.eqb (month period) "All Months"
        || bool_decide (monthsList !! Z.to_nat (m - 1) = Some (month period))).
Proof.
  intros Hsplit Hys Hms Hy Hm Hpos. unfold isTargetPeriod.
  destruct (String.eqb_spec dateStr "") as [->|_]; [discriminate Hsplit|].
  rewrite Hsplit. cbn [length Nat.ltb Nat.leb nth].
  rewrite (parseInt_all_digits ys y Hys Hy), (parseInt_all_digits ms m Hms Hm).
  cbn [fmap option_fmap option_map].
  assert (E : (0 <=? m - 1) = true) by (apply Z.leb_le; lia). rewrite E.
  f_equal. apply bool_decide_ext. split; congruence.
Qed.

(** X9: on a date written [YYYY-MM-DD] the period filter compares the year
    with the selected year and the name of the month with the selected
    month, any month passing under All Months. *)
Theorem period_filter_reads_year_and_month (period : Period) (dateStr : string) (day : Z) :
  parse_iso_day dateStr = Some day ->
  exists ys ms ds y m d,
    split "-" dateStr = [ys; ms; ds]
    /\ all_digits 0 ys = Some y /\ all_digits 0 ms = Some m /\ all_digits 0 ds = Some d
    /\ 1 <= m <= 12
    /\ day = days_from_civil y m d
    /\ isTargetPeriod period dateStr
       = bool_decide (y = year period)
         && (String.eqb (month period) "All Months"
             || bool_decide (monthsList !! Z.to_nat (m - 1) = Some (month period))).
Proof.
  unfold parse_iso_day.
  destruct (negb (String.length dateStr =? 10)%nat); [discriminate|].
  destruct (split "-" dateStr) as [|ys [|ms [|ds [|? ?]]]] eqn:Hsplit; try discriminate.
  destruct ((String.length ys =? 4)%nat && (String.length ms =? 2)%nat
            && (String.length ds =? 2)%nat) eqn:Hlen; cbn [negb]; [|discriminate].
  destruct (all_digits 0 ys) as [y|] eqn:Hy; [|discriminate].
  destruct (all_digits 0 ms) as [m|] eqn:Hm; [|discriminate].
  destruct (all_digits 0 ds) as [d|] eqn:Hd; [|discriminate].
  destruct ((1 <=? m) && (m <=? 12) && (1 <=? d) && (d <=? days_in_month y m)) eqn:Hr;
    [|discriminate].
  intros [= <-].
  rewrite !andb_true_iff in Hlen. destruct Hlen as [[Hl1 Hl2] Hl3].
  rewrite !andb_true_iff in Hr. destruct Hr as [[[H1 H2] H3] H4].
  apply Z.leb_le in H1, H2.
  exists ys, ms, ds, y, m, d. split; [reflexivity|]. split; [exact Hy|].
  split; [exact Hm|]. split; [exact Hd|]. split; [lia|]. split; [reflexivity|].
  apply (period_fields period dateStr ys ms [ds] y m Hsplit); auto.
  - intros ->. discriminate Hl1.
  - intros ->. discriminate Hl2.
Qed.

Lemma period_filter_reads_year_and_month_witness :
  isTargetPeriod ReconcilerSpec.march2025 "2025-03-10" = true.
Proof.
  destruct (period_filter_reads_year_and_month ReconcilerSpec.march2025 "2025-03-10" 20157)
    as (ys & ms & ds & y & m & d & Hs & Hy & Hm & _ & _ & _ & ->).
  - vm_compute. reflexivity.
  - vm_compute in Hs. injection Hs as <- <- <-.
    vm_compute in Hy. injection Hy as <-. vm_compute in Hm. injection Hm as <-.
    vm_compute. reflexivity.
Defined.

End PeriodFacts.


(** * The audit pool of the handler *)

Module AppFacts.
Import JS Reconciler App ReconcilerSpec.

Lemma filter_ext_bool {X} (f g : X -> bool) (l : list X) :
  (forall x, f x = g x) -> filter (fun x => f x) l = filter (fun x => g x) l.
Proof.
  intros H. induction l as [|x l IH]; [reflexivity|].
  rewrite !filter_cons, IH. rewrite (H x). reflexivity.
Qed.

Lemma isAnchorInPeriod_spec selectedMonth selectedYear auditBank (e : Expense) :
  isAnchorInPeriod selectedMonth selectedYear auditBank e
  = isAnchor e && isTargetPeriod {| month := selectedMonth; year := selectedYear |} (date e)
    && bankInScope auditBank e.
Proof.
  unfold isAnchorInPeriod, isTargetPeriod, bankInScope, isBankAnchor, isAnchor.
  cbn [month year].
  destruct (String.eqb (trim (toLowerCase (source e))) "bank_statement"
            || String.eqb (trim (toLowerCase (source e))) "credit_card_statement");
    cbn [negb orb andb]; [|reflexivity].
  destruct (String.eqb (date e) ""); [reflexivity|].
  destruct (length (split "-" (date e)) <? 2)%nat; reflexivity.
Qed.

(** X10: the anchors the audit handler sends to the agent are exactly the
    anchor pool the audit view classifies for the same period and bank,
    and its proofs are exactly the records that are no anchor. *)
Theorem audit_handler_sends_the_anchor_pool
    (expenses : list Expense) selectedMonth selectedYear auditBank :
  anchorsInPeriod expenses selectedMonth selectedYear auditBank
  = allAnchorsInPeriod expenses {| month := selectedMonth; year := selectedYear |} auditBank
  /\ allProofs expenses = filter (fun e => negb (isAnchor e)) expenses.
Proof.
  split; [|reflexivity].
  unfold anchorsInPeriod, allAnchorsInPeriod.
  apply (filter_ext_bool (isAnchorInPeriod selectedMonth selectedYear auditBank)
           (fun e => isAnchor e
                     && isTargetPeriod {| month := selectedMonth; year := selectedYear |} (date e)
                     && bankInScope auditBank e)).
  apply isAnchorInPeriod_spec.
Qed.

Lemma filter_role_same (r : string) (l : list Expense) :
  filter (fun e => Server.role e = r) ((fun e => {| Server.item := e; Server.role := r |}) <$> l)
  = (fun e => {| Server.item := e; Server.role := r |}) <$> l.
Proof.
  induction l as [|e l IH]; [reflexivity|].
  cbn [fmap list_fmap]. rewrite filter_cons_True by reflexivity. f_equal. exact IH.
Qed.

Lemma filter_role_other (r r' : string) (l : list Expense) :
  r' <> r ->
  filter (fun e => Server.role e = r) ((fun e => {| Server.item := e; Server.role := r' |}) <$> l)
  = [].
Proof.
  intros Hne. induction l as [|e l IH]; [reflexivity|].
  cbn [fmap list_fmap]. rewrite filter_cons_False by exact Hne. exact IH.
Qed.

Lemma auditPool_Some (expenses : list Expense) selectedMonth selectedYear auditBank
    (pool : list Server.AuditItem) :
  auditPool expenses selectedMonth selectedYear auditBank = Some pool ->
  pool = ((fun e => {| Server.item := e; Server.role := "ANCHOR" |})
            <$> anchorsInPeriod expenses selectedMonth selectedYear auditBank)
         ++ ((fun e => {| Server.item := e; Server.role := "PROOF" |}) <$> allProofs expenses)
  /\ anchorsInPeriod expenses selectedMonth selectedYear auditBank <> [].
Proof.
  unfold auditPool.
  remember (anchorsInPeriod expenses selectedMonth selectedYear auditBank) as anc eqn:E.
  destruct anc as [|a anchors]; [discriminate|].
  intros H. injection H as <-. split; [reflexivity|discriminate].
Qed.

(** X11: the pool the handler sends: the agent reads back from the role tags
    the handler's own two lists, the anchor list is never empty (the
    handler stops before calling the agent otherwise), and a record is
    tagged ANCHOR exactly when its source is a bank or card statement. *)
Theorem audit_pool_roles (expenses : list Expense) selectedMonth selectedYear auditBank
    (pool : list Server.AuditItem) :
  auditPool expenses selectedMonth selectedYear auditBank = Some pool ->
  filter (fun e => Server.role e = "ANCHOR") pool
  = (fun e => {| Server.item := e; Server.role := "ANCHOR" |})
      <$> anchorsInPeriod expenses selectedMonth selectedYear auditBank
  /\ filter (fun e => Server.role e = "PROOF") pool
     = (fun e => {| Server.item := e; Server.role := "PROOF" |}) <$> allProofs expenses
  /\ filter (fun e => Server.role e = "ANCHOR") pool <> []
  /\ (forall x, x ∈ pool ->
        Server.item x ∈ expenses
        /\ Server.role x = (if isAnchor (Server.item x) then "ANCHOR" else "PROOF")).
Proof.
  intros Hpool. destruct (auditPool_Some _ _ _ _ _ Hpool) as [-> Hne].
  rewrite !filter_app.
  rewrite (filter_role_same "ANCHOR"), (filter_role_same "PROOF").
  rewrite (filter_role_other "ANCHOR" "PROOF"), (filter_role_other "PROOF" "ANCHOR") by discriminate.
  rewrite app_nil_r. cbn [app]. split; [reflexivity|]. split; [reflexivity|].
  split.
  { destruct (anchorsInPeriod expenses selectedMonth selectedYear auditBank);
      [contradiction|discriminate]. }
  intros x Hx. apply elem_of_app in Hx as [Hx|Hx];
    apply list_elem_of_fmap in Hx as (e & -> & He); cbn [Server.item Server.role].
  - unfold anchorsInPeriod in He.
    apply list_elem_of_filter in He as [Hp He]. split; [exact He|].
    apply Is_true_true in Hp. rewrite isAnchorInPeriod_spec in Hp.
    rewrite !andb_true_iff in Hp. destruct Hp as [[-> _] _]. reflexivity.
  - unfold allProofs in He. apply list_elem_of_filter in He as [Hp He]. split; [exact He|].
    apply Is_true_true, negb_true_iff in Hp.
    change (isBankAnchor e) with (isAnchor e) in Hp. rewrite Hp. reflexivity.
Qed.

Lemma audit_pool_roles_witness :
  filter (fun e => Server.role e = "ANCHOR")
    [ {| Server.item := flydubaiAnchor; Server.role := "ANCHOR" |};
      {| Server.item := flydubaiReceipt; Server.role := "PROOF" |};
      {| Server.item := flydubaiEmail; Server.role := "PROOF" |} ]
  = (fun e => {| Server.item := e; Server.role := "ANCHOR" |})
      <$> anchorsInPeriod [flydubaiAnchor; flydubaiReceipt; flydubaiEmail] "March" 2025 "All Accounts".
Proof.
  apply (audit_pool_roles [flydubaiAnchor; flydubaiReceipt; flydubaiEmail] "March" 2025 "All Accounts").
  vm_compute. reflexivity.
Defined.

End AppFacts.

(** * The reconciliation agent: batches, retries, failures *)

Module ServerFacts.
Import Server.

Lemma batches_concat (fuel : nat) (anchors : list AuditItem) :
  (length anchors <= fuel)%nat -> concat (batches fuel anchors) = anchors.
Proof.
  revert anchors. induction fuel as [|fuel IH]; intros anchors Hlen.
  - destruct anchors; [reflexivity|cbn in Hlen; lia].
  - destruct anchors as [|a anchors]; [reflexivity|].
    change (batches (S fuel) (a :: anchors))
      with (take BATCH_SIZE (a :: anchors) :: batches fuel (drop BATCH_SIZE (a :: anchors))).
    rewrite concat_cons, IH, take_drop; [reflexivity|].
    rewrite length_drop. unfold BATCH_SIZE. cbn [length] in *. lia.
Qed.

Lemma batches_sizes (fuel : nat) (anchors : list AuditItem) :
  Forall (fun b => (0 < length b <= BATCH_SIZE)%nat) (batches fuel anchors).
Proof.
  revert anchors. induction fuel as [|fuel IH]; intros anchors; [constructor|].
  destruct anchors as [|a anchors]; [constructor|].
  change (batches (S fuel) (a :: anchors))
    with (take BATCH_SIZE (a :: anchors) :: batches fuel (drop BATCH_SIZE (a :: anchors))).
  constructor; [|apply IH].
  rewrite length_take. unfold BATCH_SIZE. cbn [length]. lia.
Qed.

Lemma batches_count (fuel : nat) (anchors : list AuditItem) :
  (length anchors <= fuel)%nat ->
  length (batches fuel anchors) = ((length anchors + 14) / 15)%nat.
Proof.
  revert anchors. induction fuel as [|fuel IH]; intros anchors Hlen.
  - destruct anchors; [reflexivity|cbn in Hlen; lia].
  - destruct anchors as [|a anchors]; [reflexivity|].
    change (batches (S fuel) (a :: anchors))
      with (take BATCH_SIZE (a :: anchors) :: batches fuel (drop BATCH_SIZE (a :: anchors))).
    cbn [length] in Hlen.
    rewrite length_cons, IH by (rewrite length_drop; unfold BATCH_SIZE; cbn [length]; lia).
    rewrite length_drop. unfold BATCH_SIZE. cbn [length].
    pose proof (Nat.div_mod_eq (S (length anchors) - 15 + 14) 15) as H1.
    pose proof (Nat.mod_upper_bound (S (length anchors) - 15 + 14) 15 ltac:(lia)) as H2.
    pose proof (Nat.div_mod_eq (S (length anchors) + 14) 15) as H3.
    pose proof (Nat.mod_upper_bound (S (length anchors) + 14) 15 ltac:(lia)) as H4.
    lia.
Qed.

(** X12: the anchors are cut into consecutive batches of at most fifteen:
    together the batches are the anchor list, none is empty, and there
    are as many as the list needs. *)
Theorem batches_cover_anchors (anchors : list AuditItem) :
  concat (batches (length anchors) anchors) = anchors
  /\ Forall (fun b => (0 < length b <= BATCH_SIZE)%nat) (batches (length anchors) anchors)
  /\ length (batches (length anchors) anchors) = ((length anchors + 14) / 15)%nat.
Proof.
  split; [apply batches_concat; lia|].
  split; [apply batches_sizes|apply batches_count; lia].
Qed.

Lemma retry_loop (fn : nat -> Outcome) (maxRetries : nat) :
  forall remaining i calls,
    (i + remaining = maxRetries)%nat ->
    let r := retryWithBackoff fn maxRetries i remaining calls in
    (calls <= snd r <= calls + remaining)%nat
    /\ (forall output, fst r = Some output ->
          (calls < snd r)%nat /\ fn (snd r - 1)%nat = Answer output
          /\ forall k, (calls <= k < snd r - 1)%nat -> fn k = QuotaError)
    /\ (fst r = None ->
          forall k output, (calls <= k < snd r)%nat -> fn k <> Answer output).
Proof.
  induction remaining as [|remaining IH]; intros i calls Hi; cbn zeta.
  - cbn. split; [lia|]. split; [discriminate|]. intros _ k output Hk. lia.
  - cbn [retryWithBackoff].
    destruct (fn calls) as [output| |] eqn:Efn.
    + cbn [fst snd]. split; [lia|]. split.
      * intros o [= <-]. split; [lia|]. split.
        -- replace (S calls - 1)%nat with calls by lia. exact Efn.
        -- intros k Hk. lia.
      * discriminate.
    + destruct (i <? maxRetries - 1)%nat eqn:Ei.
      * specialize (IH (S i) (S calls) ltac:(lia)). cbn zeta in IH.
        destruct IH as (Hb & Hs & Hn).
        split; [lia|]. split.
        -- intros o Ho. destruct (Hs o Ho) as (H1 & H2 & H3).
           split; [lia|]. split; [exact H2|].
           intros k Hk. destruct (decide (k = calls)) as [->|Hne]; [exact Efn|].
           apply H3. lia.
        -- intros Hnone k o Hk. destruct (decide (k = calls)) as [->|Hne].
           ++ rewrite Efn. discriminate.
           ++ apply Hn; [exact Hnone|lia].
      * cbn [fst snd]. split; [lia|]. split; [discriminate|].
        intros _ k o Hk. replace k with calls by lia. rewrite Efn. discriminate.
    + cbn [fst snd]. split; [lia|]. split; [discriminate|].
      intros _ k o Hk. replace k with calls by lia. rewrite Efn. discriminate.
Qed.

(** X13: a guarded call is tried at most [maxRetries] times.  When it
    returns, the last try answered and every try before it hit the
    quota; when it throws, no try answered.  An error that is not a
    quota error ends it at once. *)
Theorem retry_tries_are_bounded (fn : nat -> Outcome) (maxRetries calls : nat) :
  let r := retryWithBackoff fn maxRetries 0 maxRetries calls in
  (calls <= snd r <= calls + maxRetries)%nat
  /\ (forall output, fst r = Some output ->
        (calls < snd r)%nat /\ fn (snd r - 1)%nat = Answer output
        /\ forall k, (calls <= k < snd r - 1)%nat -> fn k = QuotaError)
  /\ (fst r = None -> forall k output, (calls <= k < snd r)%nat -> fn k <> Answer output)
  /\ (fn calls = OtherError -> (0 < maxRetries)%nat -> r = (None, S calls)).
Proof.
  cbv zeta.
  destruct (retry_loop fn maxRetries maxRetries 0 calls ltac:(lia)) as (H1 & H2 & H3).
  split; [exact H1|]. split; [exact H2|]. split; [exact H3|].
  intros Hother Hpos. destruct maxRetries as [|n]; [lia|].
  cbn [retryWithBackoff]. rewrite Hother. reflexivity.
Qed.

Lemma retry_never_answered (fn : nat -> Outcome) (maxRetries : nat) :
  (forall k output, fn k <> Answer output) ->
  forall remaining i calls, fst (retryWithBackoff fn maxRetries i remaining calls) = None.
Proof.
  intros Hfail. induction remaining as [|remaining IH]; intros i calls; [reflexivity|].
  cbn [retryWithBackoff]. destruct (fn calls) as [output| |] eqn:Efn.
  - exfalso. exact (Hfail calls output Efn).
  - destruct (i <? maxRetries - 1)%nat; [apply IH|reflexivity].
  - reflexivity.
Qed.

Lemma failed_batches_fold (generate : Generate) (proofs : list AuditItem)
    (numbered : list (nat * list AuditItem)) (st : Loop) :
  (forall n b p output, generate n b p <> Answer output) ->
  allMatches (foldl (batchStep generate proofs) st numbered) = allMatches st
  /\ unmatchedBankIds (foldl (batchStep generate proofs) st numbered)
     = unmatchedBankIds st ++ (itemId <$> concat numbered.*2).
Proof.
  intros Hfail. revert st. induction numbered as [|[batchNo currentBatch] numbered IH]; intros st.
  - cbn. rewrite app_nil_r. split; reflexivity.
  - cbn [foldl]. destruct (IH (batchStep generate proofs st (batchNo, currentBatch))) as [-> ->].
    unfold batchStep.
    pose proof (retry_never_answered (fun n => generate n batchNo (currentBatch ++ proofs)) 3
                  (fun k o => Hfail k batchNo (currentBatch ++ proofs) o) 3 0%nat (calls st)) as Hnone.
    destruct (retryWithBackoff _ 3 0 3 (calls st)) as [[r|] calls'] eqn:E; [discriminate Hnone|].
    cbn [allMatches unmatchedBankIds]. split; [reflexivity|].
    cbn [fmap list_fmap snd concat]. rewrite fmap_app, <- (assoc_L (++)). reflexivity.
Qed.

Lemma imap_numbered {X} (l : list X) (k0 : nat) :
  (imap (fun k b => ((k0 + k)%nat, b)) l).*2 = l.
Proof.
  revert k0. induction l as [|b l IH]; intros k0; [reflexivity|].
  cbn. f_equal. 
  rewrite <- (IH (S k0)) at 2. f_equal. apply imap_ext. intros k x _.
  cbn. f_equal. lia.
Qed.

Lemma list_filter_nil_all {X} (P : X -> Prop) `{!forall x, Decision (P x)} (l : list X) :
  (forall x, x ∈ l -> ~ P x) -> filter P l = [].
Proof.
  induction l as [|a l IH]; intros Hall; [reflexivity|].
  rewrite filter_cons_False by (apply Hall; left).
  apply IH. intros x Hx. apply Hall. right. exact Hx.
Qed.

Lemma filter_all {X} (P : X -> Prop) `{!forall x, Decision (P x)} (l : list X) :
  (forall x, P x) -> filter P l = l.
Proof.
  intros HP. induction l as [|a l IH]; [reflexivity|].
  rewrite filter_cons_True by apply HP. f_equal. exact IH.
Qed.

(** X14: when the model answers no batch, the run still returns: nothing is
    matched, every proof is unmatched, and every anchor id is listed
    unmatched twice, once by the final sweep and once by the failed
    batch. *)
Theorem failed_batches_list_anchors_twice (generate : Generate) (expenses : list AuditItem) :
  (forall n b p output, generate n b p <> Answer output) ->
  runReconciliationAgent generate expenses
  = {| matched := [];
       unmatchedReceipts := itemId <$> filter (fun e => role e = "PROOF") expenses;
       unmatchedBankTransactions :=
         (itemId <$> filter (fun e => role e = "ANCHOR") expenses)
         ++ (itemId <$> filter (fun e => role e = "ANCHOR") expenses) |}.
Proof.
  intros Hfail. unfold runReconciliationAgent.
  destruct (filter (fun e => role e = "ANCHOR") expenses) as [|a anchors] eqn:Ea; [reflexivity|].
  destruct (failed_batches_fold generate (filter (fun e => role e = "PROOF") expenses)
              (imap (fun k b => (k, b)) (batches (length (a :: anchors)) (a :: anchors)))
              {| allMatches := []; unmatchedBankIds := []; calls := 0 |} Hfail) as [Hm Hu].
  rewrite Hm, Hu. cbn [allMatches unmatchedBankIds fmap list_fmap list_to_set app].
  rewrite !(filter_all (fun p => itemId p ∉ _)) by (intros x; apply not_elem_of_empty).
  rewrite (imap_numbered _ 0), batches_concat by lia. reflexivity.
Qed.

Lemma failed_batches_list_anchors_twice_witness :
  runReconciliationAgent ServerSpec.failing
    [ServerSpec.auditItem "a1" "bank_statement" "ANCHOR"; ServerSpec.auditItem "p1" "receipt" "PROOF"]
  = {| matched := []; unmatchedReceipts := ["p1"]; unmatchedBankTransactions := ["a1"; "a1"] |}.
Proof.
  apply (failed_batches_list_anchors_twice ServerSpec.failing).
  intros n b p output. discriminate.
Defined.

Lemma foldl_addMatch_elem (ms l : list Match) (m : Match) :
  m ∈ foldl addMatch l ms -> m ∈ l \/ m ∈ ms.
Proof.
  revert l. induction ms as [|m' ms IH]; intros l Hin; [left; exact Hin|].
  cbn [foldl] in Hin. apply IH in Hin. destruct Hin as [Hin|Hin].
  - unfold addMatch in Hin. destruct (existsb _ l); [left; exact Hin|].
    apply elem_of_app in Hin. destruct Hin as [Hin|Hin]; [left; exact Hin|].
    apply list_elem_of_singleton in Hin. subst. right. left.
  - right. right. exact Hin.
Qed.

Lemma matches_fold (generate : Generate) (proofs : list AuditItem)
    (numbered : list (nat * list AuditItem)) (st : Loop) (m : Match) :
  m ∈ allMatches (foldl (batchStep generate proofs) st numbered) ->
  m ∈ allMatches st
  \/ exists n batchNo currentBatch output,
       (batchNo, currentBatch) ∈ numbered
       /\ generate n batchNo (currentBatch ++ proofs) = Answer output
       /\ m ∈ matched output.
Proof.
  revert st. induction numbered as [|[batchNo currentBatch] numbered IH]; intros st Hin.
  - left. exact Hin.
  - cbn [foldl] in Hin. apply IH in Hin. destruct Hin as [Hin|Hin].
    + unfold batchStep in Hin.
      destruct (retry_loop (fun n => generate n batchNo (currentBatch ++ proofs)) 3 3 0 (calls st)
                  ltac:(lia)) as (_ & Hs & _).
      cbn zeta in Hs.
      destruct (retryWithBackoff _ 3 0 3 (calls st)) as [[r|] calls'] eqn:E.
      * cbn [allMatches] in Hin. apply foldl_addMatch_elem in Hin.
        destruct Hin as [Hin|Hin]; [left; exact Hin|].
        right. destruct (Hs r eq_refl) as (_ & Hans & _).
        exists (calls' - 1)%nat, batchNo, currentBatch, r.
        split; [left|]. split; [exact Hans|exact Hin].
      * left. exact Hin.
    + right. destruct Hin as (n & bn & cb & out & H1 & H2 & H3).
      exists n, bn, cb, out. split; [right; exact H1|]. split; assumption.
Qed.

(** X15: the agent invents no match: every match it returns was proposed by
    the model in the answer to one batch, whose prompt held a slice of
    the anchors followed by all the proofs. *)
Theorem agent_matches_come_from_answers (generate : Generate) (expenses : list AuditItem) (m : Match) :
  m ∈ matched (runReconciliationAgent generate expenses) ->
  exists n batchNo currentBatch output,
    currentBatch ⊆ filter (fun e => role e = "ANCHOR") expenses
    /\ generate n batchNo (currentBatch ++ filter (fun e => role e = "PROOF") expenses) = Answer output
    /\ m ∈ matched output.
Proof.
  unfold runReconciliationAgent.
  destruct (filter (fun e => role e = "ANCHOR") expenses) as [|a anchors] eqn:Ea.
  - cbn. intros H. inversion H.
  - cbn [matched]. intros Hin. apply matches_fold in Hin.
    destruct Hin as [Hin|(n & bn & cb & out & H1 & H2 & H3)]; [inversion Hin|].
    exists n, bn, cb, out. split; [|split; assumption].
    apply (list_elem_of_fmap_2 snd) in H1. cbn [snd] in H1.
    rewrite (imap_numbered _ 0) in H1.
    intros x Hx. rewrite <- (batches_concat (length (a :: anchors)) (a :: anchors)) by lia.
    apply list_elem_of_In, in_concat. exists cb. split; apply list_elem_of_In; assumption.
Qed.

Lemma agent_matches_come_from_answers_witness :
  exists n batchNo currentBatch output,
    currentBatch ⊆ filter (fun e => role e = "ANCHOR")
                    [ServerSpec.auditItem "a1" "bank_statement" "ANCHOR";
                     ServerSpec.auditItem "p1" "receipt" "PROOF"]
    /\ Samples.proposing n batchNo
         (currentBatch ++ filter (fun e => role e = "PROOF")
                            [ServerSpec.auditItem "a1" "bank_statement" "ANCHOR";
                             ServerSpec.auditItem "p1" "receipt" "PROOF"])
       = Answer output
    /\ {| bankId := "a1"; receiptId := "p1"; proofLabel := "Receipt"; summary := "Same merchant" |}
       ∈ matched output.
Proof.
  apply (agent_matches_come_from_answers Samples.proposing).
  assert (E : matched (runReconciliationAgent Samples.proposing
                         [ServerSpec.auditItem "a1" "bank_statement" "ANCHOR";
                          ServerSpec.auditItem "p1" "receipt" "PROOF"])
              = [ {| bankId := "a1"; receiptId := "p1"; proofLabel := "Receipt";
                     summary := "Same merchant" |} ]) by (vm_compute; reflexivity).
  rewrite E. left.
Defined.

(** X16: the agent returns at most one match for a bank id, whatever
    the model answers: a later proposal for an id already matched is
    dropped. *)
Theorem agent_returns_one_match_per_bank (generate : Generate) (expenses : list AuditItem) :
  NoDup (bankId <$> matched (runReconciliationAgent generate expenses))
  /\ forall m, m ∈ matched (runReconciliationAgent generate expenses) ->
       length (filter (fun m' => bankId m' = bankId m)
                      (matched (runReconciliationAgent generate expenses))) = 1%nat.
Proof.
  pose proof (ServerProofs.agent_matches_distinct_banks generate expenses) as Hnd.
  split; [exact Hnd|].
  generalize dependent (matched (runReconciliationAgent generate expenses)).
  intros l Hnd m Hm. induction l as [|x l IH]; [inversion Hm|].
  cbn [fmap list_fmap] in Hnd. apply NoDup_cons in Hnd as [Hx Hnd].
  rewrite filter_cons. apply elem_of_cons in Hm as [->|Hm].
  - rewrite decide_True by reflexivity. cbn [length]. f_equal.
    apply length_zero_iff_nil. apply list_filter_nil_all.
    intros y Hy E. apply Hx. rewrite <- E. apply list_elem_of_fmap_2. exact Hy.
  - rewrite decide_False; [apply IH; assumption|].
    intros E. apply Hx. rewrite E. apply list_elem_of_fmap_2. exact Hm.
Qed.

End ServerFacts.

(** * Travel logs: ingestion *)

Module IngestFacts.
Import JS Firebase FirebaseSpec ListFacts FirebaseProofs.

Lemma insertDoc_Permutation (d : TravelLog) (db : Collection) : insertDoc d db ≡ₚ d :: db.
Proof.
  induction db as [|e db IH]; [reflexivity|]. cbn.
  destruct (String.ltb (id d) (id e)); [reflexivity|].
  rewrite IH. apply Permutation_swap.
Qed.

Lemma ingest_state now freshId existing (l : list TravelLog) (db : Collection) (res : list TravelLog) :
  let st := foldl (ingestStep now freshId existing) (db, res) l in
  exists added,
    snd st = res ++ added
    /\ fst st ≡ₚ db ++ added
    /\ Forall2 (fun log r => r = withId (id r) (newLog now log))
               (filter (fun log => isDuplicate existing log = false) l) added.
Proof.
  cbv zeta. revert db res. induction l as [|log l IH]; intros db res; cbn [foldl].
  - exists []. cbn. rewrite !app_nil_r. split; [reflexivity|]. split; [reflexivity|constructor].
  - unfold ingestStep at 2 4. rewrite filter_cons.
    destruct (isDuplicate existing log) eqn:Ed.
    + destruct (IH db res) as (added & H1 & H2 & H3). exists added.
      split; [exact H1|]. split; [exact H2|].
      destruct (decide (true = false)) as [E|_]; [discriminate E|exact H3].
    + destruct (IH (insertDoc (withId (freshId db) (newLog now log)) db)
                  (res ++ [withId (freshId db) (newLog now log)])) as (added & H1 & H2 & H3).
      exists (withId (freshId db) (newLog now log) :: added).
      split; [rewrite H1, <- app_assoc; reflexivity|].
      split.
      { rewrite H2, insertDoc_Permutation. solve_Permutation. }
      destruct (decide (false = false)) as [_|E]; [|contradiction].
      constructor; [reflexivity|exact H3].
Qed.

Lemma ingest_stores_non_duplicates_aux now freshId (db : Collection) (logs : list TravelLog) :
  exists sortedLogs,
    sortedLogs ≡ₚ logs
    /\ Forall2 (fun log r => r = withId (id r) (newLog now log))
               (filter (fun log => isDuplicate db log = false) sortedLogs)
               (snd (ingest now freshId db logs))
    /\ fst (ingest now freshId db logs) ≡ₚ db ++ snd (ingest now freshId db logs).
Proof.
  exists (sortBy laterStart logs). split; [apply sortBy_Permutation|].
  unfold ingest.
  destruct (ingest_state now freshId db (sortBy laterStart logs) db []) as (added & H1 & H2 & H3).
  cbn [app] in H1. rewrite H1. split; [exact H3|exact H2].
Qed.

(** X17: ingestion stores exactly the new records that are no duplicate
    of a stored one, once each and in the order in which the loop walks
    them, each with its seeded fields; the collection grows by the
    returned documents and by nothing else. *)
Theorem ingest_stores_the_non_duplicates now freshId (db : Collection) (logs : list TravelLog) :
  exists sortedLogs,
    sortedLogs ≡ₚ logs
    /\ Forall2 (fun log r => r = withId (id r) (newLog now log))
               (filter (fun log => isDuplicate db log = false) sortedLogs)
               (snd (ingest now freshId db logs))
    /\ fst (ingest now freshId db logs) ≡ₚ db ++ snd (ingest now freshId db logs).
Proof.
  exists (sortBy laterStart logs). split; [apply sortBy_Permutation|].
  unfold ingest.
  destruct (ingest_state now freshId db (sortBy laterStart logs) db []) as (added & H1 & H2 & H3).
  cbn [app] in H1. rewrite H1. split; [exact H3|exact H2].
Qed.

(** X18: what a freshly ingested record looks like: it is open exactly when
    it is a one-way flight away from home, its hotel is missing exactly
    when it is a flight away from home, and it is no duplicate of a
    record stored before the call. *)
Theorem ingested_record_is_seeded now freshId (db : Collection) (logs : list TravelLog) (r : TravelLog) :
  r ∈ snd (ingest now freshId db logs) ->
  (status r = (if bool_decide (travel_type r = flight) && negb (isHomeLocation r)
                  && negb (truthy (return_date r))
               then OpenAwaitingReturn else Complete))
  /\ (hotel_verification_status r
      = Some (if bool_decide (travel_type r = flight) && negb (isHomeLocation r)
              then missing else not_required))
  /\ uploaded_at r = Some now
  /\ isDuplicate db r = false.
Proof.
  intros Hr. apply ingest_results in Hr as (log & i & _ & Hdup & ->).
  cbn [withId newLog status hotel_verification_status uploaded_at travel_type return_date].
  assert (Hhome : isHomeLocation (withId i (newLog now log)) = isHomeLocation log) by reflexivity.
  rewrite Hhome. unfold consolidated, isRoundTrip, isAccommodation.
  split; [|split; [|split]].
  - destruct (travel_type log); destruct (isHomeLocation log); destruct (truthy (return_date log));
      reflexivity.
  - destruct (travel_type log); destruct (isHomeLocation log); reflexivity.
  - reflexivity.
  - exact Hdup.
Qed.

Lemma ingested_record_is_seeded_witness :
  exists r, snd (ingest "2025-03-01T00:00:00.000Z" (fun _ => "doc1") [] [muscatOutbound]) = [r]
            /\ status r = OpenAwaitingReturn
            /\ hotel_verification_status r = Some missing.
Proof.
  eexists. split; [vm_compute; reflexivity|].
  destruct (ingested_record_is_seeded "2025-03-01T00:00:00.000Z" (fun _ => "doc1") [] [muscatOutbound]
              (withId "doc1" (newLog "2025-03-01T00:00:00.000Z" muscatOutbound)))
    as (H1 & H2 & _).
  - vm_compute. left.
  - split; [exact H1|exact H2].
Defined.

Lemma isDuplicate_elem (existing : list TravelLog) (log : TravelLog) :
  isDuplicate existing log = true <->
  exists e, e ∈ existing /\ isDuplicate [e] log = true.
Proof.
  unfold isDuplicate. rewrite existsb_exists. split.
  - intros (e & He & H). exists e. split; [apply list_elem_of_In; exact He|].
    cbn [existsb]. rewrite H. reflexivity.
  - intros (e & He & H). exists e. split; [apply list_elem_of_In; exact He|].
    cbn [existsb] in H. rewrite orb_false_r in H. exact H.
Qed.

Lemma isDuplicate_stored now i (log : TravelLog) :
  isDuplicate [withId i (newLog now log)] log = true.
Proof.
  unfold isDuplicate. cbn [existsb withId newLog reference_number start_date destination_city travel_type].
  rewrite orb_false_r.
  destruct (truthy (reference_number log) && truthy (reference_number log)
            && String.eqb _ _); [reflexivity|].
  rewrite !String.eqb_refl, bool_decide_eq_true_2 by reflexivity. reflexivity.
Qed.

Lemma ingest_all_duplicates now freshId existing (l : list TravelLog) st :
  (forall log, log ∈ l -> isDuplicate existing log = true) ->
  foldl (ingestStep now freshId existing) st l = st.
Proof.
  revert st. induction l as [|log l IH]; intros st Hall; [reflexivity|].
  cbn [foldl]. destruct st as [db res]. unfold ingestStep at 2.
  rewrite (Hall log) by left. apply IH. intros x Hx. apply Hall. right. exact Hx.
Qed.

Lemma applyTo_reference (ws : list Write) (l : TravelLog) :
  reference_number (applyTo ws l) = reference_number l.
Proof.
  revert l. induction ws as [|w ws IH]; intros l; [reflexivity|].
  change (applyTo (w :: ws) l)
    with (applyTo ws (if String.eqb (id l) (target w) then merge (patch w) l else l)).
  rewrite IH. destruct (String.eqb (id l) (target w)); reflexivity.
Qed.

Lemma isDuplicate_applyWrites (db : Collection) (ws : list Write) (log : TravelLog) :
  isDuplicate (applyWrites db ws) log = isDuplicate db log.
Proof.
  rewrite applyWrites_applyTo. unfold isDuplicate.
  induction db as [|e db IH]; [reflexivity|].
  cbn [fmap list_fmap existsb]. rewrite IH. f_equal.
  destruct (applyTo_key ws e) as (_ & K2 & K3 & _ & K5).
  rewrite applyTo_reference, K2, K3, K5. reflexivity.
Qed.

Lemma ingest_after_a_call now1 freshId1 now2 freshId2 (db : Collection)
    (logs : list TravelLog) :
  ingest now2 freshId2 (fst (addTravelLogs now1 freshId1 db logs)) logs
  = (fst (addTravelLogs now1 freshId1 db logs), []).
Proof.
  unfold ingest at 1. apply ingest_all_duplicates.
  intros log Hlog. rewrite sortBy_Permutation in Hlog.
  unfold addTravelLogs.
  destruct (ingest_stores_non_duplicates_aux now1 freshId1 db logs) as (sorted & Hs & HF & Hdb).
  destruct (ingest now1 freshId1 db logs) as [db1 results]. cbn [fst snd] in *.
  rewrite !isDuplicate_applyWrites.
  rewrite <- Hs in Hlog.
  apply isDuplicate_elem.
  destruct (isDuplicate db log) eqn:Ed.
  - apply isDuplicate_elem in Ed as (e & He & Hd). exists e. split; [|exact Hd].
    rewrite Hdb. apply elem_of_app. left. exact He.
  - assert (Hin : log ∈ filter (fun log => isDuplicate db log = false) sorted).
    { apply list_elem_of_filter. split; assumption. }
    apply list_elem_of_lookup in Hin as (k & Hk).
    destruct (Forall2_lookup_l _ _ _ _ _ HF Hk) as (r & Hr & Er).
    exists r. split; [|rewrite Er; apply isDuplicate_stored].
    rewrite Hdb. apply elem_of_app. right. eapply list_elem_of_lookup_2. exact Hr.
Qed.

(** X19: submitting the same records again stores nothing: after a
    call, each of its records is a duplicate of a stored document, so a
    second call with the same records ingests and returns none. *)
Theorem ingesting_again_adds_nothing now1 freshId1 now2 freshId2 (db : Collection)
    (logs : list TravelLog) :
  let db3 := fst (addTravelLogs now1 freshId1 db logs) in
  ingest now2 freshId2 db3 logs = (db3, [])
  /\ snd (addTravelLogs now2 freshId2 db3 logs) = [].
Proof.
  cbv zeta.
  pose proof (ingest_after_a_call now1 freshId1 now2 freshId2 db logs) as Hingest.
  split; [exact Hingest|].
  unfold addTravelLogs at 1. rewrite Hingest. reflexivity.
Qed.

(** Two copies of a new record in one call are both stored: the
    duplicate check reads the collection as it was before the call. *)
Lemma copies_in_one_call_are_both_stored now freshId (db : Collection) (log : TravelLog) :
  isDuplicate db log = false ->
  let db1 := fst (ingest now freshId db [log; log]) in
  snd (ingest now freshId db [log; log])
  = [withId (freshId db) (newLog now log);
     withId (freshId (insertDoc (withId (freshId db) (newLog now log)) db)) (newLog now log)].
Proof.
  intros Hd. cbv zeta. unfold ingest.
  assert (E : sortBy laterStart [log; log] = [log; log]).
  { cbn. destruct (laterStart log log); reflexivity. }
  rewrite E. cbn [foldl]. unfold ingestStep at 2. rewrite Hd.
  unfold ingestStep. rewrite Hd. reflexivity.
Qed.

(** A stay costs the same number of days whichever of its two dates is
    given first. *)
Lemma duration_ignores_date_order (a b : string) :
  a <> "" -> b <> "" ->
  calculateDuration a (Some b) = calculateDuration b (Some a).
Proof.
  intros Ha Hb.
  assert (E : forall x y, y <> "" -> or_else (Some y) x = y).
  { intros x y Hy. unfold or_else, truthy.
    destruct (String.eqb_spec y "") as [|_]; [contradiction|reflexivity]. }
  unfold calculateDuration. rewrite !E by assumption.
  destruct (getTime a) as [ta|]; destruct (getTime b) as [tb|]; try reflexivity.
  replace (Z.abs (tb - ta)) with (Z.abs (ta - tb)) by lia. reflexivity.
Qed.

End IngestFacts.

(** * Travel logs: the integration sweep *)

Module SweepFacts.
Import JS Firebase FirebaseSpec ListFacts FirebaseProofs.

Lemma applyTo_app (ws1 ws2 : list Write) (l : TravelLog) :
  applyTo (ws1 ++ ws2) l = applyTo ws2 (applyTo ws1 l).
Proof. unfold applyTo. apply foldl_app. Qed.

Lemma applyTo_cons (w : Write) (ws : list Write) (l : TravelLog) :
  applyTo (w :: ws) l = applyTo ws (if String.eqb (id l) (target w) then merge (patch w) l else l).
Proof. reflexivity. Qed.

Lemma applyTo_untargeted (ws : list Write) (l : TravelLog) :
  (forall w, w ∈ ws -> target w <> id l) -> applyTo ws l = l.
Proof.
  induction ws as [|w ws IH]; intros H; [reflexivity|].
  rewrite applyTo_cons.
  destruct (String.eqb_spec (id l) (target w)) as [E|_].
  - exfalso. apply (H w); [left|]. congruence.
  - apply IH. intros w' Hw'. apply H. right. exact Hw'.
Qed.

(** An invariant of one document under a list of writes: it holds
    afterwards when it held before, or some write to the document
    establishes it, and every write to the document keeps it. *)
Lemma applyTo_invariant (I : TravelLog -> Prop) (ws : list Write) (l : TravelLog) :
  (I l \/ exists w, w ∈ ws /\ target w = id l /\ forall x, I (merge (patch w) x)) ->
  (forall w, w ∈ ws -> target w = id l -> forall x, I x -> I (merge (patch w) x)) ->
  I (applyTo ws l).
Proof.
  revert l. induction ws as [|w ws IH]; intros l Hex Hall.
  - destruct Hex as [H|(w & Hw & _)]; [exact H|inversion Hw].
  - rewrite applyTo_cons.
    assert (Hid : id (if String.eqb (id l) (target w) then merge (patch w) l else l) = id l)
      by (destruct (String.eqb (id l) (target w)); reflexivity).
    apply IH.
    + destruct (String.eqb_spec (id l) (target w)) as [E|E].
      * destruct Hex as [H|(w' & Hw' & Ht & Hs)].
        -- left. apply Hall; [left|congruence|exact H].
        -- apply elem_of_cons in Hw' as [->|Hw'].
           ++ left. apply Hs.
           ++ right. exists w'. cbn [id merge]. auto.
      * destruct Hex as [H|(w' & Hw' & Ht & Hs)]; [auto|].
        apply elem_of_cons in Hw' as [->|Hw']; [congruence|]. right. exists w'. auto.
    + intros w' Hw' Ht. apply Hall; [right; exact Hw'|congruence].
Qed.

(** *** Hotel verification *)

Lemma verifyFlight_writes now (hotels : list TravelLog) (g : TravelLog) (w : Write) :
  w ∈ verifyFlight now hotels g ->
  target w = id g \/ exists m, m ∈ hotels /\ target w = id m.
Proof.
  unfold verifyFlight.
  destruct (_ || _); [intros H; inversion H|].
  destruct (find (hotelMatches g) hotels) as [m|] eqn:Hf; [|intros H; inversion H].
  apply find_some in Hf as [Hin _]. apply list_elem_of_In in Hin.
  intros H. apply elem_of_cons in H as [->|H]; [left; reflexivity|].
  apply list_elem_of_singleton in H as ->. right. exists m. split; [exact Hin|reflexivity].
Qed.

(** X20: what the hotel pass does to a flight of a collection with distinct
    ids: a flight already verified, or to a home location, or without a
    matching hotel, is left as it is; any other flight is marked
    verified and linked to the first hotel of the collection that
    matches it, and nothing else of it changes but the update stamp. *)
Theorem hotel_pass_on_a_flight now (db : list TravelLog) (f : TravelLog) :
  NoDup (id <$> db) ->
  f ∈ db ->
  travel_type f = flight ->
  let hotels := filter (fun l => travel_type l = accommodation) db in
  let f' := applyTo (verifyHotels now db) f in
  f' ∈ applyWrites db (verifyHotels now db)
  /\ (if bool_decide (hotel_verification_status f = Some verified) || isHomeLocation f
      then f' = f
      else match find (hotelMatches f) hotels with
           | None => f' = f
           | Some match_ =>
               hotel_verification_status f' = Some verified
               /\ linked_hotel_id f' = Some (or_else (document_id match_) (id match_))
               /\ updated_at f' = Some now
               /\ status f' = status f /\ days_spent f' = days_spent f
               /\ return_date f' = return_date f
               /\ return_flight_id f' = return_flight_id f
               /\ outbound_flight_id f' = outbound_flight_id f
               /\ linked_flight_id f' = linked_flight_id f
           end).
Proof.
  intros Hnd Hin Hty. cbv zeta. split.
  { rewrite applyWrites_applyTo. apply list_elem_of_fmap_2. exact Hin. }
  unfold verifyHotels. cbv zeta.
  set (hotels := filter (fun l => travel_type l = accommodation) db).
  assert (Hf : f ∈ filter (fun l => travel_type l = flight) db).
  { apply list_elem_of_filter. split; assumption. }
  apply list_elem_of_split in Hf as (l1 & l2 & Hsplit).
  assert (Hnd' : NoDup (filter (fun l => travel_type l = flight) db)).
  { apply NoDup_filter. eapply NoDup_fmap_1. exact Hnd. }
  rewrite Hsplit in Hnd'. apply NoDup_app in Hnd' as (_ & Hl1 & Hl2).
  apply NoDup_cons in Hl2 as [Hl2 _].
  assert (Hother : forall g, g ∈ l1 ++ l2 -> forall w, w ∈ verifyFlight now hotels g ->
            target w <> id f).
  { intros g Hg w Hw E.
    assert (Hgdb : g ∈ db /\ g <> f).
    { split.
      - assert (Hg' : g ∈ filter (fun l => travel_type l = flight) db).
        { rewrite Hsplit. apply elem_of_app in Hg as [Hg|Hg];
            apply elem_of_app; [left|right; right]; exact Hg. }
        apply list_elem_of_filter in Hg'. tauto.
      - intros ->. apply elem_of_app in Hg as [Hg|Hg]; [apply (Hl1 f Hg); left|contradiction]. }
    apply verifyFlight_writes in Hw as [Ht|(m & Hm & Ht)].
    - apply (proj2 Hgdb). apply (NoDup_fmap_eq id db); [exact Hnd|tauto|exact Hin|congruence].
    - apply list_elem_of_filter in Hm as [Hma Hmdb].
      assert (m = f) by (apply (NoDup_fmap_eq id db); [exact Hnd|exact Hmdb|exact Hin|congruence]).
      subst m. congruence. }
  rewrite Hsplit, bind_app, bind_cons, !applyTo_app.
  rewrite (applyTo_untargeted (l1 ≫= verifyFlight now hotels) f).
  2:{ intros w (g & Hw & Hg)%list_elem_of_bind. apply (Hother g); [|exact Hw].
      apply elem_of_app. left. exact Hg. }
  assert (Hrest : forall x, id x = id f ->
            applyTo (l2 ≫= verifyFlight now hotels) x = x).
  { intros x Hx. apply applyTo_untargeted.
    intros w (g & Hw & Hg)%list_elem_of_bind. rewrite Hx. apply (Hother g); [|exact Hw].
    apply elem_of_app. right. exact Hg. }
  destruct (bool_decide (hotel_verification_status f = Some verified) || isHomeLocation f) eqn:Eskip.
  { assert (E : verifyFlight now hotels f = []) by (unfold verifyFlight; rewrite Eskip; reflexivity).
    rewrite E. cbn [applyTo foldl]. apply Hrest. reflexivity. }
  destruct (find (hotelMatches f) hotels) as [m|] eqn:Hfind.
  2:{ assert (E : verifyFlight now hotels f = [])
        by (unfold verifyFlight; rewrite Eskip, Hfind; reflexivity).
      rewrite E. cbn [applyTo foldl]. apply Hrest. reflexivity. }
  pose proof Hfind as Hm.
  apply find_some in Hm as [Hm _]. apply list_elem_of_In, list_elem_of_filter in Hm as [Hma Hmdb].
  assert (Hne : id f <> id m).
  { intros E. assert (m = f)
      by (apply (NoDup_fmap_eq id db); [exact Hnd|exact Hmdb|exact Hin|congruence]).
    subst m. congruence. }
  unfold verifyFlight. rewrite Eskip, Hfind.
  rewrite !applyTo_cons. cbn [target patch].
  rewrite String.eqb_refl.
  assert (E2 : String.eqb (id (merge {| set_status := None;
                 set_hotel_verification_status := Some verified;
                 set_linked_hotel_id := Some (or_else (document_id m) (id m));
                 set_linked_flight_id := None; set_return_date := None;
                 set_return_flight_id := None; set_outbound_flight_id := None;
                 set_days_spent := None; set_updated_at := Some now |} f)) (id m) = false).
  { cbn [id merge]. apply String.eqb_neq. exact Hne. }
  rewrite E2. cbn [applyTo foldl]. rewrite Hrest by reflexivity.
  cbn. repeat split; reflexivity.
Qed.

Lemma hotel_pass_on_a_flight_witness :
  let f' := applyTo (verifyHotels "2025-03-01T00:00:00.000Z" [muscatFlightA; muscatFlightB; muscatHotel])
                    muscatFlightA in
  hotel_verification_status f' = Some verified /\ linked_hotel_id f' = Some "h1".
Proof.
  pose proof (hotel_pass_on_a_flight "2025-03-01T00:00:00.000Z"
                [muscatFlightA; muscatFlightB; muscatHotel] muscatFlightA) as H.
  destruct H as [_ H].
  - apply (bool_decide_unpack _). vm_compute. exact I.
  - left.
  - reflexivity.
  - change (find (hotelMatches muscatFlightA)
              (filter (fun l => travel_type l = accommodation)
                      [muscatFlightA; muscatFlightB; muscatHotel]))
      with (Some muscatHotel) in H.
    cbn [orb bool_decide] in H.
    change (bool_decide (hotel_verification_status muscatFlightA = Some verified)
            || isHomeLocation muscatFlightA) with false in H.
    destruct H as (H1 & H2 & _). split; [exact H1|exact H2].
Defined.

(** *** Flight bridging *)

(** Every write of the bridging loop is one of the two writes of a pair
    made of an arrival of the list walked and an outbound of the list
    searched, the outbound starting no later than the arrival. *)
Lemma bridgeLoop_writes now outbounds (ws0 : list TravelLog) todo (ws : list TravelLog) (w : Write) :
  keyEq ws ws0 ->
  w ∈ snd (bridgeLoop now outbounds ws todo) ->
  exists a o arrival outbound s e,
    a ∈ todo /\ o ∈ outbounds
    /\ ws0 !! a = Some arrival /\ ws0 !! o = Some outbound
    /\ w ∈ bridgeWrites now outbound arrival
    /\ parse_iso_day (start_date outbound) = Some s
    /\ parse_iso_day (start_date arrival) = Some e
    /\ s <= e.
Proof.
  revert ws. induction todo as [|a todo IH]; intros ws Hkey; [intros H; inversion H|].
  cbn [bridgeLoop].
  destruct (bridgeStep now outbounds ws a) as [ws1 w1] eqn:Hstep.
  destruct (bridgeLoop now outbounds ws1 todo) as [ws2 w2] eqn:Hloop. cbn [snd].
  assert (Hlater : keyEq ws1 ws0 -> w ∈ w2 ->
            exists a' o arrival outbound s e,
              a' ∈ a :: todo /\ o ∈ outbounds
              /\ ws0 !! a' = Some arrival /\ ws0 !! o = Some outbound
              /\ w ∈ bridgeWrites now outbound arrival
              /\ parse_iso_day (start_date outbound) = Some s
              /\ parse_iso_day (start_date arrival) = Some e
              /\ s <= e).
  { intros Hkey1 Hw. specialize (IH ws1 Hkey1). rewrite Hloop in IH.
    destruct (IH Hw) as (a' & o & arr & ob & s & e & H1 & H2).
    exists a', o, arr, ob, s, e. split; [right; exact H1|exact H2]. }
  unfold bridgeStep in Hstep.
  destruct (ws !! a) as [arrival|] eqn:Ha.
  2:{ injection Hstep as <- <-. cbn [app]. apply Hlater. exact Hkey. }
  destruct (truthy (outbound_flight_id arrival)).
  { injection Hstep as <- <-. cbn [app]. apply Hlater. exact Hkey. }
  destruct (findOutbound ws outbounds arrival) as [o|] eqn:Hf.
  2:{ injection Hstep as <- <-. cbn [app]. apply Hlater. exact Hkey. }
  destruct (ws !! o) as [outbound|] eqn:Ho.
  2:{ injection Hstep as <- <-. cbn [app]. apply Hlater. exact Hkey. }
  injection Hstep as <- <-.
  rewrite elem_of_app. intros [Hw|Hw].
  - unfold findOutbound in Hf. apply find_some in Hf as [Hin Hb].
    rewrite Ho in Hb. apply bridgeable_days in Hb as (_ & s & e & Hs & He & Hse & _).
    apply list_elem_of_In in Hin. rewrite elem_of_reverse in Hin.
    destruct (Forall2_lookup_l _ _ _ _ _ Hkey Ha) as (arrival0 & Ha0 & Hai & Has).
    destruct (Forall2_lookup_l _ _ _ _ _ Hkey Ho) as (outbound0 & Ho0 & Hoi & Hos).
    exists a, o, arrival0, outbound0, s, e.
    split; [left|]. split; [exact Hin|]. split; [exact Ha0|]. split; [exact Ho0|].
    split; [rewrite <- (bridgeWrites_key now outbound arrival outbound0 arrival0); assumption|].
    rewrite <- Hos, <- Has. auto.
  - apply Hlater; [|exact Hw]. apply keyEq_bridged. exact Hkey.
Qed.

Lemma positions_elem (P : TravelLog -> bool) (allLogs : list TravelLog) (i : nat) :
  i ∈ positions P allLogs -> exists l, allLogs !! i = Some l /\ P l = true.
Proof.
  unfold positions. rewrite list_elem_of_filter. intros [H _].
  unfold holdsAt in H. destruct (allLogs !! i) as [l|]; [|contradiction].
  exists l. split; [reflexivity|]. apply Is_true_true. exact H.
Qed.

Lemma bridge_writes now (allLogs : list TravelLog) (w : Write) :
  w ∈ snd (bridgeFlights now allLogs) ->
  exists arrival outbound s e,
    arrival ∈ allLogs /\ outbound ∈ allLogs
    /\ travel_type arrival = flight /\ isHomeLocation arrival = true
    /\ status outbound = OpenAwaitingReturn /\ isHomeLocation outbound = false
    /\ w ∈ bridgeWrites now outbound arrival
    /\ parse_iso_day (start_date outbound) = Some s
    /\ parse_iso_day (start_date arrival) = Some e
    /\ s <= e.
Proof.
  unfold bridgeFlights. intros Hw.
  apply (bridgeLoop_writes now _ allLogs _ allLogs w (keyEq_refl allLogs)) in Hw
    as (a & o & arrival & outbound & s & e & Ha & Ho & Hla & Hlo & Hw & Hs & He & Hse).
  unfold arrivals in Ha. rewrite sortBy_Permutation in Ha.
  unfold openOutbounds in Ho. rewrite sortBy_Permutation in Ho.
  apply positions_elem in Ha as (la & Hla' & Pa).
  apply positions_elem in Ho as (lo & Hlo' & Po).
  rewrite Hla in Hla'. injection Hla' as <-. rewrite Hlo in Hlo'. injection Hlo' as <-.
  apply andb_true_iff in Pa as [Pa1 Pa2]. apply bool_decide_eq_true in Pa1.
  apply andb_true_iff in Po as [Po1 Po2]. apply bool_decide_eq_true in Po1.
  apply negb_true_iff in Po2.
  exists arrival, outbound, s, e.
  split; [eapply list_elem_of_lookup_2; exact Hla|].
  split; [eapply list_elem_of_lookup_2; exact Hlo|]. auto 10.
Qed.

(** X21: bridging rewrites only arrivals at home and open trips away from
    home: in a collection with distinct ids, every other record (a
    completed trip, a hotel stay) is the same after the pass. *)
Theorem bridging_leaves_other_records now (allLogs : list TravelLog) (l : TravelLog) :
  NoDup (id <$> allLogs) ->
  l ∈ allLogs ->
  (travel_type l = flight /\ isHomeLocation l = true -> False) ->
  (status l = OpenAwaitingReturn /\ isHomeLocation l = false -> False) ->
  applyTo (snd (bridgeFlights now allLogs)) l = l.
Proof.
  intros Hnd Hl Hna Hno. apply applyTo_untargeted. intros w Hw Ht.
  apply bridge_writes in Hw
    as (arrival & outbound & s & e & Ha & Ho & Ha1 & Ha2 & Ho1 & Ho2 & Hw & _).
  apply elem_of_cons in Hw as [->|Hw].
  - cbn [target] in Ht.
    assert (outbound = l) by (apply (NoDup_fmap_eq id allLogs); auto).
    subst. auto.
  - apply list_elem_of_singleton in Hw as ->. cbn [target] in Ht.
    assert (arrival = l) by (apply (NoDup_fmap_eq id allLogs); auto).
    subst. auto.
Qed.

Lemma bridging_leaves_other_records_witness :
  applyTo (snd (bridgeFlights "2025-03-01T00:00:00.000Z" (muscatHotel :: scenarioB))) muscatHotel
  = muscatHotel.
Proof.
  apply (bridging_leaves_other_records "2025-03-01T00:00:00.000Z" (muscatHotel :: scenarioB)).
  - apply (bool_decide_unpack _). vm_compute. exact I.
  - left.
  - intros [H _]. discriminate H.
  - intros [H _]. discriminate H.
Defined.

(** X22: an outbound that bridging links to a return flight ends as a
    completed trip: every record carrying its id has status Complete, a
    return date and a whole number of days, at least one. *)
Theorem bridged_outbound_is_complete now (allLogs : list TravelLog) (o a : string) (lo : TravelLog) :
  (o, a) ∈ returnLinks (snd (bridgeFlights now allLogs)) ->
  lo ∈ applyWrites allLogs (snd (bridgeFlights now allLogs)) ->
  id lo = o ->
  status lo = Complete
  /\ (exists n, days_spent lo = Some n /\ 1 <= n)
  /\ (exists d, return_date lo = Some d /\ is_Some (parse_iso_day d))
  /\ is_Some (return_flight_id lo).
Proof.
  intros Hlink Hlo Hid. unfold returnLinks in Hlink.
  apply list_elem_of_omap in Hlink as (w & Hw & Hset).
  apply fmap_Some in Hset as (a' & Hret & [= Ht <-]).
  rewrite applyWrites_applyTo in Hlo. apply list_elem_of_fmap in Hlo as (l0 & -> & Hl0).
  destruct (applyTo_key (snd (bridgeFlights now allLogs)) l0) as (Hkey & _).
  rewrite Hkey in Hid.
  apply (applyTo_invariant
           (fun x => status x = Complete
                     /\ (exists n, days_spent x = Some n /\ 1 <= n)
                     /\ (exists d, return_date x = Some d /\ is_Some (parse_iso_day d))
                     /\ is_Some (return_flight_id x))).
  - right. exists w. split; [exact Hw|]. split; [congruence|].
    apply bridge_writes in Hw
      as (arrival & outbound & s & e & _ & _ & _ & _ & _ & _ & Hw & Hs & He & Hse).
    apply elem_of_cons in Hw as [->|Hw].
    + intros x. cbn [merge patch status days_spent return_date return_flight_id
                     set_status set_days_spent set_return_date set_return_flight_id default].
      split; [reflexivity|]. split; [|split; [|eauto]].
      * unfold bridgedDays, getTime. rewrite Hs, He. cbn [fmap option_fmap option_map].
        eexists. split; [reflexivity|]. lia.
      * exists (start_date arrival). split; [reflexivity|]. rewrite He. eauto.
    + apply list_elem_of_singleton in Hw as ->. cbn in Hret. discriminate.
  - intros w' Hw' _ x (H1 & (n & H2 & Hn) & (d & H3 & Hd) & H4).
    apply bridge_writes in Hw'
      as (arrival & outbound & s & e & _ & _ & _ & _ & _ & _ & Hw' & Hs & He & Hse).
    apply elem_of_cons in Hw' as [->|Hw'].
    + cbn [merge patch status days_spent return_date return_flight_id
           set_status set_days_spent set_return_date set_return_flight_id default].
      split; [reflexivity|]. split; [|split; [|eauto]].
      * unfold bridgedDays, getTime. rewrite Hs, He. cbn [fmap option_fmap option_map].
        eexists. split; [reflexivity|]. lia.
      * exists (start_date arrival). split; [reflexivity|]. rewrite He. eauto.
    + apply list_elem_of_singleton in Hw' as ->.
      cbn [merge patch status days_spent return_date return_flight_id
           set_status set_days_spent set_return_date set_return_flight_id default].
      split; [exact H1|]. split; [eauto|]. split; [eauto|exact H4].
Qed.

Lemma bridged_outbound_is_complete_witness :
  let lo := applyTo (snd (bridgeFlights "2025-03-01T00:00:00.000Z" scenarioB)) muscatOutbound in
  status lo = Complete /\ exists n, days_spent lo = Some n /\ 1 <= n.
Proof.
  pose proof (bridged_outbound_is_complete "2025-03-01T00:00:00.000Z" scenarioB "o1" "r1"
                (applyTo (snd (bridgeFlights "2025-03-01T00:00:00.000Z" scenarioB)) muscatOutbound))
    as H.
  destruct H as (H1 & H2 & _).
  - assert (E : returnLinks (snd (bridgeFlights "2025-03-01T00:00:00.000Z" scenarioB))
                = [("o1", "r1")]) by (vm_compute; reflexivity).
    rewrite E. left.
  - rewrite applyWrites_applyTo. apply list_elem_of_fmap_2. right. right. left.
  - vm_compute. reflexivity.
  - split; [exact H1|exact H2].
Defined.

End SweepFacts.

(** * The whole of [addTravelLogs] *)

Module AddTravelLogsFacts.
Import JS Firebase FirebaseSpec FirebaseProofs.

Lemma applyTo_keeps_verified (ws : list Write) (l : TravelLog) :
  (forall w, w ∈ ws -> set_hotel_verification_status (patch w) = None
                       \/ set_hotel_verification_status (patch w) = Some verified) ->
  hotel_verification_status l = Some verified ->
  hotel_verification_status (applyTo ws l) = Some verified.
Proof.
  revert l. induction ws as [|w ws IH]; intros l Hall Hl; [exact Hl|].
  change (applyTo (w :: ws) l)
    with (applyTo ws (if String.eqb (id l) (target w) then merge (patch w) l else l)).
  apply IH; [intros w' Hw'; apply Hall; right; exact Hw'|].
  destruct (String.eqb (id l) (target w)); [|exact Hl].
  cbn. destruct (Hall w ltac:(left)) as [E|E]; rewrite E; [exact Hl|reflexivity].
Qed.

Lemma bridgeLoop_no_verification now outbounds (todo : list nat) (ws : list TravelLog) (w : Write) :
  w ∈ snd (bridgeLoop now outbounds ws todo) -> set_hotel_verification_status (patch w) = None.
Proof.
  revert ws. induction todo as [|a todo IH]; intros ws; [intros H; inversion H|].
  cbn [bridgeLoop].
  destruct (bridgeStep_cases now outbounds ws a)
    as [Hstep|(arrival & o & outbound & _ & _ & _ & _ & Hstep)]; rewrite Hstep.
  - specialize (IH ws). destruct (bridgeLoop now outbounds ws todo) as [ws2 w2]. exact IH.
  - match goal with |- context [bridgeLoop now outbounds ?ws1 todo] => specialize (IH ws1);
      destruct (bridgeLoop now outbounds ws1 todo) as [ws2 w2] end.
    cbn [snd] in *. rewrite elem_of_app. intros [Hw|Hw]; [|apply IH; exact Hw].
    apply elem_of_cons in Hw as [->|Hw]; [reflexivity|].
    apply list_elem_of_singleton in Hw as ->. reflexivity.
Qed.

(** X24: the sweep after ingestion creates and deletes nothing.  The
    collection after [addTravelLogs] holds the documents that ingestion
    left, position by position, each with its id, type, destination and
    start date; a document that was verified stays verified; and the
    value returned is the list of ingested records. *)
Theorem sweep_keeps_documents now freshId (db : Collection) (logs : list TravelLog) :
  snd (addTravelLogs now freshId db logs) = snd (ingest now freshId db logs)
  /\ Forall2 (fun l l' =>
                id l' = id l /\ travel_type l' = travel_type l
                /\ destination_city l' = destination_city l
                /\ destination_country l' = destination_country l
                /\ start_date l' = start_date l
                /\ (hotel_verification_status l = Some verified ->
                    hotel_verification_status l' = Some verified))
             (fst (ingest now freshId db logs))
             (fst (addTravelLogs now freshId db logs)).
Proof.
  unfold addTravelLogs. destruct (ingest now freshId db logs) as [db1 results].
  cbn [fst snd]. split; [reflexivity|].
  rewrite !applyWrites_applyTo. rewrite <- list_fmap_compose.
  apply Forall2_fmap_r, Forall_Forall2_diag, Forall_forall. intros l _.
  cbn [compose].
  set (l1 := applyTo (verifyHotels now db1) l).
  destruct (applyTo_key (snd (bridgeFlights now db1)) l1) as (K1 & K2 & K3 & K4 & K5).
  destruct (applyTo_key (verifyHotels now db1) l) as (J1 & J2 & J3 & J4 & J5).
  fold l1 in J1, J2, J3, J4, J5.
  split; [congruence|]. split; [congruence|]. split; [congruence|].
  split; [congruence|]. split; [congruence|].
  intros Hv. apply applyTo_keeps_verified.
  - intros w Hw. left. unfold bridgeFlights in Hw.
    eapply bridgeLoop_no_verification. exact Hw.
  - apply applyTo_keeps_verified; [|exact Hv].
    intros w Hw. right. apply verifyHotels_writes in Hw as (f & m & _ & _ & _ & _ & _ & H & _).
    exact H.
Qed.

End AddTravelLogsFacts.

(** * Calling [addTravelLogs] again *)

Module SweepAgainFacts.
Import JS Firebase FirebaseSpec ListFacts FirebaseProofs.

Lemma bridgeable_ext (a a' o o' : TravelLog) :
  start_date a = start_date a' -> start_date o = start_date o' ->
  return_flight_id o = return_flight_id o' ->
  bridgeable a o = bridgeable a' o'.
Proof. unfold bridgeable. intros -> -> ->. reflexivity. Qed.

Lemma bridgeStep_outcome now outs (ws : list TravelLog) (a : nat) :
  (bridgeStep now outs ws a = (ws, [])
   /\ forall arrival, ws !! a = Some arrival ->
        truthy (outbound_flight_id arrival) = true
        \/ forall o ob, o ∈ outs -> ws !! o = Some ob -> bridgeable arrival ob = false)
  \/ exists arrival o outbound,
       ws !! a = Some arrival /\ ws !! o = Some outbound /\ o ∈ outs
       /\ truthy (outbound_flight_id arrival) = false
       /\ bridgeStep now outs ws a
          = (alter (setOutboundFlightId (id outbound)) a
               (alter (setReturnFlightId (id arrival)) o ws),
             bridgeWrites now outbound arrival).
Proof.
  unfold bridgeStep.
  destruct (ws !! a) as [arrival|] eqn:Ha.
  2:{ left. split; [reflexivity|]. intros ? H. discriminate H. }
  destruct (truthy (outbound_flight_id arrival)) eqn:Hlinked.
  { left. split; [reflexivity|]. intros ? [= <-]. left. exact Hlinked. }
  destruct (findOutbound ws outs arrival) as [o|] eqn:Hf.
  - unfold findOutbound in Hf. pose proof (find_some _ _ Hf) as [Hin Hb].
    destruct (ws !! o) as [outbound|] eqn:Ho; [|discriminate Hb].
    right. exists arrival, o, outbound.
    apply list_elem_of_In in Hin. rewrite elem_of_reverse in Hin. auto 10.
  - left. split; [reflexivity|]. intros ? [= <-]. right. intros o ob Ho Hob.
    unfold findOutbound in Hf.
    pose proof (find_none _ _ Hf o) as Hn. cbn beta in Hn. rewrite Hob in Hn. apply Hn.
    apply list_elem_of_In. rewrite elem_of_reverse. exact Ho.
Qed.

Lemma lookup_bridged_fields (ws : list TravelLog) (a o : nat) ia io (k : nat) (l : TravelLog) :
  ws !! k = Some l ->
  exists l1,
    alter (setOutboundFlightId io) a (alter (setReturnFlightId ia) o ws) !! k = Some l1
    /\ id l1 = id l /\ start_date l1 = start_date l
    /\ outbound_flight_id l1 = (if decide (k = a) then Some io else outbound_flight_id l)
    /\ return_flight_id l1 = (if decide (k = o) then Some ia else return_flight_id l).
Proof.
  intros Hk.
  destruct (decide (k = a)) as [->|Hka]; destruct (decide (a = o)) as [Hao|Hao];
    try subst o.
  - rewrite list_lookup_alter_eq, list_lookup_alter_eq, Hk. cbn [fmap option_fmap option_map].
    eexists. split; [reflexivity|]. destruct (decide (a = a)); [|contradiction]. cbn. auto.
  - rewrite list_lookup_alter_eq, list_lookup_alter_ne, Hk by auto.
    cbn [fmap option_fmap option_map].
    eexists. split; [reflexivity|]. destruct (decide (a = o)); [contradiction|]. cbn. auto.
  - rewrite list_lookup_alter_ne, list_lookup_alter_ne, Hk by auto.
    eexists. split; [reflexivity|]. destruct (decide (k = a)); [contradiction|]. auto.
  - rewrite list_lookup_alter_ne by auto.
    destruct (decide (k = o)) as [->|Hko].
    + rewrite list_lookup_alter_eq, Hk. cbn [fmap option_fmap option_map].
      eexists. split; [reflexivity|]. cbn. auto.
    + rewrite list_lookup_alter_ne, Hk by auto. eexists. split; [reflexivity|]. auto.
Qed.

(** What one bridging loop does for each arrival it walks over: the
    arrival was linked already, or the loop links it, or every outbound
    it could search was unusable for it or is completed by the loop. *)
Lemma bridgeLoop_outcome now outs (ws0 : list TravelLog) :
  Forall (fun l => id l <> "") ws0 ->
  forall todo (ws : list TravelLog), keyEq ws ws0 ->
  forall a arr, a ∈ todo -> ws !! a = Some arr ->
    truthy (outbound_flight_id arr) = true
    \/ (exists w, w ∈ snd (bridgeLoop now outs ws todo) /\ target w = id arr
                  /\ exists i, set_outbound_flight_id (patch w) = Some i /\ i <> "")
    \/ (forall o ob, o ∈ outs -> ws !! o = Some ob ->
          bridgeable arr ob = false
          \/ exists w, w ∈ snd (bridgeLoop now outs ws todo) /\ target w = id ob
                       /\ set_status (patch w) = Some Complete).
Proof.
  intros Hids. induction todo as [|a0 todo IH]; intros ws Hkey a arr Ha Harr; [inversion Ha|].
  cbn [bridgeLoop].
  destruct (bridgeStep_outcome now outs ws a0)
    as [[Hstep Hnoop]|(arrival & o & outbound & Ha0 & Ho & Hin & Hfree & Hstep)]; rewrite Hstep.
  - specialize (IH ws Hkey a arr).
    destruct (bridgeLoop now outs ws todo) as [ws2 w2]. cbn [snd app] in *.
    apply elem_of_cons in Ha as [->|Ha]; [|exact (IH Ha Harr)].
    destruct (Hnoop arr Harr) as [H|H]; [left; exact H|].
    right. right. intros o ob Hino Hob. left. exact (H o ob Hino Hob).
  - set (ws1 := alter (setOutboundFlightId (id outbound)) a0
                  (alter (setReturnFlightId (id arrival)) o ws)) in *.
    assert (Hkey1 : keyEq ws1 ws0) by (apply keyEq_bridged; exact Hkey).
    specialize (IH ws1 Hkey1 a).
    destruct (bridgeLoop now outs ws1 todo) as [ws2 w2]. cbn [snd] in *.
    destruct (decide (a = a0)) as [->|Hne].
    + rewrite Ha0 in Harr. injection Harr as <-.
      right. left. eexists. split; [apply elem_of_app; left; right; left|].
      cbn [target patch set_outbound_flight_id]. split; [reflexivity|].
      exists (id outbound). split; [reflexivity|].
      destruct (Forall2_lookup_l _ _ _ _ _ Hkey Ho) as (outbound0 & Ho0 & Hoi & _).
      rewrite Hoi. rewrite Forall_forall in Hids. apply Hids.
      eapply list_elem_of_lookup_2. exact Ho0.
    + apply elem_of_cons in Ha as [->|Ha]; [contradiction|].
      destruct (lookup_bridged_fields ws a0 o (id arrival) (id outbound) a arr Harr)
        as (arr1 & Harr1 & Hid1 & Hsd1 & Hout1 & _).
      fold ws1 in Harr1. destruct (decide (a = a0)) as [|_]; [contradiction|].
      destruct (IH arr1 Ha Harr1) as [H|[(w & Hw & Ht & Hset)|H]].
      * left. rewrite <- Hout1. exact H.
      * right. left. exists w. split; [apply elem_of_app; right; exact Hw|].
        split; [congruence|exact Hset].
      * right. right. intros o' ob Hino' Hob.
        destruct (lookup_bridged_fields ws a0 o (id arrival) (id outbound) o' ob Hob)
          as (ob1 & Hob1 & Hido & Hsdo & _ & Hret).
        fold ws1 in Hob1.
        destruct (decide (o' = o)) as [->|Hneo].
        -- right. rewrite Ho in Hob. injection Hob as <-.
           eexists. split; [apply elem_of_app; left; left|]. cbn. auto.
        -- destruct (H o' ob1 Hino' Hob1) as [Hb|(w & Hw & Ht & Hs)].
           ++ left. rewrite <- Hb. apply bridgeable_ext; congruence.
           ++ right. exists w. split; [apply elem_of_app; right; exact Hw|].
              split; [congruence|exact Hs].
Qed.

Lemma bridgeLoop_idle now outs (ws : list TravelLog) (todo : list nat) :
  (forall a, a ∈ todo -> bridgeStep now outs ws a = (ws, [])) ->
  bridgeLoop now outs ws todo = (ws, []).
Proof.
  induction todo as [|a todo IH]; intros H; [reflexivity|].
  cbn [bridgeLoop]. rewrite (H a) by left. rewrite IH by (intros x Hx; apply H; right; exact Hx).
  reflexivity.
Qed.

Lemma bridgeStep_idle now outs (ws : list TravelLog) (a : nat) :
  (forall arrival, ws !! a = Some arrival ->
     truthy (outbound_flight_id arrival) = true
     \/ forall o ob, o ∈ outs -> ws !! o = Some ob -> bridgeable arrival ob = false) ->
  bridgeStep now outs ws a = (ws, []).
Proof.
  intros H. unfold bridgeStep.
  destruct (ws !! a) as [arrival|] eqn:Ha; [|reflexivity].
  destruct (H arrival eq_refl) as [Hl|Hn]; [rewrite Hl; reflexivity|].
  destruct (truthy (outbound_flight_id arrival)); [reflexivity|].
  unfold findOutbound. rewrite find_none_all; [reflexivity|].
  intros o Ho. rewrite elem_of_reverse in Ho.
  destruct (ws !! o) as [ob|] eqn:Hob; [|reflexivity]. exact (Hn o ob Ho Hob).
Qed.

Lemma positions_spec (P : TravelLog -> bool) (allLogs : list TravelLog) (i : nat) :
  i ∈ positions P allLogs <-> exists l, allLogs !! i = Some l /\ P l = true.
Proof.
  unfold positions. rewrite list_elem_of_filter, elem_of_seq. unfold holdsAt. split.
  - intros [H _]. destruct (allLogs !! i) as [l|]; [|contradiction].
    exists l. split; [reflexivity|]. apply Is_true_true. exact H.
  - intros (l & Hl & HP). rewrite Hl. split; [apply Is_true_true; exact HP|].
    apply lookup_lt_Some in Hl. lia.
Qed.

(** The fields a bridging write can set, for a collection whose ids are
    not empty. *)
Lemma bridge_write_shape now (allLogs : list TravelLog) (w : Write) :
  Forall (fun l => id l <> "") allLogs ->
  w ∈ snd (bridgeFlights now allLogs) ->
  (set_status (patch w) = None \/ set_status (patch w) = Some Complete)
  /\ (set_outbound_flight_id (patch w) = None
      \/ exists i, set_outbound_flight_id (patch w) = Some i /\ i <> "")
  /\ (set_return_flight_id (patch w) = None
      \/ exists i, set_return_flight_id (patch w) = Some i /\ i <> "").
Proof.
  intros Hids Hw. unfold bridgeFlights in Hw.
  apply (SweepFacts.bridgeLoop_writes now _ allLogs _ allLogs w (keyEq_refl allLogs)) in Hw
    as (a & o & arrival & outbound & s & e & _ & _ & Hla & Hlo & Hw & _).
  rewrite Forall_forall in Hids.
  assert (Hia : id arrival <> "") by (apply Hids; eapply list_elem_of_lookup_2; exact Hla).
  assert (Hio : id outbound <> "") by (apply Hids; eapply list_elem_of_lookup_2; exact Hlo).
  apply elem_of_cons in Hw as [->|Hw].
  - cbn. split; [auto|]. split; [auto|]. right. eauto.
  - apply list_elem_of_singleton in Hw as ->. cbn. split; [auto|]. split; [|auto]. right. eauto.
Qed.

Lemma truthy_Some (i : string) : i <> "" -> truthy (Some i) = true.
Proof. intros H. cbn. destruct (String.eqb_spec i ""); [contradiction|reflexivity]. Qed.

(** The shape of the writes of the hotel pass. *)
Lemma verify_write_shape now (db : list TravelLog) (w : Write) :
  w ∈ verifyHotels now db ->
  (set_status (patch w) = None \/ set_status (patch w) = Some Complete)
  /\ set_outbound_flight_id (patch w) = None
  /\ set_return_flight_id (patch w) = None.
Proof.
  unfold verifyHotels. rewrite list_elem_of_bind. intros (f & Hw & _).
  unfold verifyFlight in Hw.
  destruct (_ || _); [inversion Hw|].
  destruct (find (hotelMatches f) _) as [m|]; [|inversion Hw].
  apply elem_of_cons in Hw as [->|Hw]; [cbn; auto|].
  apply list_elem_of_singleton in Hw as ->. cbn. auto.
Qed.

(** A bridging pass over a collection that a bridging pass has
    rewritten, possibly after writes that link no flight, issues no
    write: each arrival is linked by now, or no open outbound is left
    for it. *)
Lemma bridging_after_a_pass now1 now2 (allLogs : list TravelLog) (V : list Write) :
  Forall (fun l => id l <> "") allLogs ->
  (forall w, w ∈ V ->
     (set_status (patch w) = None \/ set_status (patch w) = Some Complete)
     /\ set_outbound_flight_id (patch w) = None
     /\ set_return_flight_id (patch w) = None) ->
  let db1 := applyWrites allLogs (V ++ snd (bridgeFlights now1 allLogs)) in
  bridgeFlights now2 db1 = (db1, []).
Proof.
  intros Hids HV. cbv zeta.
  set (B := snd (bridgeFlights now1 allLogs)).
  set (W := V ++ B).
  assert (Hshape : forall w, w ∈ W ->
            (set_status (patch w) = None \/ set_status (patch w) = Some Complete)
            /\ (set_outbound_flight_id (patch w) = None
                \/ exists i, set_outbound_flight_id (patch w) = Some i /\ i <> "")
            /\ (set_return_flight_id (patch w) = None
                \/ exists i, set_return_flight_id (patch w) = Some i /\ i <> "")).
  { intros w Hw. apply elem_of_app in Hw as [Hw|Hw].
    - destruct (HV w Hw) as (H1 & H2 & H3). auto.
    - apply (bridge_write_shape now1 allLogs w Hids Hw). }
  assert (Hlinked : forall l, truthy (outbound_flight_id l) = true
            \/ (exists w, w ∈ W /\ target w = id l
                          /\ exists i, set_outbound_flight_id (patch w) = Some i /\ i <> "") ->
            truthy (outbound_flight_id (applyTo W l)) = true).
  { intros l H. apply (SweepFacts.applyTo_invariant (fun x => truthy (outbound_flight_id x) = true)).
    - destruct H as [H|(w & Hw & Ht & i & Hs & Hi)]; [left; exact H|].
      right. exists w. split; [exact Hw|]. split; [exact Ht|].
      intros x. cbn [merge outbound_flight_id]. rewrite Hs. apply truthy_Some. exact Hi.
    - intros w Hw _ x Hx. destruct (Hshape w Hw) as (_ & [E|(i & E & Hi)] & _);
        cbn [merge outbound_flight_id]; rewrite E; [exact Hx|apply truthy_Some; exact Hi]. }
  assert (Hreturn : forall l, truthy (return_flight_id l) = true ->
            truthy (return_flight_id (applyTo W l)) = true).
  { intros l H. apply (SweepFacts.applyTo_invariant (fun x => truthy (return_flight_id x) = true)).
    - left. exact H.
    - intros w Hw _ x Hx. destruct (Hshape w Hw) as (_ & _ & [E|(i & E & Hi)]);
        cbn [merge return_flight_id]; rewrite E; [exact Hx|apply truthy_Some; exact Hi]. }
  assert (Hcomplete : forall l, (exists w, w ∈ W /\ target w = id l
                                           /\ set_status (patch w) = Some Complete) ->
            status (applyTo W l) = Complete).
  { intros l (w & Hw & Ht & Hs). apply (SweepFacts.applyTo_invariant (fun x => status x = Complete)).
    - right. exists w. split; [exact Hw|]. split; [exact Ht|].
      intros x. cbn [merge status]. rewrite Hs. reflexivity.
    - intros w' Hw' _ x Hx. destruct (Hshape w' Hw') as ([E|E] & _);
        cbn [merge status]; rewrite E; [exact Hx|reflexivity]. }
  assert (Hopen : forall l, status (applyTo W l) = OpenAwaitingReturn ->
            status l = OpenAwaitingReturn).
  { intros l H. destruct (status l) eqn:Es; [|reflexivity|].
    - assert (status (applyTo W l) = Complete); [|congruence].
      apply (SweepFacts.applyTo_invariant (fun x => status x = Complete)); [left; exact Es|].
      intros w' Hw' _ x Hx. destruct (Hshape w' Hw') as ([E|E] & _);
        cbn [merge status]; rewrite E; [exact Hx|reflexivity].
    - assert (status (applyTo W l) <> OpenAwaitingReturn); [|contradiction].
      apply (SweepFacts.applyTo_invariant (fun x => status x <> OpenAwaitingReturn));
        [left; rewrite Es; discriminate|].
      intros w' Hw' _ x Hx. destruct (Hshape w' Hw') as ([E|E] & _);
        cbn [merge status]; rewrite E; [exact Hx|discriminate]. }
  unfold bridgeFlights. apply bridgeLoop_idle. intros a Ha. apply bridgeStep_idle.
  intros arr1 Harr1.
  unfold arrivals in Ha. rewrite sortBy_Permutation in Ha.
  apply positions_spec in Ha as (arr1' & Harr1' & Parr).
  rewrite Harr1 in Harr1'. injection Harr1' as <-.
  rewrite applyWrites_applyTo, list_lookup_fmap in Harr1.
  destruct (allLogs !! a) as [arr0|] eqn:Harr0; [|discriminate].
  cbn in Harr1. injection Harr1 as <-.
  destruct (applyTo_key W arr0) as (Ka1 & Ka2 & _ & _ & Ka5).
  assert (Ha0 : a ∈ arrivals allLogs).
  { unfold arrivals. rewrite sortBy_Permutation. apply positions_spec.
    exists arr0. split; [exact Harr0|].
    rewrite Ka2, isHomeLocation_applyTo in Parr. exact Parr. }
  destruct (bridgeLoop_outcome now1 (openOutbounds allLogs) allLogs Hids
              (arrivals allLogs) allLogs (keyEq_refl allLogs) a arr0 Ha0 Harr0)
    as [H|[(w & Hw & H)|H]].
  - left. apply Hlinked. left. exact H.
  - left. apply Hlinked. right. exists w. split; [apply elem_of_app; right; exact Hw|exact H].
  - right. intros o ob1 Ho Hob1.
    unfold openOutbounds in Ho. rewrite sortBy_Permutation in Ho.
    apply positions_spec in Ho as (ob1' & Hob1' & Pob).
    rewrite Hob1 in Hob1'. injection Hob1' as <-.
    rewrite applyWrites_applyTo, list_lookup_fmap in Hob1.
    destruct (allLogs !! o) as [ob0|] eqn:Hob0; [|discriminate].
    cbn in Hob1. injection Hob1 as <-.
    destruct (applyTo_key W ob0) as (Ko1 & _ & _ & _ & Ko5).
    apply andb_true_iff in Pob as [Pst Phome]. apply bool_decide_eq_true in Pst.
    rewrite isHomeLocation_applyTo in Phome.
    assert (Ho0 : o ∈ openOutbounds allLogs).
    { unfold openOutbounds. rewrite sortBy_Permutation. apply positions_spec.
      exists ob0. split; [exact Hob0|].
      rewrite (Hopen ob0 Pst), Phome. reflexivity. }
    destruct (H o ob0 Ho0 Hob0) as [Hb|(w & Hw & Hw')].
    + unfold bridgeable in *. rewrite Ka5, Ko5.
      apply andb_false_iff in Hb as [Hb|Hb]; [rewrite Hb; reflexivity|].
      apply negb_false_iff in Hb. rewrite (Hreturn ob0 Hb). apply andb_false_r.
    + assert (Hc : status (applyTo W ob0) = Complete).
      { apply Hcomplete. exists w. split; [apply elem_of_app; right; exact Hw|exact Hw']. }
      rewrite Hc in Pst. discriminate.
Qed.

(** A hotel pass over a collection that a hotel pass has rewritten,
    possibly before writes that verify and link no hotel, issues no
    write. *)
Lemma hotel_pass_after_a_pass now1 now2 (db : list TravelLog) (B : list Write) :
  NoDup (id <$> db) ->
  (forall w, w ∈ B -> set_hotel_verification_status (patch w) = None
                      /\ set_linked_flight_id (patch w) = None) ->
  verifyHotels now2 (applyWrites db (verifyHotels now1 db ++ B)) = [].
Proof.
  intros Hnd HB. rewrite applyWrites_applyTo.
  set (V := verifyHotels now1 db). set (ws := V ++ B).
  assert (Hv : forall w, w ∈ ws ->
            set_hotel_verification_status (patch w) = None
            \/ set_hotel_verification_status (patch w) = Some verified).
  { intros w Hw. apply elem_of_app in Hw as [Hw|Hw].
    - right. apply verifyHotels_writes in Hw as (f & m & _ & _ & _ & _ & _ & H & _). exact H.
    - left. apply (HB w Hw). }
  unfold verifyHotels at 1. apply bind_nil_all. intros f1 Hf1.
  apply list_elem_of_filter in Hf1 as [Hty1 Hf1].
  apply list_elem_of_fmap in Hf1 as (f & -> & Hf).
  destruct (applyTo_key ws f) as (Hid & Hty & Hcity & Hcountry & Hstart).
  unfold verifyFlight.
  destruct (bool_decide (hotel_verification_status (applyTo ws f) = Some verified)) eqn:Hver;
    [reflexivity|].
  rewrite isHomeLocation_applyTo. destruct (isHomeLocation f) eqn:Hhome; [reflexivity|].
  cbn [orb]. apply bool_decide_eq_false in Hver.
  assert (Hnotver : hotel_verification_status f <> Some verified).
  { intros H. apply Hver, AddTravelLogsFacts.applyTo_keeps_verified; auto. }
  assert (Hnotarget : forall w, w ∈ V -> target w <> id f).
  { intros w Hw Ht. apply Hver.
    apply (SweepFacts.applyTo_invariant (fun x => hotel_verification_status x = Some verified)).
    - right. exists w. split; [apply elem_of_app; left; exact Hw|]. split; [exact Ht|].
      intros x. apply verifyHotels_writes in Hw as (g & m & _ & _ & _ & _ & _ & H & _).
      cbn [merge hotel_verification_status]. rewrite H. reflexivity.
    - intros w' Hw' _ x Hx. cbn [merge hotel_verification_status].
      destruct (Hv w' Hw') as [E|E]; rewrite E; [exact Hx|reflexivity]. }
  assert (Hfind : find (hotelMatches f) (filter (fun l => travel_type l = accommodation) db) = None).
  { destruct (verifyFlight_targets now1 (filter (fun l => travel_type l = accommodation) db) f)
      as [Hnil|(w & Hw & Ht)].
    - unfold verifyFlight in Hnil.
      rewrite Hhome, orb_false_r in Hnil.
      rewrite bool_decide_eq_false_2 in Hnil by exact Hnotver.
      destruct (find _ _); [discriminate | reflexivity].
    - exfalso. apply (Hnotarget w); [|exact Ht].
      unfold V, verifyHotels. apply list_elem_of_bind. exists f. split; [exact Hw|].
      apply list_elem_of_filter. split; [congruence|exact Hf]. }
  rewrite find_none_all; [reflexivity|].
  intros h1 Hh1. apply list_elem_of_filter in Hh1 as [Hhty1 Hh1].
  apply list_elem_of_fmap in Hh1 as (h & -> & Hh).
  destruct (applyTo_key ws h) as (Hhid & Hhty & Hhcity & _ & Hhstart).
  assert (Hh0 : hotelMatches f h = false).
  { eapply find_none in Hfind; [exact Hfind|].
    apply list_elem_of_In, list_elem_of_filter. split; [congruence | exact Hh]. }
  destruct (hotelMatches (applyTo ws f) (applyTo ws h)) eqn:Hm1; [|reflexivity].
  exfalso. rewrite hotelMatches_split in Hh0, Hm1.
  assert (Hcd : cityAndDate (applyTo ws f) (applyTo ws h) = cityAndDate f h).
  { unfold cityAndDate. rewrite Hcity, Hhcity, Hstart, Hhstart. reflexivity. }
  rewrite Hcd in Hm1. apply andb_true_iff in Hm1 as [Hcd1 Hfree1].
  rewrite Hcd1 in Hh0. cbn [andb] in Hh0.
  unfold freeFor in Hh0. apply orb_false_iff in Hh0 as [Htr Hne].
  apply negb_false_iff in Htr. apply bool_decide_eq_false in Hne.
  assert (Hlink : linked_flight_id (applyTo ws h) = linked_flight_id h).
  { apply applyTo_linked_flight. intros w Hw Ht.
    apply elem_of_app in Hw as [Hw|Hw]; [|left; apply (HB w Hw)].
    apply verifyHotels_writes in Hw
      as (g & m & Hg & Hm & _ & Hmty & Hgm & _ & [[_ Hl]|[Htm Hl]]); [left; exact Hl|].
    right. rewrite Hl.
    assert (m = h) as -> by (eapply (NoDup_fmap_eq id db); eauto; congruence).
    rewrite hotelMatches_split in Hgm. apply andb_true_iff in Hgm as [_ Hgm].
    unfold freeFor in Hgm. rewrite Htr in Hgm. cbn [negb orb] in Hgm.
    apply bool_decide_eq_true in Hgm. congruence. }
  unfold freeFor in Hfree1. rewrite Hlink, Hid, Htr in Hfree1. cbn [negb orb] in Hfree1.
  apply bool_decide_eq_true in Hfree1. contradiction.
Qed.

(** X23: calling [addTravelLogs] again changes nothing.  When the
    collection left by ingestion has distinct, non-empty document ids, a
    second call with the same records (or with none of them) ingests
    nothing, and its two passes issue no write: the collection stays as
    the first call left it and the call returns no record. *)
Theorem calling_again_changes_nothing now1 freshId1 now2 freshId2 (db : Collection)
    (logs : list TravelLog) :
  NoDup (id <$> fst (ingest now1 freshId1 db logs)) ->
  Forall (fun l => id l <> "") (fst (ingest now1 freshId1 db logs)) ->
  let db3 := fst (addTravelLogs now1 freshId1 db logs) in
  addTravelLogs now2 freshId2 db3 logs = (db3, [])
  /\ addTravelLogs now2 freshId2 db3 [] = (db3, []).
Proof.
  intros Hnd Hids. cbv zeta.
  pose proof (IngestFacts.ingest_after_a_call now1 freshId1 now2 freshId2 db logs) as Hagain.
  assert (Hsweep : forall db3, db3 = fst (addTravelLogs now1 freshId1 db logs) ->
            verifyHotels now2 db3 = [] /\ bridgeFlights now2 db3 = (db3, [])).
  { intros db3 ->. unfold addTravelLogs.
    destruct (ingest now1 freshId1 db logs) as [db1 results]. cbn [fst] in *.
    unfold applyWrites. rewrite <- foldl_app.
    fold (applyWrites db1 (verifyHotels now1 db1 ++ snd (bridgeFlights now1 db1))).
    split.
    - apply hotel_pass_after_a_pass; [exact Hnd|].
      intros w Hw. apply SweepFacts.bridge_writes in Hw
        as (arrival & outbound & s & e & _ & _ & _ & _ & _ & _ & Hw & _).
      apply elem_of_cons in Hw as [->|Hw]; [cbn; auto|].
      apply list_elem_of_singleton in Hw as ->. cbn. auto.
    - apply bridging_after_a_pass; [exact Hids|].
      intros w Hw. apply (verify_write_shape now1 db1 w Hw). }
  destruct (Hsweep _ eq_refl) as [Hv Hb].
  split.
  - unfold addTravelLogs at 1. rewrite Hagain, Hv, Hb. reflexivity.
  - unfold addTravelLogs at 1. unfold ingest. cbn [sortBy foldl]. rewrite Hv, Hb. reflexivity.
Qed.

Lemma calling_again_changes_nothing_witness :
  addTravelLogs "2025-03-02T00:00:00.000Z" Samples.nextId
    (fst (addTravelLogs "2025-03-01T00:00:00.000Z" Samples.nextId [] [muscatOutbound; dubaiArrival]))
    [muscatOutbound; dubaiArrival]
  = (fst (addTravelLogs "2025-03-01T00:00:00.000Z" Samples.nextId [] [muscatOutbound; dubaiArrival]),
     []).
Proof.
  apply (calling_again_changes_nothing "2025-03-01T00:00:00.000Z" Samples.nextId
           "2025-03-02T00:00:00.000Z" Samples.nextId [] [muscatOutbound; dubaiArrival]).
  - apply (bool_decide_unpack _). vm_compute. exact I.
  - apply Forall_forall. intros l Hl.
    assert (E : id <$> fst (ingest "2025-03-01T00:00:00.000Z" Samples.nextId []
                              [muscatOutbound; dubaiArrival]) = ["doc1"; "doc2"])
      by (vm_compute; reflexivity).
    apply (list_elem_of_fmap_2 id) in Hl. rewrite E in Hl.
    apply elem_of_cons in Hl as [->|Hl]; [discriminate|].
    apply list_elem_of_singleton in Hl as ->. discriminate.
Defined.

End SweepAgainFacts.

(** * Bridging: the nearest preceding outbound *)

Module BridgingFacts.
Import JS Firebase FirebaseSpec ListFacts FirebaseProofs SweepFacts SweepAgainFacts.

Section Order.
Variable allLogs : list TravelLog.

Lemma earlier_irrefl (i : nat) : ~ earlier allLogs i i.
Proof.
  intros (li & lj & di & dj & Hi & Hj & Hdi & Hdj & H).
  rewrite Hi in Hj. injection Hj as <-. rewrite Hdi in Hdj. injection Hdj as <-. lia.
Qed.

Lemma earlier_trans (i j k : nat) :
  earlier allLogs i j -> earlier allLogs j k -> earlier allLogs i k.
Proof.
  intros (li & lj & di & dj & Hi & Hj & Hdi & Hdj & H)
         (lj' & lk & dj' & dk & Hj' & Hk & Hdj' & Hdk & H').
  rewrite Hj in Hj'. injection Hj' as <-. rewrite Hdj in Hdj'. injection Hdj' as <-.
  exists li, lk, di, dk. repeat split; try assumption. lia.
Qed.

Lemma earlier_asym (i j : nat) : earlier allLogs i j -> ~ earlier allLogs j i.
Proof. intros H1 H2. exact (earlier_irrefl i (earlier_trans _ _ _ H1 H2)). Qed.







End Order.

Section Loop.
Variable now : string.
Variable allLogs : list TravelLog.
Variable outs : list nat.
Hypothesis Hids : Forall (fun l => id l <> "") allLogs.
Hypothesis Hsorted : StronglySorted (earlier allLogs) outs.








End Loop.







End BridgingFacts.


(** * Expenses: storing *)

Module ExpensesFacts.
Import JS Reconciler Expenses ListFacts.

Lemma insertDoc_expense_Permutation (d : Expense) (db : list Expense) : insertDoc d db ≡ₚ d :: db.
Proof.
  induction db as [|e db IH]; [reflexivity|]. cbn.
  destruct (String.ltb (id d) (id e)); [reflexivity|].
  rewrite IH. apply Permutation_swap.
Qed.

Lemma add_state freshId existing (l : list Expense) (db : Collection) (res : list Expense) :
  let st := foldl (addStep freshId existing) (db, res) l in
  exists added,
    snd st = res ++ added
    /\ fst st ≡ₚ db ++ added
    /\ Forall2 (fun exp r => r = withId (id r) exp)
               (filter (fun exp => isDup existing exp = false) l) added.
Proof.
  cbv zeta. revert db res. induction l as [|exp l IH]; intros db res; cbn [foldl].
  - exists []. cbn. rewrite !app_nil_r. split; [reflexivity|]. split; [reflexivity|constructor].
  - unfold addStep at 2 4. rewrite filter_cons.
    destruct (isDup existing exp) eqn:Ed; cbn [negb].
    + destruct (IH db res) as (added & H1 & H2 & H3). exists added.
      split; [exact H1|]. split; [exact H2|].
      destruct (decide (true = false)) as [E|_]; [discriminate E|exact H3].
    + destruct (IH (insertDoc (withId (freshId db) exp) db)
                  (res ++ [withId (freshId db) exp])) as (added & H1 & H2 & H3).
      exists (withId (freshId db) exp :: added).
      split; [rewrite H1, <- app_assoc; reflexivity|].
      split.
      { rewrite H2, insertDoc_expense_Permutation. solve_Permutation. }
      destruct (decide (false = false)) as [_|E]; [|contradiction].
      constructor; [reflexivity|exact H3].
Qed.

(** X25: [addExpenses] stores exactly the expenses that are no duplicate of
    a stored one, in the order given, each under a new id; the collection
    grows by the returned documents and by nothing else.  A duplicate has
    the merchant of a stored expense up to case, its date, and an amount
    whose difference from the stored one, as binary64 subtraction delivers
    it, is below the number 0.01 in absolute value. *)
Theorem new_expenses_are_stored freshId (db expenses : list Expense) :
  Forall2 (fun exp r => r = withId (id r) exp)
          (filter (fun exp => isDup db exp = false) expenses)
          (snd (addExpenses freshId db expenses))
  /\ fst (addExpenses freshId db expenses) ≡ₚ db ++ snd (addExpenses freshId db expenses)
  /\ forall exp,
       isDup db exp = true
       <-> exists e, e ∈ db
             /\ toLowerCase (merchant e) = toLowerCase (merchant exp)
             /\ num_lt (Math_abs (fsub (Num (amount e)) (Num (amount exp)))) (dec (1 # 100)) = true
             /\ date e = date exp.
Proof.
  unfold addExpenses.
  destruct (add_state freshId db expenses db []) as (added & H1 & H2 & H3).
  cbn [app] in H1. rewrite H1. split; [exact H3|]. split; [exact H2|].
  intros exp. unfold isDup. rewrite existsb_exists. split.
  - intros (e & He & H). apply andb_true_iff in H as [H Hd]. apply andb_true_iff in H as [Hm Ha].
    apply String.eqb_eq in Hm, Hd. exists e. split; [apply list_elem_of_In; exact He|]. auto.
  - intros (e & He & Hm & Ha & Hd). exists e. split; [apply list_elem_of_In; exact He|].
    rewrite Hm, Ha, Hd, !String.eqb_refl. reflexivity.
Qed.

(** A payment of 10.01 submitted after a stored one of 10 at the same
    merchant and date is dropped: [10.01 - 10] is 0.009999999999999787 in
    binary64 arithmetic. *)
Lemma a_hundredth_apart_is_a_duplicate :
  let stored := withId "e1" Samples.cafePayment in
  let submitted := ReconcilerSpec.expense "" "Cafe" (literal (1001 # 100)) "AED" "2025-03-10"
                                          "Meals" "receipt" in
  isDup [stored] submitted = true
  /\ snd (addExpenses (fun _ => "e2") [stored] [submitted]) = [].
Proof. vm_compute. split; reflexivity. Qed.

Lemma isDup_elem (existing : list Expense) (exp : Expense) :
  isDup existing exp = true <-> exists e, e ∈ existing /\ isDup [e] exp = true.
Proof.
  unfold isDup. rewrite existsb_exists. split.
  - intros (e & He & H). exists e. split; [apply list_elem_of_In; exact He|].
    cbn [existsb]. rewrite H. reflexivity.
  - intros (e & He & H). exists e. split; [apply list_elem_of_In; exact He|].
    cbn [existsb] in H. rewrite orb_false_r in H. exact H.
Qed.

Lemma isDup_stored i (exp : Expense) : isDup [withId i exp] exp = true.
Proof.
  unfold isDup. cbn [existsb withId merchant amount date].
  rewrite !String.eqb_refl, orb_false_r, andb_true_r. cbn [andb].
  rewrite NumberFacts.fsub_self. vm_compute. reflexivity.
Qed.

Lemma add_all_duplicates freshId existing (l : list Expense) st :
  (forall exp, exp ∈ l -> isDup existing exp = true) ->
  foldl (addStep freshId existing) st l = st.
Proof.
  revert st. induction l as [|exp l IH]; intros st Hall; [reflexivity|].
  cbn [foldl]. destruct st as [db res]. unfold addStep at 2.
  rewrite (Hall exp) by left. apply IH. intros x Hx. apply Hall. right. exact Hx.
Qed.

(** X26: submitting the same expenses again stores nothing: after a
    call, each of its expenses is a duplicate of a stored one. *)
Theorem adding_expenses_again_adds_nothing freshId1 freshId2 (db expenses : list Expense) :
  let db1 := fst (addExpenses freshId1 db expenses) in
  addExpenses freshId2 db1 expenses = (db1, []).
Proof.
  cbv zeta. unfold addExpenses at 1. apply add_all_duplicates.
  intros exp Hexp.
  destruct (add_state freshId1 db expenses db []) as (added & H1 & Hdb & HF).
  cbn [app] in H1. fold (addExpenses freshId1 db expenses) in H1, Hdb.
  rewrite <- H1 in HF, Hdb.
  apply isDup_elem.
  destruct (isDup db exp) eqn:Ed.
  - apply isDup_elem in Ed as (e & He & Hd). exists e. split; [|exact Hd].
    rewrite Hdb. apply elem_of_app. left. exact He.
  - assert (Hin : exp ∈ filter (fun exp => isDup db exp = false) expenses).
    { apply list_elem_of_filter. split; assumption. }
    apply list_elem_of_lookup in Hin as (k & Hk).
    destruct (Forall2_lookup_l _ _ _ _ _ HF Hk) as (r & Hr & Er).
    exists r. split; [|rewrite Er; apply isDup_stored].
    rewrite Hdb. apply elem_of_app. right. eapply list_elem_of_lookup_2. exact Hr.
Qed.

(** X27: two copies of a new expense in one call are both stored: the
    duplicate check reads the collection as it was before the call. *)
Theorem expense_copies_in_one_call_are_both_stored freshId (db : list Expense) (exp : Expense) :
  isDup db exp = false ->
  snd (addExpenses freshId db [exp; exp])
  = [withId (freshId db) exp; withId (freshId (insertDoc (withId (freshId db) exp) db)) exp].
Proof.
  intros Hd. unfold addExpenses. cbn [foldl]. unfold addStep at 2. rewrite Hd. cbn [negb].
  unfold addStep. rewrite Hd. reflexivity.
Qed.

Lemma expense_copies_in_one_call_are_both_stored_witness :
  length (snd (addExpenses (fun _ => "e1") [] [Samples.cafePayment; Samples.cafePayment])) = 2%nat.
Proof.
  rewrite (expense_copies_in_one_call_are_both_stored (fun _ => "e1") [] Samples.cafePayment).
  - reflexivity.
  - vm_compute. reflexivity.
Defined.

End ExpensesFacts.


(** * Extraction: the flight legs of one document *)

Module GeminiFacts.
Import JS Gemini.

Lemma date_mergeLeg (main l : RawTravelLog) :
  date (mergeLeg main l) = if dateLt (date l) (date main) then date l else date main.
Proof.
  unfold mergeLeg.
  repeat match goal with
         | |- context [if ?c then _ else _] => destruct c
         end; reflexivity.
Qed.

Lemma end_date_mergeLeg (main l : RawTravelLog) :
  end_date (mergeLeg main l)
  = if negb (truthy (end_date main))
       || (truthy (end_date l) && dateLt (default "" (end_date main)) (default "" (end_date l)))
    then Some (or_else (end_date l) (date l)) else end_date main.
Proof.
  unfold mergeLeg.
  destruct (dateLt (date l) (date main)); cbn [end_date setDate];
    destruct (negb (truthy (end_date main))
              || (truthy (end_date l)
                  && dateLt (default "" (end_date main)) (default "" (end_date l))));
    repeat match goal with
           | |- context [if ?c then _ else _] => destruct c
           end; reflexivity.
Qed.

Lemma type_mergeLeg (main l : RawTravelLog) : type (mergeLeg main l) = type main.
Proof.
  unfold mergeLeg.
  repeat match goal with
         | |- context [if ?c then _ else _] => destruct c
         end; reflexivity.
Qed.

Lemma earliest_fold (rest : list RawTravelLog) (main : RawTravelLog) (seen : list string) (t : Z) :
  getTime (date main) = Some t ->
  date main ∈ seen ->
  (forall d td, d ∈ seen -> getTime d = Some td -> t <= td) ->
  Forall (fun l => is_Some (getTime (date l))) rest ->
  exists t', getTime (date (foldl mergeLeg main rest)) = Some t'
             /\ date (foldl mergeLeg main rest) ∈ seen ++ (date <$> rest)
             /\ forall d td, d ∈ seen ++ (date <$> rest) -> getTime d = Some td -> t' <= td.
Proof.
  revert main seen t. induction rest as [|l rest IH]; intros main seen t Ht Hin Hmin Hvalid.
  - exists t. cbn. rewrite app_nil_r. auto.
  - apply Forall_cons in Hvalid as [[tl Hl] Hvalid]. cbn [foldl fmap list_fmap].
    replace (seen ++ date l :: (date <$> rest)) with ((seen ++ [date l]) ++ (date <$> rest))
      by (rewrite <- app_assoc; reflexivity).
    pose proof (date_mergeLeg main l) as Hd. unfold dateLt in Hd. rewrite Hl, Ht in Hd.
    destruct (tl <? t) eqn:Elt.
    + apply Z.ltb_lt in Elt. apply (IH _ _ tl); [rewrite Hd; exact Hl| | |exact Hvalid].
      * rewrite Hd. apply elem_of_app. right. left.
      * intros d td Hdin Htd. apply elem_of_app in Hdin as [Hdin|Hdin].
        -- specialize (Hmin d td Hdin Htd). lia.
        -- apply list_elem_of_singleton in Hdin as ->. rewrite Hl in Htd. injection Htd as <-. lia.
    + apply Z.ltb_ge in Elt. apply (IH _ _ t); [rewrite Hd; exact Ht| | |exact Hvalid].
      * rewrite Hd. apply elem_of_app. left. exact Hin.
      * intros d td Hdin Htd. apply elem_of_app in Hdin as [Hdin|Hdin].
        -- exact (Hmin d td Hdin Htd).
        -- apply list_elem_of_singleton in Hdin as ->. rewrite Hl in Htd. injection Htd as <-. lia.
Qed.

(** X28: all the flight legs of a document become one flight record, and,
    when every leg carries a valid date, that record starts on the
    earliest of the legs' dates. *)
Theorem consolidated_flight_starts_earliest (rawLogs : list RawTravelLog) :
  let legs := filter (fun l => type l = Firebase.flight) rawLogs in
  (length (consolidatedFlights rawLogs) <= 1)%nat
  /\ (consolidatedFlights rawLogs = [] <-> legs = [])
  /\ (Forall (fun l => is_Some (getTime (date l))) legs ->
      forall main, main ∈ consolidatedFlights rawLogs ->
        type main = Firebase.flight
        /\ date main ∈ date <$> legs
        /\ exists t, getTime (date main) = Some t
                     /\ forall l tl, l ∈ legs -> getTime (date l) = Some tl -> t <= tl).
Proof.
  cbv zeta. unfold consolidatedFlights.
  remember (filter (fun l => type l = Firebase.flight) rawLogs) as legs eqn:Elegs.
  assert (Hty : Forall (fun l => type l = Firebase.flight) legs).
  { subst legs. apply Forall_forall. intros l Hl. apply list_elem_of_filter in Hl. tauto. }
  clear Elegs. destruct legs as [|first rest].
  - split; [cbn; lia|]. split; [tauto|]. intros _ main H. inversion H.
  - split; [cbn; lia|]. split; [split; discriminate|].
    intros Hvalid main Hmain. apply list_elem_of_singleton in Hmain as ->.
    apply Forall_cons in Hvalid as [[t Ht] Hvalid].
    apply Forall_cons in Hty as [Hty _].
    split.
    { clear -Hty. revert first Hty. induction rest as [|l rest IH]; intros first Hty; [exact Hty|].
      cbn [foldl]. apply IH. rewrite type_mergeLeg. exact Hty. }
    destruct (earliest_fold rest first [date first] t Ht ltac:(left)) as (t' & H1 & H2 & H3).
    + intros d td Hd Htd. apply list_elem_of_singleton in Hd as ->.
      rewrite Ht in Htd. injection Htd as <-. lia.
    + exact Hvalid.
    + split; [exact H2|]. exists t'. split; [exact H1|].
      intros l tl Hl Htl. apply (H3 (date l)); [|exact Htl].
      change ([date first] ++ (date <$> rest)) with (date <$> (first :: rest)).
      apply list_elem_of_fmap_2. exact Hl.
Qed.

Lemma truthy_or_else (o : option string) (d : string) :
  d <> "" -> truthy (Some (or_else o d)) = true.
Proof.
  intros Hd. unfold or_else. destruct (truthy o) eqn:E.
  - destruct o as [s|]; [exact E|discriminate].
  - cbn. destruct (String.eqb_spec d ""); [contradiction|reflexivity].
Qed.

Lemma merged_end_date (main l : RawTravelLog) :
  date l <> "" -> truthy (end_date (mergeLeg main l)) = true.
Proof.
  intros Hd. rewrite end_date_mergeLeg.
  destruct (truthy (end_date main)) eqn:Em; cbn [negb orb].
  - destruct (truthy (end_date l) && _); [apply truthy_or_else; exact Hd|exact Em].
  - apply truthy_or_else. exact Hd.
Qed.

Lemma merged_end_date_fold (rest : list RawTravelLog) (main : RawTravelLog) :
  Forall (fun l => date l <> "") rest ->
  truthy (end_date main) = true ->
  truthy (end_date (foldl mergeLeg main rest)) = true.
Proof.
  revert main. induction rest as [|l rest IH]; intros main Hall Hm; [exact Hm|].
  apply Forall_cons in Hall as [Hl Hall]. cbn [foldl]. apply IH; [exact Hall|].
  apply merged_end_date. exact Hl.
Qed.

(** X29: how a ticket is first stored.  A flight document with two legs or
    more always yields a record with an end date, so, when its
    destination is not home, ingestion stores it as a completed round
    trip lasting from its start to that end date.  A single leg without
    end date to a destination away from home is stored open, for one
    day. *)
Theorem ticket_legs_decide_the_first_status now (i docId : string)
    (first : RawTravelLog) (rest : list RawTravelLog) :
  let main := foldl mergeLeg first rest in
  let log := toTravelLog i docId main in
  type first = Firebase.flight ->
  Forall (fun l => date l <> "") rest ->
  Firebase.isHomeLocation log = false ->
  (rest <> [] ->
   Firebase.status (Firebase.newLog now log) = Firebase.Complete
   /\ Firebase.days_spent (Firebase.newLog now log)
      = Firebase.calculateDuration (date main) (end_date main))
  /\ (rest = [] -> truthy (end_date first) = false ->
      Firebase.status (Firebase.newLog now log) = Firebase.OpenAwaitingReturn
      /\ Firebase.days_spent (Firebase.newLog now log) = Some 1).
Proof.
  cbv zeta. intros Hty Hdates Hhome.
  assert (Htype : type (foldl mergeLeg first rest) = Firebase.flight).
  { clear -Hty. revert first Hty. induction rest as [|l rest IH]; intros first Hty; [exact Hty|].
    cbn [foldl]. apply IH. rewrite type_mergeLeg. exact Hty. }
  split.
  - intros Hne. destruct rest as [|l rest]; [contradiction|].
    apply Forall_cons in Hdates as [Hl Hdates].
    assert (Hend : truthy (end_date (foldl mergeLeg first (l :: rest))) = true).
    { cbn [foldl]. apply merged_end_date_fold; [exact Hdates|]. apply merged_end_date. exact Hl. }
    set (main := foldl mergeLeg first (l :: rest)) in *.
    assert (Hround : Firebase.consolidated (toTravelLog i docId main) = true).
    { unfold Firebase.consolidated, Firebase.isRoundTrip, Firebase.isAccommodation.
      rewrite Hhome. cbn [toTravelLog Firebase.travel_type Firebase.return_date].
      rewrite Htype, Hend, Hend. reflexivity. }
    cbn [Firebase.newLog Firebase.status Firebase.days_spent]. rewrite Hround.
    split; [reflexivity|].
    cbn [toTravelLog Firebase.start_date Firebase.end_date].
    unfold Firebase.calculateDuration.
    assert (E : forall (o : option string) d, truthy o = true ->
                  or_else (Some (or_else o d)) (date main) = or_else o (date main)).
    { intros o d Ho. unfold or_else at 2 3. rewrite Ho.
      unfold or_else. destruct o as [s|]; [|discriminate]. cbn [default].
      cbn in Ho. cbn. rewrite Ho. reflexivity. }
    rewrite E by exact Hend. reflexivity.
  - intros -> Hnone. cbn [foldl] in *.
    assert (Hround : Firebase.consolidated (toTravelLog i docId first) = false).
    { unfold Firebase.consolidated, Firebase.isRoundTrip, Firebase.isAccommodation.
      rewrite Hhome. cbn [toTravelLog Firebase.travel_type Firebase.return_date].
      rewrite Htype, Hnone. reflexivity. }
    cbn [Firebase.newLog Firebase.status Firebase.days_spent]. rewrite Hround.
    split; reflexivity.
Qed.

Lemma ticket_legs_decide_the_first_status_witness :
  let log := toTravelLog "t1" "doc-1" (foldl mergeLeg Samples.outboundLeg [Samples.returnLeg]) in
  Firebase.status (Firebase.newLog "2025-03-01T00:00:00.000Z" log) = Firebase.Complete
  /\ Firebase.days_spent (Firebase.newLog "2025-03-01T00:00:00.000Z" log) = Some 5.
Proof.
  destruct (ticket_legs_decide_the_first_status "2025-03-01T00:00:00.000Z" "t1" "doc-1"
              Samples.outboundLeg [Samples.returnLeg]) as [H _].
  - reflexivity.
  - repeat constructor; discriminate.
  - vm_compute. reflexivity.
  - destruct (H ltac:(discriminate)) as [H1 H2]. split; [exact H1|].
    rewrite H2. vm_compute. reflexivity.
Defined.

End GeminiFacts.

(** * The dashboard's live verification *)

Module DashboardFacts.
Import JS Currency Reconciler Dashboard.

Lemma verifyStep_fold rates (proofs anchors : list Expense) (ids : gset string) (k : string) :
  k ∈ foldl (verifyStep rates proofs) ids anchors ->
  k ∈ ids
  \/ exists bankTx rec,
       bankTx ∈ anchors /\ rec ∈ proofs /\ proofMatches rates bankTx rec = true
       /\ (k = id bankTx \/ k = id rec).
Proof.
  revert ids. induction anchors as [|b anchors IH]; intros ids Hk; [left; exact Hk|].
  cbn [foldl] in Hk. apply IH in Hk as [Hk|(bankTx & rec & H1 & H2)].
  - unfold verifyStep in Hk. destruct (find (proofMatches rates b) proofs) as [m|] eqn:Hf.
    + apply find_some in Hf as [Hin Hm]. apply list_elem_of_In in Hin.
      apply elem_of_union in Hk as [Hk|Hk].
      * apply elem_of_singleton in Hk. right. exists b, m. split; [left|]. auto.
      * apply elem_of_union in Hk as [Hk|Hk]; [|left; exact Hk].
        apply elem_of_singleton in Hk. right. exists b, m. split; [left|]. auto.
    + left. exact Hk.
  - right. exists bankTx, rec. split; [right; exact H1|exact H2].
Qed.

Lemma proofMatches_autoMatches (data : ExchangeRates) (bankTx rec : Expense) :
  is_Some (getTime (date bankTx)) -> is_Some (getTime (date rec)) ->
  isAnchor rec = false ->
  proofMatches (Currency.rates data) bankTx rec = true ->
  autoMatches (Some data) bankTx rec = true.
Proof.
  intros [tb Hb] [tr Hr] Hproof. unfold proofMatches, autoMatches, sameAmtVal, mercMatch, diffDays.
  rewrite Hb, Hr. change (Reconciler.rates (Some data)) with (Currency.rates data).
  change (Dashboard.isAnchor rec) with (Reconciler.isAnchor rec) in Hproof.
  rewrite Hproof. cbn [negb].
  set (d := (inject_Z (Z.abs (tb - tr)) / inject_Z msPerDay)%Q).
  destruct (Qlt_bool 3 d) eqn:Efar; [discriminate|].
  set (tele := isTele (toLowerCase (merchant bankTx)) && isTele (toLowerCase (merchant rec))).
  set (i1 := includes (toLowerCase (merchant rec)) (substring0 4 (toLowerCase (merchant bankTx)))).
  set (i2 := includes (toLowerCase (merchant bankTx)) (substring0 4 (toLowerCase (merchant rec)))).
  destruct (tele || i1 || i2) eqn:Em; cbn [negb]; [|discriminate].
  intros Hamt. rewrite Hamt. cbn [andb]. rewrite andb_true_r.
  apply andb_true_iff. split.
  - assert (Hd : (d <= 3)%Q).
    { apply Qnot_lt_le. intros Hlt. apply ReconcilerProofs.Qlt_bool_iff in Hlt. congruence. }
    apply Qle_bool_iff.
    destruct (isHotel bankTx rec); [|exact Hd].
    eapply Qle_trans; [exact Hd|]. discriminate.
  - destruct tele; [reflexivity|]. cbn [orb] in Em.
    destruct i1; [rewrite orb_true_r; reflexivity|].
    destruct i2; [rewrite orb_true_r; reflexivity|discriminate].
Qed.

(** X30: what the dashboard shows as verified, the audit would match too: an
    id is marked only for an anchor and a proof that pass the
    dashboard's three-day check and, when all dates are valid, that pair
    also passes the fallback matcher of the audit.  Without exchange
    rates nothing is marked. *)
Theorem dashboard_marks_what_the_audit_matches
    (expenses : list Expense) (data : ExchangeRates) (k : string) :
  Forall (fun e => is_Some (getTime (date e))) expenses ->
  k ∈ verifiedIds expenses (Some data) ->
  verifiedIds expenses None = ∅
  /\ exists bankTx rec,
       bankTx ∈ expenses /\ rec ∈ expenses
       /\ Reconciler.isAnchor bankTx = true /\ Reconciler.isAnchor rec = false
       /\ (k = id bankTx \/ k = id rec)
       /\ proofMatches (Currency.rates data) bankTx rec = true
       /\ autoMatches (Some data) bankTx rec = true.
Proof.
  intros Hvalid Hk. split; [reflexivity|].
  unfold verifiedIds in Hk. apply verifyStep_fold in Hk as [Hk|(b & r & Hb & Hr & Hm & Hid)].
  - apply elem_of_empty in Hk. contradiction.
  - apply list_elem_of_filter in Hb as [Hba Hb]. apply list_elem_of_filter in Hr as [Hra Hr].
    apply Is_true_true in Hba. apply Is_true_true, negb_true_iff in Hra.
    rewrite Forall_forall in Hvalid.
    exists b, r. repeat split; auto.
    apply proofMatches_autoMatches; auto.
Qed.

Lemma dashboard_marks_what_the_audit_matches_witness :
  autoMatches (Some Samples.rates20) ReconcilerSpec.flydubaiAnchor ReconcilerSpec.flydubaiReceipt = true.
Proof.
  destruct (dashboard_marks_what_the_audit_matches
              [ReconcilerSpec.flydubaiAnchor; ReconcilerSpec.flydubaiReceipt]
              Samples.rates20 "a1") as [_ (b & r & Hb & Hr & Hba & Hra & _ & _ & Hm)].
  - repeat constructor; vm_compute; eauto.
  - assert (E : verifiedIds [ReconcilerSpec.flydubaiAnchor; ReconcilerSpec.flydubaiReceipt]
                  (Some Samples.rates20) = {[ "p1" ]} ∪ ({[ "a1" ]} ∪ ∅))
      by (vm_compute; reflexivity).
    rewrite E. apply elem_of_union_r, elem_of_union_l, elem_of_singleton. reflexivity.
  - apply elem_of_cons in Hb as [->|Hb].
    + apply elem_of_cons in Hr as [->|Hr]; [discriminate Hra|].
      apply list_elem_of_singleton in Hr as ->. exact Hm.
    + apply list_elem_of_singleton in Hb as ->. discriminate Hba.
Defined.

End DashboardFacts.
